(** * The autoencoder notebook [week8/pytorch_autoencoder.ipynb]

    A shallow embedding of the numeric pipeline of the notebook: the
    [AE] module and its [forward], the mean-squared-error criterion, the
    gradients that [train_loss.backward()] leaves on the parameters, the
    Adam step, the data loaders, and the training and evaluation cells
    as functions on the state the cells share.

    PyTorch's operations ([nn.Linear], [torch.relu], [nn.MSELoss],
    [optim.Adam], [DataLoader]) are modelled after their documented
    behaviour.  Tensors are nested lists over a numeric backend (class
    [Scalar]); the pipeline is written once for every backend.
    Statements about values are settled in exact real arithmetic
    (instance [R_scalar]) and the statement about non-finite values in
    the reals extended with a not-a-number element (instance
    [XR_scalar]).  The tensors of the notebook hold float32 values, the
    roundings of these: what is proved about wiring, shapes, counts and
    exact zeros does not depend on it, and where the size of a value
    matters (the Adam step) the rounding of the stored parameter is
    accounted for by a property of the number format
    ([rounds_to_nearest]).  The global random generator of torch is an
    interface ([RandomSource]) of which only the contract of [randperm]
    is used. *)

From Stdlib Require Import String Ascii.
From Stdlib Require Import List Arith Lia ZArith Bool.
From Stdlib Require Import Permutation DecimalString DecimalZ DecimalPos.
From Stdlib Require Import Reals Lra.
Import ListNotations.

Set Implicit Arguments.

(** ** Python exceptions and the result of a fallible call

    A call either returns a value or raises; an exception ends the cell
    that raised it, and the state the cell had reached is not kept. *)

Inductive exn : Type :=
| RuntimeError       (* torch: shapes cannot be multiplied / viewed *)
| ValueError         (* DataLoader: no sample to shuffle, batch_size not positive *)
| IndexError         (* dataset[i] with i out of range *)
| ZeroDivisionError. (* Python: division by zero *)

Inductive result (T : Type) : Type :=
| Ok (t : T)
| Raise (e : exn).

Arguments Ok {T} t.
Arguments Raise {T} e.

Definition bind {T U : Type} (r : result T) (k : T -> result U) : result U :=
  match r with
  | Ok t => k t
  | Raise e => Raise e
  end.

Declare Scope result_scope.
Delimit Scope result_scope with result.
Notation "x <- r ;; k" := (bind r (fun x => k))
  (at level 100, r at next level, right associativity) : result_scope.
Open Scope result_scope.

(** ** The numeric backend *)

Class Scalar (A : Type) : Type := {
  zero : A;
  one : A;
  add : A -> A -> A;
  sub : A -> A -> A;
  mul : A -> A -> A;
  div : A -> A -> A;
  ssqrt : A -> A;
  (* torch.clamp_min / max of two scalars *)
  smax : A -> A -> A;
  (* [gtb x y] is the comparison x > y *)
  gtb : A -> A -> bool;
  (* conversion of a Python int *)
  of_Z : Z -> A;
  (* the digits Python prints for "{:.6f}" *)
  format6f : A -> string
}.

(** ** Tensors as nested lists *)

Abbreviation vec A := (list A) (only parsing).
Abbreviation matrix A := (list (list A)) (only parsing).

(** A tensor of shape (r, c). *)
Definition mshape {A : Type} (r c : nat) (m : matrix A) : Prop :=
  length m = r /\ Forall (fun row => length row = c) m.

Definition mshapeb {A : Type} (r c : nat) (m : matrix A) : bool :=
  (length m =? r) && forallb (fun row => length row =? c) m.

Fixpoint map2 {X Y Z : Type} (f : X -> Y -> Z) (xs : list X) (ys : list Y)
  : list Z :=
  match xs, ys with
  | x :: xs', y :: ys' => f x y :: map2 f xs' ys'
  | _, _ => []
  end.

Section Tensors.
Context {A : Type} {SA : Scalar A}.

(** Sum of the elements, accumulated from the left starting at zero. *)
Definition vsum (xs : vec A) : A := fold_left add xs zero.

Definition dot (x w : vec A) : A := vsum (map2 mul x w).

Definition vadd (x y : vec A) : vec A := map2 add x y.

(** [relu(x) = max(x, 0)], elementwise. *)
Definition relu1 (x : A) : A := smax x zero.
Definition relu (m : matrix A) : matrix A := map (map relu1) m.

Definition ncols (m : matrix A) : nat :=
  match m with
  | [] => 0
  | row :: _ => length row
  end.

Definition col (j : nat) (m : matrix A) : vec A :=
  map (fun row => nth j row zero) m.

Definition transpose (m : matrix A) : matrix A :=
  map (fun j => col j m) (seq 0 (ncols m)).

(** [X @ W]: entry (i, j) is the dot product of row i of X with
    column j of W. *)
Definition matmul (X W : matrix A) : matrix A :=
  map (fun x => map (dot x) (transpose W)) X.


End Tensors.

(** ** [nn.Linear] and the [AE] module *)

(** [nn.Linear(in_features, out_features)]: the weight has shape
    (out_features, in_features), the bias (out_features). *)
Record Linear (A : Type) : Type := mkLinear {
  in_features : nat;
  out_features : nat;
  weight : list (list A);
  bias : list A
}.

(** The four layers created by [AE.__init__]. *)
Record AE (A : Type) : Type := mkAE {
  encoder_hidden_layer : Linear A;
  encoder_output_layer : Linear A;
  decoder_hidden_layer : Linear A;
  decoder_output_layer : Linear A
}.

(** The parameter shapes of a layer. *)
Definition Linear_wf {A : Type} (i o : nat) (l : Linear A) : Prop :=
  in_features l = i /\ out_features l = o /\
  mshape o i (weight l) /\ length (bias l) = o.

Definition Linear_wfb {A : Type} (i o : nat) (l : Linear A) : bool :=
  (in_features l =? i) && (out_features l =? o) &&
  mshapeb o i (weight l) && (length (bias l) =? o).

(** The layer sizes fixed by [AE.__init__(input_shape=...)]. *)
Definition AE_wf {A : Type} (input_shape : nat) (ae : AE A) : Prop :=
  Linear_wf input_shape 128 (encoder_hidden_layer ae) /\
  Linear_wf 128 128 (encoder_output_layer ae) /\
  Linear_wf 128 128 (decoder_hidden_layer ae) /\
  Linear_wf 128 input_shape (decoder_output_layer ae).

Definition AE_wfb {A : Type} (input_shape : nat) (ae : AE A) : bool :=
  Linear_wfb input_shape 128 (encoder_hidden_layer ae) &&
  Linear_wfb 128 128 (encoder_output_layer ae) &&
  Linear_wfb 128 128 (decoder_hidden_layer ae) &&
  Linear_wfb 128 input_shape (decoder_output_layer ae).

(** A layer and a model whose parameter elements all have the value
    [x]. *)
Definition const_Linear {X : Type} (x : X) (i o : nat) : Linear X :=
  mkLinear i o (repeat (repeat x i) o) (repeat x o).

Definition const_AE {X : Type} (x : X) (input_shape : nat) : AE X :=
  mkAE (const_Linear x input_shape 128) (const_Linear x 128 128)
       (const_Linear x 128 128) (const_Linear x 128 input_shape).

(** [AE.__init__(input_shape=...)]: the four layers, of sizes
    input_shape -> 128 -> 128 -> 128 -> input_shape, created in this
    order.  A fresh [nn.Linear] draws its weight and bias from the global
    generator; [new_linear i o] stands for
    [nn.Linear(in_features=i, out_features=o)]: from the state of the
    generator it gives the layer and the state afterwards. *)
Definition AE_init {X G : Type} (new_linear : nat -> nat -> G -> Linear X * G)
    (input_shape : nat) (g : G) : AE X * G :=
  let (l1, g1) := new_linear input_shape 128 g in
  let (l2, g2) := new_linear 128 128 g1 in
  let (l3, g3) := new_linear 128 128 g2 in
  let (l4, g4) := new_linear 128 input_shape g3 in
  (mkAE l1 l2 l3 l4, g4).

(** The initialisation that sets every parameter to [x] and draws
    nothing. *)
Definition const_init {X G : Type} (x : X) (i o : nat) (g : G)
  : Linear X * G :=
  (const_Linear x i o, g).

Section Model.
Context {A : Type} {SA : Scalar A}.

(** The output of a layer, [x @ weight^T + bias]: entry (i, j) is the
    dot product of row i of the input with row j of the weight, plus
    bias j. *)
Definition linear_out (l : Linear A) (x : matrix A) : matrix A :=
  map (fun row => vadd (map (dot row) (weight l)) (bias l)) x.

(** Calling a layer; torch raises a RuntimeError when the last dimension
    of the input is not [in_features]. *)
Definition Linear_call (l : Linear A) (x : matrix A) : result (matrix A) :=
  if forallb (fun row => length row =? in_features l) x
  then Ok (linear_out l x)
  else Raise RuntimeError.

(** [AE.forward]. *)
Definition forward (ae : AE A) (features : matrix A) : result (matrix A) :=
  activation <- Linear_call (encoder_hidden_layer ae) features ;;
  let activation := relu activation in
  code <- Linear_call (encoder_output_layer ae) activation ;;
  let code := relu code in
  activation <- Linear_call (decoder_hidden_layer ae) code ;;
  let activation := relu activation in
  activation <- Linear_call (decoder_output_layer ae) activation ;;
  let reconstructed := relu activation in
  Ok reconstructed.

(** The model whose parameters are all zero. *)
Definition zeros_AE (input_shape : nat) : AE A :=
  const_AE zero input_shape.

(** The activations of the four layers, as [forward] computes them. *)
Definition layer1 (ae : AE A) (x : matrix A) : matrix A :=
  relu (linear_out (encoder_hidden_layer ae) x).
Definition layer2 (ae : AE A) (x : matrix A) : matrix A :=
  relu (linear_out (encoder_output_layer ae) (layer1 ae x)).
Definition layer3 (ae : AE A) (x : matrix A) : matrix A :=
  relu (linear_out (decoder_hidden_layer ae) (layer2 ae x)).
Definition layer4 (ae : AE A) (x : matrix A) : matrix A :=
  relu (linear_out (decoder_output_layer ae) (layer3 ae x)).


End Model.

(** ** The criterion and the gradients *)

Section Loss.
Context {A : Type} {SA : Scalar A}.

Definition numel (m : matrix A) : nat := length (concat m).

(** [nn.MSELoss()] with the default reduction: the mean of the squared
    differences over all elements. *)
Definition criterion (input target : matrix A) : A :=
  div (vsum (map2 (fun o t => mul (sub o t) (sub o t))
                  (concat input) (concat target)))
      (of_Z (Z.of_nat (numel input))).

(** Gradient of the criterion with respect to its first argument:
    [2 * (output - target) / num_elements]. *)
Definition criterion_grad (input target : matrix A) : matrix A :=
  map2 (map2 (fun o t =>
          div (mul (of_Z 2) (sub o t)) (of_Z (Z.of_nat (numel input)))))
       input target.

(** Gradient through [torch.relu]: the incoming gradient where the
    result is positive, zero elsewhere. *)
Definition relu_backward (d_out result : matrix A) : matrix A :=
  map2 (map2 (fun d r => if gtb r zero then d else zero)) d_out result.

(** Sum over the batch axis (axis 0). *)
Definition sum_rows (d_out : matrix A) : vec A :=
  map (fun column => vsum column) (transpose d_out).

(** Gradients of a layer [y = x @ weight^T + bias] given the gradient
    [d_out] of its output: for the weight [d_out^T @ x], for the bias the
    sum of [d_out] over the batch, for the input [d_out @ weight]. *)
Definition Linear_grad (l : Linear A) (x d_out : matrix A) : Linear A :=
  mkLinear (in_features l) (out_features l)
           (matmul (transpose d_out) x) (sum_rows d_out).

Definition Linear_grad_input (l : Linear A) (d_out : matrix A) : matrix A :=
  matmul d_out (weight l).

(** What [train_loss.backward()] computes for
    [train_loss = criterion(model(x), x)]: the chain rule through the
    four layers in reverse order.  The target is the input batch, which
    carries no gradient. *)
Definition backward (ae : AE A) (x : matrix A) : AE A :=
  let a1 := layer1 ae x in
  let a2 := layer2 ae x in
  let a3 := layer3 ae x in
  let a4 := layer4 ae x in
  let d4 := relu_backward (criterion_grad a4 x) a4 in
  let d3 := relu_backward
              (Linear_grad_input (decoder_output_layer ae) d4) a3 in
  let d2 := relu_backward
              (Linear_grad_input (decoder_hidden_layer ae) d3) a2 in
  let d1 := relu_backward
              (Linear_grad_input (encoder_output_layer ae) d2) a1 in
  mkAE (Linear_grad (encoder_hidden_layer ae) x d1)
       (Linear_grad (encoder_output_layer ae) a1 d2)
       (Linear_grad (decoder_hidden_layer ae) a2 d3)
       (Linear_grad (decoder_output_layer ae) a3 d4).

End Loss.

(** ** Elementwise operations on parameter-shaped records *)

Definition Linear_map2 {X Y Z : Type} (f : X -> Y -> Z)
    (l1 : Linear X) (l2 : Linear Y) : Linear Z :=
  mkLinear (in_features l1) (out_features l1)
           (map2 (map2 f) (weight l1) (weight l2))
           (map2 f (bias l1) (bias l2)).

Definition AE_map2 {X Y Z : Type} (f : X -> Y -> Z)
    (a1 : AE X) (a2 : AE Y) : AE Z :=
  mkAE (Linear_map2 f (encoder_hidden_layer a1) (encoder_hidden_layer a2))
       (Linear_map2 f (encoder_output_layer a1) (encoder_output_layer a2))
       (Linear_map2 f (decoder_hidden_layer a1) (decoder_hidden_layer a2))
       (Linear_map2 f (decoder_output_layer a1) (decoder_output_layer a2)).

Definition Linear_map {X Y : Type} (f : X -> Y) (l : Linear X) : Linear Y :=
  mkLinear (in_features l) (out_features l)
           (map (map f) (weight l)) (map f (bias l)).

Definition AE_map {X Y : Type} (f : X -> Y) (a : AE X) : AE Y :=
  mkAE (Linear_map f (encoder_hidden_layer a))
       (Linear_map f (encoder_output_layer a))
       (Linear_map f (decoder_hidden_layer a))
       (Linear_map f (decoder_output_layer a)).

(** The elements of the eight parameter tensors, in the order of
    [model.parameters()]: weight then bias of each layer. *)
Definition Linear_elements {X : Type} (l : Linear X) : list X :=
  concat (weight l) ++ bias l.

Definition AE_elements {X : Type} (a : AE X) : list X :=
  Linear_elements (encoder_hidden_layer a) ++
  Linear_elements (encoder_output_layer a) ++
  Linear_elements (decoder_hidden_layer a) ++
  Linear_elements (decoder_output_layer a).

(** ** The optimizer: [optim.Adam] *)

Record AdamHyper (A : Type) : Type := mkAdamHyper {
  lr : A;
  beta1 : A;
  beta2 : A;
  eps : A
}.

(** The optimizer state: the step counter and, for every parameter
    element, the running averages of the gradient and of its square. *)
Record AdamState (A : Type) : Type := mkAdamState {
  step : nat;
  exp_avg : AE A;
  exp_avg_sq : AE A
}.

Section Optimizer.
Context {A : Type} {SA : Scalar A}.

Fixpoint spow (b : A) (n : nat) : A :=
  match n with
  | O => one
  | S n' => mul b (spow b n')
  end.

(** [optim.Adam(params, lr=lr)]: the defaults are betas = (0.9, 0.999)
    and eps = 1e-8. *)
Definition Adam_defaults (lr : A) : AdamHyper A :=
  mkAdamHyper lr (div (of_Z 9) (of_Z 10)) (div (of_Z 999) (of_Z 1000))
              (div one (of_Z 100000000)).

(** Cell 7: [learning_rate = 1e-3].  The name is not read again: the
    optimizer is given the literal [1e-3]. *)
Definition learning_rate : A := div one (of_Z 1000).

(** The optimizer of the notebook:
    [optim.Adam(model.parameters(), lr=1e-3)]. *)
Definition optimizer_hyper : AdamHyper A :=
  Adam_defaults (div one (of_Z 1000)).

(** [m = beta1*m + (1-beta1)*grad]. *)
Definition adam_exp_avg (hp : AdamHyper A) (m g : A) : A :=
  add (mul (beta1 hp) m) (mul (sub one (beta1 hp)) g).

(** [v = beta2*v + (1-beta2)*grad^2]. *)
Definition adam_exp_avg_sq (hp : AdamHyper A) (v g : A) : A :=
  add (mul (beta2 hp) v) (mul (sub one (beta2 hp)) (mul g g)).

(** The bias-corrected update [lr * m_hat / (sqrt(v_hat) + eps)] at
    step [t]. *)
Definition adam_update (hp : AdamHyper A) (t : nat) (m v : A) : A :=
  let m_hat := div m (sub one (spow (beta1 hp) t)) in
  let v_hat := div v (sub one (spow (beta2 hp) t)) in
  div (mul (lr hp) m_hat) (add (ssqrt v_hat) (eps hp)).

(** [param -= lr * m_hat / (sqrt(v_hat) + eps)]. *)
Definition adam_param (hp : AdamHyper A) (t : nat) (p : A) (mv : A * A)
  : A :=
  sub p (adam_update hp t (fst mv) (snd mv)).

(** The state a fresh optimizer has for parameters shaped like [ae]:
    step 0 and zero moment estimates. *)
Definition Adam_init (ae : AE A) : AdamState A :=
  mkAdamState 0 (AE_map (fun _ => zero) ae) (AE_map (fun _ => zero) ae).

(** One step on all parameters with the gradients [grads]. *)
Definition Adam_step (hp : AdamHyper A) (st : AdamState A)
    (params grads : AE A) : AdamState A * AE A :=
  let t := S (step st) in
  let m := AE_map2 (adam_exp_avg hp) (exp_avg st) grads in
  let v := AE_map2 (adam_exp_avg_sq hp) (exp_avg_sq st) grads in
  (mkAdamState t m v,
   AE_map2 (adam_param hp t) params (AE_map2 pair m v)).

End Optimizer.

(** ** Datasets and data loaders *)

(** torch's global random generator, as far as the notebook uses it. *)
Class RandomSource (G : Type) : Type := {
  (* torch.manual_seed *)
  manual_seed : Z -> G;
  (* the base seed every new loader iterator draws *)
  draw_seed : G -> G;
  (* the order a RandomSampler over n samples yields *)
  randperm : nat -> G -> list nat * G
}.

(** The contract of [randperm]: a permutation of [0, n). *)
Definition randperm_permutes {G : Type} (RS : RandomSource G) : Prop :=
  forall (n : nat) (g : G), Permutation (fst (randperm n g)) (seq 0 n).

(** A sample of [torchvision.datasets.MNIST] after [ToTensor]: an image
    tensor of shape (1, 28, 28) and its label. *)
Abbreviation image A := (list (list (list A))) (only parsing).
Abbreviation dataset A := (list (list (list (list A)) * nat)) (only parsing).

Definition image_shape {A : Type} (im : image A) : Prop :=
  mshape 1 28 im /\ Forall (Forall (fun row => length row = 28)) im.

Definition image_shapeb {A : Type} (im : image A) : bool :=
  mshapeb 1 28 im && forallb (forallb (fun row => length row =? 28)) im.

Definition dataset_wf {A : Type} (ds : dataset A) : Prop :=
  Forall (fun s => image_shape (fst s)) ds.

Definition dataset_wfb {A : Type} (ds : dataset A) : bool :=
  forallb (fun s => image_shapeb (fst s)) ds.

(** [torch.utils.data.DataLoader(dataset, batch_size=..., shuffle=...)],
    with [drop_last] at its default [False].  The worker processes
    ([num_workers]) and [pin_memory] only prefetch the batches, in the
    order of the batch sampler; they are not part of the record.  The
    notebook passes no [generator=...]: a shuffling loader draws from
    the global generator. *)
Record DataLoader (A : Type) : Type := mkDataLoader {
  dl_dataset : dataset A;
  dl_batch_size : nat;
  dl_shuffle : bool
}.

(** The constructor.  With [shuffle=True] it creates a [RandomSampler],
    which refuses a dataset without samples; the [BatchSampler] it
    creates next refuses a batch size that is not positive.  Both raise
    a ValueError. *)
Definition DataLoader_new {A : Type} (ds : dataset A) (batch_size : nat)
    (shuffle : bool) : result (DataLoader A) :=
  if shuffle && (length ds =? 0) then Raise ValueError
  else if batch_size =? 0 then Raise ValueError
  else Ok (mkDataLoader ds batch_size shuffle).

(** [BatchSampler.__iter__] with [drop_last = False]: indices are
    appended to the current batch, which is yielded when it reaches
    [batch_size]; a non-empty remainder is yielded at the end. *)
Fixpoint batch_sampler_from (batch_size : nat) (batch : list nat)
    (indices : list nat) : list (list nat) :=
  match indices with
  | [] => if 0 <? length batch then [batch] else []
  | idx :: rest =>
      let batch := batch ++ [idx] in
      if length batch =? batch_size
      then batch :: batch_sampler_from batch_size [] rest
      else batch_sampler_from batch_size batch rest
  end.

Definition BatchSampler (batch_size : nat) (indices : list nat)
  : list (list nat) :=
  batch_sampler_from batch_size [] indices.

(** [len(loader)]: the number of batches, [ceil(size / batch_size)]. *)
Definition DataLoader_len {A : Type} (dl : DataLoader A) : nat :=
  (length (dl_dataset dl) + dl_batch_size dl - 1) / dl_batch_size dl.

Section Loading.
Context {A : Type} {G : Type} {RS : RandomSource G}.

(** The index order of one pass: a random permutation when shuffling,
    else [0, 1, ..., size-1]. *)
Definition sampler (dl : DataLoader A) (g : G) : list nat * G :=
  if dl_shuffle dl then randperm (length (dl_dataset dl)) g
  else (seq 0 (length (dl_dataset dl)), g).

(** [iter(loader)]: the index batches of one pass and the generator
    state afterwards.  The samples of a batch are fetched when the loop
    reaches the batch. *)
Definition DataLoader_iter (dl : DataLoader A) (g : G)
  : list (list nat) * G :=
  let (indices, g') := sampler dl (draw_seed g) in
  (BatchSampler (dl_batch_size dl) indices, g').

Fixpoint mapM {X Y : Type} (f : X -> result Y) (xs : list X)
  : result (list Y) :=
  match xs with
  | [] => Ok []
  | x :: xs' => y <- f x ;; ys <- mapM f xs' ;; Ok (y :: ys)
  end.

Definition getitem (ds : dataset A) (i : nat) : result (image A * nat) :=
  match nth_error ds i with
  | Some s => Ok s
  | None => Raise IndexError
  end.

(** Fetching a batch: the samples at the indices, collated into the
    stacked images (shape (N, 1, 28, 28)) and the labels. *)
Definition fetch (ds : dataset A) (indices : list nat)
  : result (list (image A) * list nat) :=
  samples <- mapM (getitem ds) indices ;;
  Ok (map fst samples, map snd samples).

(** An image whose 28 x 28 pixels all have the value [x]. *)
Definition constant_image (x : A) : image A := [repeat (repeat x 28) 28].

(** The elements of an image tensor in row-major order. *)
Definition flatten_image (im : image A) : vec A := concat (concat im).

Fixpoint chunks (c : nat) (rows : nat) (xs : list A) : matrix A :=
  match rows with
  | O => []
  | S rows' => firstn c xs :: chunks c rows' (skipn c xs)
  end.

(** [batch.view(-1, c)]: the elements in row-major order, regrouped in
    rows of [c]; torch raises a RuntimeError when the number of elements
    is not a multiple of [c]. *)
Definition view (c : nat) (batch : list (image A)) : result (matrix A) :=
  let flat := concat (map flatten_image batch) in
  if length flat mod c =? 0
  then Ok (chunks c (length flat / c) flat)
  else Raise RuntimeError.

End Loading.

(** ** The notebook: configuration, state and cells *)

(** Cells 5 and 7: [seed = 42], [batch_size = 512], [epochs = 20]. *)
Definition seed : Z := 42.
Definition batch_size : nat := 512.
Definition epochs : nat := 20.

(** The objects the cells share and mutate. *)
Record Notebook (A G : Type) : Type := mkNotebook {
  rng : G;                            (* torch's global generator *)
  model : AE A;                       (* the parameters of [model] *)
  grad : option (AE A);               (* their [.grad] *)
  optimizer : AdamState A;            (* the state of [optimizer] *)
  stdout : list string;               (* the printed lines *)
  test_examples : option (matrix A);
  reconstruction : option (matrix A)
}.

Definition string_of_nat (n : nat) : string :=
  NilZero.string_of_uint (Nat.to_uint n).

Section Cells.
Context {A : Type} {SA : Scalar A} {G : Type} {RS : RandomSource G}.

Definition with_rng (nb : Notebook A G) (g : G) : Notebook A G :=
  mkNotebook g (model nb) (grad nb) (optimizer nb) (stdout nb)
             (test_examples nb) (reconstruction nb).

Definition with_grad (nb : Notebook A G) (gr : option (AE A))
  : Notebook A G :=
  mkNotebook (rng nb) (model nb) gr (optimizer nb) (stdout nb)
             (test_examples nb) (reconstruction nb).

Definition with_model (nb : Notebook A G) (ae : AE A) (st : AdamState A)
  : Notebook A G :=
  mkNotebook (rng nb) ae (grad nb) st (stdout nb)
             (test_examples nb) (reconstruction nb).

Definition print (nb : Notebook A G) (line : string) : Notebook A G :=
  mkNotebook (rng nb) (model nb) (grad nb) (optimizer nb)
             (stdout nb ++ [line])
             (test_examples nb) (reconstruction nb).

Definition with_evaluation (nb : Notebook A G)
    (examples recon : option (matrix A)) : Notebook A G :=
  mkNotebook (rng nb) (model nb) (grad nb) (optimizer nb) (stdout nb)
             examples recon.

(** Cell 5: [torch.manual_seed(seed)]. *)
Definition cell5 (nb : Notebook A G) : Notebook A G :=
  with_rng nb (manual_seed seed).

(** Cell 9: the first [train_loader], built from the configured
    [batch_size]. *)
Definition train_loader_cell9 (train_dataset : dataset A)
  : result (DataLoader A) :=
  DataLoader_new train_dataset batch_size true.

(** Cell 13: [model = AE(input_shape=784)], whose initialisation draws
    from the global generator, and the optimizer for its parameters. *)
Definition cell13 (new_linear : nat -> nat -> G -> Linear A * G)
    (nb : Notebook A G) : Notebook A G :=
  let (model, g) := AE_init new_linear 784 (rng nb) in
  with_rng (with_model nb model (Adam_init model)) g.

(** Cell 15: [train_loader] and [test_loader] are bound again; these are
    the loaders in scope when the training cell runs. *)
Definition train_loader (train_dataset : dataset A)
  : result (DataLoader A) :=
  DataLoader_new train_dataset 128 true.

Definition test_loader_cell15 (test_dataset : dataset A)
  : result (DataLoader A) :=
  DataLoader_new test_dataset 32 false.

(** [optimizer.zero_grad()]. *)
Definition zero_grad (nb : Notebook A G) : Notebook A G :=
  with_grad nb None.

(** [train_loss.backward()]: gradients are accumulated into [.grad]. *)
Definition loss_backward (nb : Notebook A G) (x : matrix A)
  : Notebook A G :=
  let g := backward (model nb) x in
  with_grad nb (Some (match grad nb with
                      | None => g
                      | Some old => AE_map2 add old g
                      end)).

(** [optimizer.step()]: parameters without gradient are skipped. *)
Definition optimizer_step (nb : Notebook A G) : result (Notebook A G) :=
  match grad nb with
  | None => Ok nb
  | Some g =>
      let (st, ae) := Adam_step optimizer_hyper (optimizer nb) (model nb) g in
      Ok (with_model nb ae st)
  end.

(** The body of the inner loop of cell 16 for one batch; the value
    returned with the state is [train_loss.item()]. *)
Definition train_batch (train_dataset : dataset A) (nb : Notebook A G)
    (indices : list nat) : result (Notebook A G * A) :=
  batch <- fetch train_dataset indices ;;
  batch_features <- view 784 (fst batch) ;;
  let nb := zero_grad nb in
  outputs <- forward (model nb) batch_features ;;
  let train_loss := criterion outputs batch_features in
  let nb := loss_backward nb batch_features in
  nb <- optimizer_step nb ;;
  Ok (nb, train_loss).

(** The inner loop: [loss += train_loss.item()] for each batch. *)
Fixpoint train_batches (train_dataset : dataset A) (nb : Notebook A G)
    (loss : A) (batches : list (list nat)) : result (Notebook A G * A) :=
  match batches with
  | [] => Ok (nb, loss)
  | indices :: rest =>
      r <- train_batch train_dataset nb indices ;;
      train_batches train_dataset (fst r) (add loss (snd r)) rest
  end.

(** One iteration of the outer loop up to
    [loss = loss / len(train_loader)]. *)
Definition epoch_loss (loader : DataLoader A) (nb : Notebook A G)
  : result (Notebook A G * A) :=
  let loss := zero in
  let (batches, g) := DataLoader_iter loader (rng nb) in
  r <- train_batches (dl_dataset loader) (with_rng nb g) loss batches ;;
  if DataLoader_len loader =? 0 then Raise ZeroDivisionError
  else Ok (fst r, div (snd r) (of_Z (Z.of_nat (DataLoader_len loader)))).

(** ["epoch : {}/{}, loss = {:.6f}".format(epoch + 1, epochs, loss)]. *)
Definition report_line (epoch epochs : nat) (loss : A) : string :=
  ("epoch : " ++ string_of_nat (epoch + 1) ++ "/" ++ string_of_nat epochs
   ++ ", loss = " ++ format6f loss)%string.

Definition train_epoch (epochs : nat) (loader : DataLoader A)
    (nb : Notebook A G) (epoch : nat) : result (Notebook A G) :=
  r <- epoch_loss loader nb ;;
  Ok (print (fst r) (report_line epoch epochs (snd r))).

Fixpoint for_epochs (epochs : nat) (loader : DataLoader A)
    (nb : Notebook A G) (range : list nat) : result (Notebook A G) :=
  match range with
  | [] => Ok nb
  | epoch :: rest =>
      nb' <- train_epoch epochs loader nb epoch ;;
      for_epochs epochs loader nb' rest
  end.

(** [for epoch in range(epochs): ...]. *)
Definition training_loop (epochs : nat) (loader : DataLoader A)
    (nb : Notebook A G) : result (Notebook A G) :=
  for_epochs epochs loader nb (seq 0 epochs).

(** Cell 16, with the loader of cell 15 and the configured [epochs]. *)
Definition cell16 (train_dataset : dataset A) (nb : Notebook A G)
  : result (Notebook A G) :=
  loader <- train_loader train_dataset ;;
  training_loop epochs loader nb.

(** A run of the notebook's training: seeding, creation of model and
    optimizer, and the training cell. *)
Definition notebook_run (new_linear : nat -> nat -> G -> Linear A * G)
    (train_dataset : dataset A) (nb : Notebook A G)
  : result (Notebook A G) :=
  cell16 train_dataset (cell13 new_linear (cell5 nb)).

(** Cell 18: a new [test_loader] with batches of 10, not shuffled. *)
Definition test_loader (test_dataset : dataset A)
  : result (DataLoader A) :=
  DataLoader_new test_dataset 10 false.

(** Cell 18: under [torch.no_grad()], the first batch of the test loader
    is reshaped and passed through the model; the loop body ends with
    [break]. *)
Definition cell18 (test_dataset : dataset A) (nb : Notebook A G)
  : result (Notebook A G) :=
  loader <- test_loader test_dataset ;;
  let nb := with_evaluation nb None (reconstruction nb) in
  let (batches, g) := DataLoader_iter loader (rng nb) in
  let nb := with_rng nb g in
  match batches with
  | [] => Ok nb
  | indices :: _ =>
      batch_features <- fetch (dl_dataset loader) indices ;;
      let batch_features := fst batch_features in
      examples <- view 784 batch_features ;;
      recon <- forward (model nb) examples ;;
      Ok (with_evaluation nb (Some examples) (Some recon))
  end.

End Cells.

(** ** Backends *)

(** *** Exact real arithmetic *)

(** Rounding to the nearest integer, ties to even. *)
Definition round_half_even (x : R) : Z :=
  let f := Int_part x in
  let r := (x - IZR f)%R in
  if Rlt_dec r (1 / 2) then f
  else if Rlt_dec (1 / 2) r then (f + 1)%Z
  else if Z.even f then f else (f + 1)%Z.

Definition string_of_N (n : N) : string :=
  NilZero.string_of_uint (N.to_uint n).

(** The last six decimal digits of [n], with leading zeros. *)
Definition digits6 (n : Z) : string :=
  match string_of_N (Z.to_N (1000000 + n mod 1000000)) with
  | String _ s => s
  | EmptyString => EmptyString
  end.

(** ["{:.6f}".format(x)]: sign, integer part, point, six decimals. *)
Definition format6f_R (x : R) : string :=
  let n := round_half_even (Rabs x * 1000000) in
  ((if Rlt_dec x 0 then "-" else "")
   ++ string_of_N (Z.to_N (n / 1000000)) ++ "." ++ digits6 n)%string.

#[export] Instance R_scalar : Scalar R := {
  zero := 0%R;
  one := 1%R;
  add := Rplus;
  sub := Rminus;
  mul := Rmult;
  div := Rdiv;
  ssqrt := R_sqrt.sqrt;
  smax := Rmax;
  gtb := fun x y => if Rlt_dec y x then true else false;
  of_Z := IZR;
  format6f := format6f_R
}.

(** *** The reals extended with not-a-number

    Every operation with a NaN operand yields NaN and every comparison
    with NaN is false, as in IEEE 754 arithmetic.  A division by zero,
    where IEEE 754 yields an infinity or NaN, is NaN here; the pipeline
    divides by element counts, by [1 - beta^t] and by
    [sqrt(v_hat) + eps] only. *)
Inductive xreal : Type :=
| Fin (r : R)
| NaN.

Definition xlift2 (f : R -> R -> R) (x y : xreal) : xreal :=
  match x, y with
  | Fin a, Fin b => Fin (f a b)
  | _, _ => NaN
  end.

Definition xdiv (x y : xreal) : xreal :=
  match x, y with
  | Fin a, Fin b => if Req_dec_T b 0 then NaN else Fin (a / b)
  | _, _ => NaN
  end.

Definition xsqrt (x : xreal) : xreal :=
  match x with
  | Fin a => if Rlt_dec a 0 then NaN else Fin (R_sqrt.sqrt a)
  | NaN => NaN
  end.

Definition xgtb (x y : xreal) : bool :=
  match x, y with
  | Fin a, Fin b => if Rlt_dec b a then true else false
  | _, _ => false
  end.

Definition format6f_xreal (x : xreal) : string :=
  match x with
  | Fin a => format6f_R a
  | NaN => "nan"
  end.

#[export] Instance XR_scalar : Scalar xreal := {
  zero := Fin 0;
  one := Fin 1;
  add := xlift2 Rplus;
  sub := xlift2 Rminus;
  mul := xlift2 Rmult;
  div := xdiv;
  ssqrt := xsqrt;
  smax := xlift2 Rmax;
  gtb := xgtb;
  of_Z := fun z => Fin (IZR z);
  format6f := format6f_xreal
}.

(** *** A random source for examples

    The generator state is a counter; the permutation of [0, n) it yields
    is the rotation by the counter. *)
Definition rotation (n k : nat) : list nat :=
  skipn (k mod n) (seq 0 n) ++ firstn (k mod n) (seq 0 n).

#[export] Instance counter_source : RandomSource nat := {
  manual_seed := fun s => Z.to_nat s;
  draw_seed := fun g => S g;
  randperm := fun n g => (rotation n g, S g)
}.

(** ** Predicates used in the statements *)

(** Every batch of the pass has [n] indices, except the last one, which
    has between 1 and [n]. *)
Inductive full_but_last (n : nat) : list (list nat) -> Prop :=
| fbl_nil : full_but_last n []
| fbl_last (b : list nat) : 0 < length b <= n -> full_but_last n [b]
| fbl_cons (b b' : list nat) (bl : list (list nat)) :
    length b = n -> full_but_last n (b' :: bl) ->
    full_but_last n (b :: b' :: bl).

Section Statements.
Context {A : Type} {SA : Scalar A} {G : Type} {RS : RandomSource G}.

(** [mean((output - target)^2)] over the N * 784 elements of a batch of
    N samples. *)
Definition mean_squared_error (output target : matrix A) : A :=
  div (vsum (map2 (fun o t => mul (sub o t) (sub o t))
                  (concat output) (concat target)))
      (of_Z (Z.of_nat (length target * 784))).

(** A dataset whose samples have all their pixel values at zero. *)
Definition all_zero_dataset (ds : dataset A) : Prop :=
  Forall (fun s => Forall (fun v => v = zero) (flatten_image (fst s))) ds.

(** A training state in which the parameters and both moment estimates
    are all zero. *)
Definition zero_state (nb : Notebook A G) : Prop :=
  model nb = zeros_AE 784 /\
  exp_avg (optimizer nb) = zeros_AE 784 /\
  exp_avg_sq (optimizer nb) = zeros_AE 784.

(** The shapes the training state keeps: the parameters and both moment
    estimates of the optimizer have the shapes of [AE(input_shape=784)]. *)
Definition train_inv (nb : Notebook A G) : Prop :=
  AE_wf 784 (model nb) /\
  AE_wf 784 (exp_avg (optimizer nb)) /\
  AE_wf 784 (exp_avg_sq (optimizer nb)).

(** A batch the loop can process: its indices are indices of the
    dataset, and it is not empty. *)
Definition valid_batch (ds : dataset A) (indices : list nat) : Prop :=
  Forall (fun i => i < length ds) indices /\ 0 < length indices.

(** One pass over the batches of an epoch, batch by batch: the batch is
    fetched and reshaped to (N, 784), the model is run on it, the loss
    is the mean squared error between output and batch, and the state
    moves on by one backward pass and one optimizer step.  The list
    holds the losses of the batches in order. *)
Inductive epoch_run (ds : dataset A)
  : Notebook A G -> list (list nat) -> list A -> Notebook A G -> Prop :=
| run_done (nb : Notebook A G) : epoch_run ds nb [] [] nb
| run_batch (nb nb1 nb2 : Notebook A G) (indices : list nat)
    (rest : list (list nat)) (imgs : list (image A)) (labels : list nat)
    (x outputs : matrix A) (losses : list A) :
    fetch ds indices = Ok (imgs, labels) ->
    view 784 imgs = Ok x ->
    mshape (length indices) 784 x ->
    forward (model nb) x = Ok outputs ->
    optimizer_step (loss_backward (zero_grad nb) x) = Ok nb1 ->
    epoch_run ds nb1 rest losses nb2 ->
    epoch_run ds nb (indices :: rest)
              (mean_squared_error outputs x :: losses) nb2.

(** The epochs of a training run, the batch orderings they draw and the
    lines they print: every epoch draws the batches of one pass of the
    loader, runs them, and prints the sum of the batch losses divided by
    the number of batches. *)
Inductive training_run (epochs : nat) (loader : DataLoader A)
  : Notebook A G -> list nat -> list (list (list nat)) -> list string ->
    Notebook A G -> Prop :=
| training_done (nb : Notebook A G) :
    training_run epochs loader nb [] [] [] nb
| training_epoch (nb nb1 nb2 : Notebook A G) (epoch : nat)
    (range : list nat) (batches : list (list nat)) (g : G)
    (losses : list A) (line : string)
    (orders : list (list (list nat))) (lines : list string) :
    DataLoader_iter loader (rng nb) = (batches, g) ->
    epoch_run (dl_dataset loader) (with_rng nb g) batches losses nb1 ->
    line = ("epoch : " ++ string_of_nat (epoch + 1) ++ "/"
            ++ string_of_nat epochs ++ ", loss = "
            ++ format6f (div (vsum losses)
                             (of_Z (Z.of_nat (length batches)))))%string ->
    training_run epochs loader (print nb1 line) range orders lines nb2 ->
    training_run epochs loader nb (epoch :: range) (batches :: orders)
                 (line :: lines) nb2.

(** The batch orderings of [n] consecutive passes of a loader, from the
    state [g] of the global generator. *)
Fixpoint pass_orders (loader : DataLoader A) (g : G) (n : nat)
  : list (list (list nat)) :=
  match n with
  | O => []
  | S n' =>
      let (batches, g') := DataLoader_iter loader g in
      batches :: pass_orders loader g' n'
  end.

(** The state of the global generator after [n] passes. *)
Fixpoint pass_rng (loader : DataLoader A) (g : G) (n : nat) : G :=
  match n with
  | O => g
  | S n' => pass_rng loader (snd (DataLoader_iter loader g)) n'
  end.

(** Two states of the notebook with the same generator state, the same
    parameters and the same optimizer state. *)
Definition same_core (nb1 nb2 : Notebook A G) : Prop :=
  rng nb1 = rng nb2 /\ model nb1 = model nb2 /\
  optimizer nb1 = optimizer nb2.

End Statements.

(** The hyperparameters [optim.Adam] accepts, with positive learning
    rate and epsilon. *)
Definition hyper_ok (hp : AdamHyper R) : Prop :=
  (0 < lr hp /\ 0 <= beta1 hp < 1 /\ 0 <= beta2 hp < 1 /\ 0 < eps hp)%R.

(** Storing a real number in a number format: [F] holds of the values
    the format represents, and [rnd x] is one of them, nearest to [x];
    rounding keeps the order.  Rounding to nearest of IEEE 754, with
    either rule for ties, is of this kind as long as nothing
    overflows. *)
Definition rounds_to_nearest (F : R -> Prop) (rnd : R -> R) : Prop :=
  (forall x : R, F (rnd x)) /\
  (forall x y : R, F y -> (Rabs (rnd x - x) <= Rabs (y - x))%R) /\
  (forall x y : R, (x <= y)%R -> (rnd x <= rnd y)%R).

(** ** Cell 19: the figure of examples and reconstructions

    The cell runs after cell 18 and reads [test_examples] and
    [reconstruction]; it draws on a grid of 2 x [number] axes and changes
    nothing in the state of the notebook.  Of matplotlib, an Axes is its
    position in the grid, the image drawn on it, the colormap being gray
    and the visibility of its two axis lines. *)

(** What the cell can raise: an exception of the kinds above, or one of
    two that arise only here. *)
Inductive raised : Type :=
| Raised (e : exn)
| TypeError        (* subscripting [None] *)
| NameError.       (* reading a name that was never bound *)

Record Axes (A : Type) : Type := mkAxes {
  ax_position : nat;               (* counted from 1, along the rows *)
  ax_image : option (matrix A);    (* the array [imshow] was given *)
  ax_gray : bool;
  xaxis_visible : bool;
  yaxis_visible : bool
}.

Definition bind_raised {T U : Type} (r : raised + T) (k : T -> raised + U)
  : raised + U :=
  match r with
  | inr t => k t
  | inl e => inl e
  end.

Declare Scope raised_scope.
Delimit Scope raised_scope with raised.
Notation "x <- r ;; k" := (bind_raised r (fun x => k))
  (at level 100, r at next level, right associativity) : raised_scope.

Section Plotting.
Context {A : Type} {G : Type}.

(** [plt.subplot(nrows, ncols, index)]: new Axes at position [index];
    matplotlib raises a ValueError unless
    [1 <= index <= nrows * ncols]. *)
Definition subplot (nrows ncols index : nat) : raised + Axes A :=
  if (1 <=? index) && (index <=? nrows * ncols)
  then inr (mkAxes index None false true true)
  else inl (Raised ValueError).

(** [tensor[index]] on the first dimension. *)
Definition tensor_getitem (tensor : matrix A) (index : nat)
  : raised + vec A :=
  match nth_error tensor index with
  | Some row => inr row
  | None => inl (Raised IndexError)
  end.

(** [array.reshape(r, c)]: numpy raises a ValueError when the array does
    not have [r * c] elements. *)
Definition reshape (r c : nat) (array : vec A) : raised + matrix A :=
  if length array =? r * c then inr (chunks c r array)
  else inl (Raised ValueError).

Definition imshow (ax : Axes A) (img : matrix A) : Axes A :=
  mkAxes (ax_position ax) (Some img) (ax_gray ax)
         (xaxis_visible ax) (yaxis_visible ax).

(** [plt.gray()]. *)
Definition gray (ax : Axes A) : Axes A :=
  mkAxes (ax_position ax) (ax_image ax) true
         (xaxis_visible ax) (yaxis_visible ax).

(** [ax.get_xaxis().set_visible(False)] and
    [ax.get_yaxis().set_visible(False)]. *)
Definition hide_axis_lines (ax : Axes A) : Axes A :=
  mkAxes (ax_position ax) (ax_image ax) (ax_gray ax) false false.

(** Reading [test_examples], which cell 18 has bound, to [None] when the
    test loader yielded no batch; the subscript of [None] is a
    TypeError. *)
Definition read_test_examples (nb : Notebook A G) : raised + matrix A :=
  match test_examples nb with
  | Some tensor => inr tensor
  | None => inl TypeError
  end.

(** Reading [reconstruction], which is bound only once the loop body of
    cell 18 has run. *)
Definition read_reconstruction (nb : Notebook A G) : raised + matrix A :=
  match reconstruction nb with
  | Some tensor => inr tensor
  | None => inl NameError
  end.

(** One panel: the subplot, then [tensor[index].numpy().reshape(28, 28)]
    shown in gray without axis lines. *)
Definition panel (tensor : raised + matrix A) (number index position : nat)
  : raised + Axes A :=
  (ax <- subplot 2 number position ;;
   tensor <- tensor ;;
   row <- tensor_getitem tensor index ;;
   img <- reshape 28 28 row ;;
   inr (hide_axis_lines (gray (imshow ax img))))%raised.

(** [for index in range(number): ...]: the original above, its
    reconstruction below. *)
Fixpoint plot_examples (nb : Notebook A G) (number : nat)
    (figure : list (Axes A)) (range : list nat) : raised + list (Axes A) :=
  match range with
  | [] => inr figure
  | index :: rest =>
      (original <- panel (read_test_examples nb) number index (index + 1) ;;
       reconstructed <- panel (read_reconstruction nb) number index
                              (index + 1 + number) ;;
       plot_examples nb number (figure ++ [original; reconstructed]) rest
      )%raised
  end.

(** Cell 19: the figure [plt.show()] displays. *)
Definition cell19 (nb : Notebook A G) : raised + list (Axes A) :=
  let number := 10 in
  plot_examples nb number [] (seq 0 number).

(** Cells 18 and 19 run one after the other. *)
Definition cell18_cell19 {SA : Scalar A} {RS : RandomSource G}
    (test_dataset : dataset A) (nb : Notebook A G)
  : raised + list (Axes A) :=
  match cell18 test_dataset nb with
  | Ok nb' => cell19 nb'
  | Raise e => inl (Raised e)
  end.

End Plotting.

(** * The guessing game [game/app.js]

    The script keeps the number to guess and the guesses made so far,
    and writes to five elements of the page.  The page is a record of
    these: of an element, the property the script writes ([innerHTML],
    [innerText] or [value]), which reads back as it was written.  The
    script runs [init()] when it is loaded; [submit] is the handler of
    the button.

    A JavaScript number is an integer, an infinity or NaN here:
    [parseInt] returns no other, and the comparisons and [includes]
    treat NaN as JavaScript does.  [Math.random()] is a real number of
    [0, 1) handed to the functions that draw it, and [parseInt], which
    is the host's, is a parameter. *)

Module Game.

Inductive number : Type :=
| Num (z : Z)
| Infinity (negative : bool)
| NaN.

(** [a < b] and [a > b] on numbers: false when either side is NaN. *)
Definition lt (a b : number) : bool :=
  match a, b with
  | Num x, Num y => (x <? y)%Z
  | Num _, Infinity negative => negb negative
  | Infinity negative, Num _ => negative
  | Infinity n1, Infinity n2 => n1 && negb n2
  | _, _ => false
  end.

Definition gt (a b : number) : bool := lt b a.

(** SameValueZero, the equality of [Array.prototype.includes]: NaN is
    found in an array that holds NaN. *)
Definition same_value_zero (a b : number) : bool :=
  match a, b with
  | Num x, Num y => (x =? y)%Z
  | Infinity n1, Infinity n2 => Bool.eqb n1 n2
  | NaN, NaN => true
  | _, _ => false
  end.

Definition includes (array : list number) (x : number) : bool :=
  existsb (fun y => same_value_zero y x) array.

Definition string_of_Z (z : Z) : string :=
  NilZero.string_of_int (Z.to_int z).

(** The string of a number, as [join] and a template literal make it;
    an integer is written in decimal (below 10^21 in absolute value). *)
Definition to_string (x : number) : string :=
  match x with
  | Num z => string_of_Z z
  | Infinity false => "Infinity"
  | Infinity true => "-Infinity"
  | NaN => "NaN"
  end.

(** [array.join(separator)]. *)
Definition join (array : list number) (separator : string) : string :=
  String.concat separator (map to_string array).

Record Page : Type := mkPage {
  num : Z;                      (* the number to guess *)
  prevGuesses : list number;
  resultText : string;          (* resultText.innerHTML *)
  numInput : string;            (* numInput.value *)
  submitBtn : string;           (* submitBtn.innerText *)
  guessCount : string;          (* guessCount.innerHTML *)
  guessList : string            (* guessList.innerHTML *)
}.

Definition min : Z := 1.
Definition max : Z := 100.
Definition playAgain : string := "Play Again".
Definition allowedNumGuesses : Z := 10.

(** [Math.floor(Math.random() * (max - min + 1)) + min], with [random]
    the value of [Math.random()]. *)
Definition getRandomInteger (random : R) (min max : Z) : Z :=
  (Int_part (random * IZR (max - min + 1)) + min)%Z.

(** [init()]; the input box is not touched. *)
Definition init (random : R) (page : Page) : Page :=
  mkPage (getRandomInteger random min max)
         []
         "(Result will appear here)"
         (numInput page)
         "Submit"
         ("(" ++ string_of_Z allowedNumGuesses ++ " left)")
         "(None)".

(** The user enters [value] in the input box. *)
Definition enter (value : string) (page : Page) : Page :=
  mkPage (num page) (prevGuesses page) (resultText page) value
         (submitBtn page) (guessCount page) (guessList page).

(** The two early returns of [submit]: a message, and the input box
    emptied. *)
Definition reject (page : Page) (text : string) : Page :=
  mkPage (num page) (prevGuesses page) text ""
         (submitBtn page) (guessCount page) (guessList page).

Section Submit.
Variable parseInt : string -> number.

(** [submit()]; [random] is drawn only when the game starts over. *)
Definition submit (random : R) (page : Page) : Page :=
  if (submitBtn page =? playAgain)%string then init random page
  else
    let guess := parseInt (numInput page) in
    let text := "Your number is "%string in
    if includes (prevGuesses page) guess then
      let text := "You've already guessed that number!"%string in
      reject page text
    else if lt guess (Num min) || gt guess (Num max) then
      let text := ("Your guess must be more than " ++ to_string (Num min)
                   ++ " and less than " ++ to_string (Num max) ++ ".")%string
      in
      reject page text
    else
      let (text, button) :=
        if lt guess (Num (num page)) then
          ((text ++ "too low.")%string, submitBtn page)
        else if gt guess (Num (num page)) then
          ((text ++ "too high.")%string, submitBtn page)
        else ("You win!"%string, playAgain) in
      let prevGuesses := prevGuesses page ++ [guess] in
      let numGuessesRemaining :=
        (allowedNumGuesses - Z.of_nat (length prevGuesses))%Z in
      mkPage (num page) prevGuesses text "" button
             ("(" ++ string_of_Z numGuessesRemaining ++ " left)")
             (join prevGuesses ", ").

(** The pages a session can show: the script has run [init()], and the
    user has entered a text and pressed the button any number of
    times. *)
Inductive reachable : Page -> Prop :=
| reach_init (random : R) (page : Page) :
    (0 <= random < 1)%R -> reachable (init random page)
| reach_submit (random : R) (value : string) (page : Page) :
    (0 <= random < 1)%R -> reachable page ->
    reachable (submit random (enter value page)).

End Submit.

(** A guess that counts: an integer within the bounds. *)
Definition in_bounds (guess : number) : Prop :=
  exists z : Z, guess = Num z /\ (min <= z <= max)%Z.

(** What every page of a session satisfies. *)
Definition consistent (page : Page) : Prop :=
  (min <= num page <= max)%Z /\
  NoDup (prevGuesses page) /\
  guessCount page =
    ("(" ++ string_of_Z (allowedNumGuesses
                         - Z.of_nat (length (prevGuesses page)))
     ++ " left)")%string /\
  guessList page =
    match prevGuesses page with
    | [] => "(None)"%string
    | _ => join (prevGuesses page) ", "
    end /\
  (resultText page = "You win!"%string <-> submitBtn page = playAgain) /\
  ((submitBtn page = "Submit"%string /\
    Forall (fun guess => in_bounds guess /\ guess <> Num (num page))
           (prevGuesses page)) \/
   (submitBtn page = playAgain /\
    exists (earlier : list number) (guess : number),
      prevGuesses page = earlier ++ [guess] /\
      Forall (fun guess => in_bounds guess /\ guess <> Num (num page))
             earlier /\
      (guess = Num (num page) \/ guess = NaN))).

(** A stand-in for [parseInt] in examples: it reads a decimal numeral
    with an optional minus sign as [parseInt] does, and gives NaN for
    the empty string, as [parseInt] does, and for every other string. *)
Definition parse_decimal (s : string) : number :=
  match NilZero.int_of_string s with
  | Some i => Num (Z.of_int i)
  | None => NaN
  end.

End Game.

(** * Properties *)

Unset Implicit Arguments.

(** ** The definitions on small inputs *)

Example BatchSampler_7_by_3 :
  BatchSampler 3 (seq 0 7) = [[0; 1; 2]; [3; 4; 5]; [6]].
Proof. reflexivity. Qed.

Example BatchSampler_6_by_3 :
  BatchSampler 3 (seq 0 6) = [[0; 1; 2]; [3; 4; 5]].
Proof. reflexivity. Qed.

Example DataLoader_len_7_by_3 :
  DataLoader_len (mkDataLoader (repeat ([] : image nat, 0) 7) 3 false) = 3.
Proof. reflexivity. Qed.

Example DataLoader_new_zero :
  DataLoader_new ([] : dataset nat) 0 true = Raise ValueError.
Proof. reflexivity. Qed.

Example view_two_images :
  view 2 [[[[1; 2]; [3; 4]]]; [[[5; 6]; [7; 8]]]]
  = Ok [[1; 2]; [3; 4]; [5; 6]; [7; 8]].
Proof. reflexivity. Qed.

Example view_not_a_multiple :
  view 2 [[[[1; 2; 3]]]] = Raise RuntimeError.
Proof. reflexivity. Qed.

Example fetch_out_of_range :
  fetch [([[[1]]], 7)] [0; 1] = Raise IndexError.
Proof. reflexivity. Qed.

Example Linear_call_affine :
  Linear_call (mkLinear 2 1 [[1; 2]] [3])%R [[10; 20]]%R = Ok [[53%R]].
Proof.
  unfold Linear_call, linear_out, vadd, dot, vsum. simpl.
  do 3 f_equal. lra.
Qed.

Example Linear_call_wrong_width :
  Linear_call (mkLinear 2 1 [[1; 2]] [3])%R [[10; 20; 30]]%R
  = Raise RuntimeError.
Proof. reflexivity. Qed.

Example relu_clamps :
  relu [[-2; 3]]%R = [[0; 3]]%R.
Proof.
  unfold relu, relu1. simpl.
  rewrite Rmax_right by lra. rewrite Rmax_left by lra. reflexivity.
Qed.

Example criterion_mean_over_all_elements :
  criterion [[1; 2]; [3; 4]]%R [[0; 0]; [0; 0]]%R = (30 / 4)%R.
Proof. unfold criterion, vsum, numel. simpl. lra. Qed.

Example relu_propagates_nan :
  relu [[NaN; Fin 1]] = [[NaN; Fin (Rmax 1 0)]].
Proof. reflexivity. Qed.

(** A shuffling loader cannot be built over a dataset without samples:
    on an empty training set the training cell stops at the loader. *)
Example train_loader_empty_dataset :
  train_loader ([] : dataset R) = Raise ValueError.
Proof. reflexivity. Qed.

Example cell16_empty_dataset (nb : Notebook R nat) :
  cell16 [] nb = Raise ValueError.
Proof. reflexivity. Qed.

(** A loader that does not shuffle can: its pass has no batch. *)
Example test_loader_empty_dataset :
  test_loader ([] : dataset R) = Ok (mkDataLoader [] 10 false).
Proof. reflexivity. Qed.

Lemma batch_sampler_concat (n : nat) (indices batch : list nat) :
  concat (batch_sampler_from n batch indices) = batch ++ indices.
Proof.
  revert batch.
  induction indices as [|idx rest IH]; intros batch; simpl.
  - destruct (0 <? length batch) eqn:E; simpl.
    + now rewrite app_nil_r.
    + apply Nat.ltb_ge in E. destruct batch; simpl in *; [reflexivity|lia].
  - destruct (length (batch ++ [idx]) =? n); simpl; rewrite IH.
    + now rewrite <- app_assoc.
    + now rewrite <- app_assoc.
Qed.

Lemma full_but_last_cons (n : nat) (b : list nat) (bl : list (list nat)) :
  length b = n -> 0 < n -> full_but_last n bl -> full_but_last n (b :: bl).
Proof.
  intros Hb Hn H. destruct bl as [|b' bl].
  - apply fbl_last. lia.
  - now apply fbl_cons.
Qed.

Lemma batch_sampler_full (n : nat) (indices batch : list nat) :
  0 < n -> length batch < n ->
  full_but_last n (batch_sampler_from n batch indices).
Proof.
  intros Hn. revert batch.
  induction indices as [|idx rest IH]; intros batch Hb; simpl.
  - destruct (0 <? length batch) eqn:E.
    + apply Nat.ltb_lt in E. apply fbl_last. lia.
    + apply fbl_nil.
  - destruct (length (batch ++ [idx]) =? n) eqn:E.
    + apply Nat.eqb_eq in E. apply full_but_last_cons; [exact E | exact Hn | apply IH; simpl; lia].
    + apply Nat.eqb_neq in E. apply IH.
      rewrite length_app in *. simpl in *. lia.
Qed.

(** The shape of a pass in terms of positions. *)
Lemma full_but_last_nth (n : nat) (bl : list (list nat)) :
  full_but_last n bl ->
  forall k, S k < length bl -> length (nth k bl []) = n.
Proof.
  induction 1 as [|b Hb|b b' bl Hb H IH]; intros k Hk; simpl in *.
  - lia.
  - lia.
  - destruct k as [|k]; [exact Hb|]. apply IH. simpl. lia.
Qed.

Lemma full_but_last_total (n : nat) (bl : list (list nat)) :
  full_but_last n bl -> bl <> [] ->
  0 < length (last bl []) <= n /\
  length (concat bl) = n * (length bl - 1) + length (last bl []).
Proof.
  induction 1 as [|b Hb|b b' bl Hb H IH]; intros Hne.
  - congruence.
  - simpl. rewrite app_nil_r. lia.
  - destruct IH as [IH1 IH2]; [discriminate|].
    change (last (b :: b' :: bl) []) with (last (b' :: bl) []).
    split; [exact IH1|].
    change (concat (b :: b' :: bl)) with (b ++ concat (b' :: bl)).
    rewrite length_app, IH2. simpl length. nia.
Qed.

Lemma last_short_iff (n q l s : nat) :
  0 < l <= n -> s = n * q + l -> (l < n <-> s mod n <> 0).
Proof.
  intros Hl ->. split.
  - intros Hlt. rewrite Nat.add_comm, Nat.mul_comm, Nat.Div0.mod_add.
    rewrite Nat.mod_small; lia.
  - intros Hm. destruct (Nat.eq_dec l n) as [->|]; [|lia].
    exfalso. apply Hm.
    replace (n * q + n) with (0 + (q + 1) * n) by lia.
    rewrite Nat.Div0.mod_add. apply Nat.Div0.mod_0_l.
Qed.

Lemma batch_sampler_count (n : nat) (indices : list nat) :
  0 < n ->
  length (BatchSampler n indices) = (length indices + n - 1) / n.
Proof.
  intros Hn.
  pose proof (batch_sampler_full n indices [] Hn Hn) as F.
  pose proof (batch_sampler_concat n indices []) as C.
  fold (BatchSampler n indices) in F, C. simpl in C.
  destruct (BatchSampler n indices) as [|b bl] eqn:E.
  - simpl in C. subst indices. simpl.
    symmetry. apply Nat.div_small. lia.
  - destruct (full_but_last_total _ _ F) as [[L1 L2] T]; [discriminate|].
    rewrite C in T. rewrite T.
    set (l := length (last (b :: bl) [])) in *.
    set (m := length (b :: bl)) in *.
    assert (Hm : 0 < m) by (unfold m; simpl; lia).
    replace (n * (m - 1) + l + n - 1) with ((l - 1) + m * n) by nia.
    rewrite Nat.div_add by lia.
    rewrite Nat.div_small; lia.
Qed.

Lemma NoDup_app_disjoint (b c : list nat) (x : nat) :
  NoDup (b ++ c) -> In x b -> In x c -> False.
Proof.
  induction b as [|a b IH]; simpl; intros ND Hb Hc.
  - exact Hb.
  - inversion ND as [|? ? Hn ND']; subst.
    destruct Hb as [->|Hb].
    + apply Hn. apply in_or_app. now right.
    + now apply IH.
Qed.

Lemma NoDup_concat_unique (l : list (list nat)) (x k k' : nat) :
  NoDup (concat l) ->
  k < length l -> k' < length l ->
  In x (nth k l []) -> In x (nth k' l []) -> k = k'.
Proof.
  revert k k'.
  induction l as [|b l IH]; intros k k' ND Hk Hk' Hx Hx'; simpl in *.
  - lia.
  - apply NoDup_app_remove_l in ND as ND'.
    assert (Hsep : forall j, j < length l -> In x b ->
                             In x (nth j l []) -> False).
    { intros j Hj Hb Hj'.
      apply (NoDup_app_disjoint _ _ _ ND Hb).
      apply in_concat. exists (nth j l []). split; auto.
      apply nth_In; auto. }
    destruct k as [|k], k' as [|k']; auto.
    + exfalso. apply (Hsep k'); auto. lia.
    + exfalso. apply (Hsep k); auto. lia.
    + f_equal. apply IH; auto; lia.
Qed.

Lemma rotation_permutes (n k : nat) : Permutation (rotation n k) (seq 0 n).
Proof.
  unfold rotation.
  rewrite Permutation_app_comm. now rewrite firstn_skipn.
Qed.

Lemma counter_source_permutes : randperm_permutes counter_source.
Proof. intros n g. apply rotation_permutes. Qed.

Lemma In_nth_concat (l : list (list nat)) (x : nat) :
  In x (concat l) -> exists k, k < length l /\ In x (nth k l []).
Proof.
  intros H. apply in_concat in H as [b [Hb Hx]].
  destruct (In_nth _ _ [] Hb) as [k [Hk E]].
  exists k. split; [exact Hk|]. now rewrite E.
Qed.

(** C6.  For every dataset of size S and every positive batch size for
    which the loader can be built (a shuffling loader needs at least one
    sample), one pass of the loader, shuffled or not, yields index
    batches that cover [0, S) exactly once: every index occurs once in
    all, in exactly one batch.  Every batch but the last has exactly [n]
    indices; the last has between 1 and [n], and fewer than [n] if and
    only if S is not a multiple of [n].  The number of batches is
    [len(loader)]. *)
Theorem batch_sampler_covers_once :
  forall (A G : Type) (RS : RandomSource G) (ds : dataset A) (n : nat)
         (shuffle : bool) (g : G),
    randperm_permutes RS -> 0 < n ->
    (shuffle = true -> 0 < length ds) ->
    exists dl : DataLoader A,
      DataLoader_new ds n shuffle = Ok dl /\
      let batches := fst (DataLoader_iter dl g) in
      let size := length ds in
      Permutation (concat batches) (seq 0 size) /\
      (forall i, i < size ->
         count_occ Nat.eq_dec (concat batches) i = 1 /\
         exists k, k < length batches /\ In i (nth k batches []) /\
           forall k', k' < length batches -> In i (nth k' batches []) ->
                      k' = k) /\
      (forall k, S k < length batches -> length (nth k batches []) = n) /\
      (batches <> [] ->
         0 < length (last batches []) <= n /\
         (length (last batches []) < n <-> size mod n <> 0)) /\
      length batches = DataLoader_len dl.
Proof.
  intros A G RS ds n shuffle g HP Hn Hne.
  exists (mkDataLoader ds n shuffle). split.
  { unfold DataLoader_new.
    assert (E : shuffle && (length ds =? 0) = false).
    { destruct shuffle; [|reflexivity].
      specialize (Hne eq_refl). cbn [andb].
      destruct (Nat.eqb_spec (length ds) 0); [lia | reflexivity]. }
    rewrite E. destruct (Nat.eqb_spec n 0); [lia|reflexivity]. }
  clear Hne.
  unfold DataLoader_iter, DataLoader_len. simpl dl_dataset. simpl dl_batch_size.
  destruct (sampler (mkDataLoader ds n shuffle) (draw_seed g))
    as [indices g'] eqn:Es.
  assert (HI : Permutation indices (seq 0 (length ds))).
  { unfold sampler in Es. simpl in Es. destruct shuffle.
    - specialize (HP (length ds) (draw_seed g)). rewrite Es in HP. exact HP.
    - injection Es as <- _. apply Permutation_refl. }
  cbv zeta. simpl fst.
  pose proof (batch_sampler_concat n indices []) as C.
  pose proof (batch_sampler_full n indices [] Hn Hn) as F.
  fold (BatchSampler n indices) in C, F. simpl in C.
  assert (ND : NoDup (concat (BatchSampler n indices))).
  { rewrite C. apply (Permutation_NoDup (Permutation_sym HI)), seq_NoDup. }
  assert (HL : length indices = length ds).
  { rewrite (Permutation_length HI). apply length_seq. }
  split; [now rewrite C|].
  split.
  { intros i Hi.
    assert (Hin : In i (concat (BatchSampler n indices))).
    { rewrite C. apply (Permutation_in _ (Permutation_sym HI)).
      apply in_seq. lia. }
    split.
    - now apply NoDup_count_occ'.
    - destruct (In_nth_concat _ _ Hin) as [k [Hk Hx]].
      exists k. split; [exact Hk|]. split; [exact Hx|].
      intros k' Hk' Hx'.
      exact (NoDup_concat_unique _ _ _ _ ND Hk' Hk Hx' Hx). }
  split; [now apply full_but_last_nth|].
  split.
  { intros Hne. destruct (full_but_last_total _ _ F Hne) as [HB T].
    split; [exact HB|].
    rewrite C, HL in T. exact (last_short_iff _ _ _ _ HB T). }
  rewrite <- HL. now apply batch_sampler_count.
Qed.

(** Five samples in shuffled batches of two. *)
Lemma batch_sampler_covers_once_witness :
  exists dl : DataLoader R,
    DataLoader_new (repeat ([[[0%R]]], 7) 5) 2 true = Ok dl /\
    Permutation (concat (fst (DataLoader_iter dl 3))) (seq 0 5).
Proof.
  destruct (@batch_sampler_covers_once R nat counter_source
              (repeat ([[[0%R]]], 7) 5) 2 true 3
              counter_source_permutes ltac:(lia)
              ltac:(intros _; simpl; lia)) as [dl [E [P _]]].
  exists dl. split; [exact E | exact P].
Defined.

(** ** Shapes *)

Lemma map2_length {X Y Z : Type} (f : X -> Y -> Z) (xs : list X)
    (ys : list Y) :
  length (map2 f xs ys) = Nat.min (length xs) (length ys).
Proof.
  revert ys. induction xs as [|x xs IH]; intros [|y ys]; simpl; auto.
Qed.

Lemma mshapeb_spec {A : Type} (r c : nat) (m : matrix A) :
  mshapeb r c m = true <-> mshape r c m.
Proof.
  unfold mshapeb, mshape.
  rewrite andb_true_iff, Nat.eqb_eq, forallb_forall, Forall_forall.
  split; intros [H1 H2]; split; auto; intros x Hx.
  - apply Nat.eqb_eq. auto.
  - apply Nat.eqb_eq. auto.
Qed.

Lemma Linear_wfb_spec {A : Type} (i o : nat) (l : Linear A) :
  Linear_wfb i o l = true <-> Linear_wf i o l.
Proof.
  unfold Linear_wfb, Linear_wf.
  rewrite !andb_true_iff, !Nat.eqb_eq, mshapeb_spec. tauto.
Qed.

Lemma AE_wfb_spec {A : Type} (n : nat) (ae : AE A) :
  AE_wfb n ae = true <-> AE_wf n ae.
Proof.
  unfold AE_wfb, AE_wf.
  rewrite !andb_true_iff, !Linear_wfb_spec. tauto.
Qed.

Lemma mshape_rows_forallb {A : Type} (r c : nat) (m : matrix A) :
  mshape r c m -> forallb (fun row => length row =? c) m = true.
Proof.
  intros [_ H]. apply forallb_forall. intros x Hx.
  apply Nat.eqb_eq. rewrite Forall_forall in H. auto.
Qed.

Section ModelShapes.
Context {A : Type} {SA : Scalar A}.

Lemma relu_shape (r c : nat) (m : matrix A) :
  mshape r c m -> mshape r c (relu m).
Proof.
  intros [H1 H2]. split.
  - unfold relu. now rewrite length_map.
  - unfold relu. apply Forall_map.
    eapply Forall_impl; [|exact H2]. intros row Hr. simpl.
    now rewrite length_map.
Qed.

Lemma linear_out_shape (i o n : nat) (l : Linear A) (x : matrix A) :
  Linear_wf i o l -> length x = n -> mshape n o (linear_out l x).
Proof.
  intros (_ & _ & [Hw _] & Hb) Hx. split.
  - unfold linear_out. now rewrite length_map.
  - unfold linear_out. apply Forall_map, Forall_forall. intros row _.
    unfold vadd. rewrite map2_length, length_map, Hw, Hb. apply Nat.min_id.
Qed.

Lemma Linear_call_ok (i o n : nat) (l : Linear A) (x : matrix A) :
  Linear_wf i o l -> mshape n i x ->
  Linear_call l x = Ok (linear_out l x).
Proof.
  intros Hl Hx. unfold Linear_call.
  destruct Hl as (Hi & _). rewrite Hi.
  now rewrite (mshape_rows_forallb _ _ _ Hx).
Qed.


Lemma ncols_shape (r c : nat) (m : matrix A) :
  mshape r c m -> 0 < r -> ncols m = c.
Proof.
  intros [H1 H2] Hr. destruct m as [|row m]; simpl in *; [lia|].
  now inversion H2.
Qed.

Lemma transpose_shape (r c : nat) (m : matrix A) :
  mshape r c m -> 0 < r -> mshape c r (transpose m).
Proof.
  intros H Hr. pose proof (ncols_shape _ _ _ H Hr) as Hc.
  destruct H as [H1 H2]. unfold transpose. rewrite Hc. split.
  - now rewrite length_map, length_seq.
  - apply Forall_map, Forall_forall. intros j _.
    unfold col. now rewrite length_map.
Qed.



End ModelShapes.

Section ForwardFormula.
Context {A : Type} {SA : Scalar A}.

Lemma forward_layers (input n : nat) (ae : AE A) (x : matrix A) :
  AE_wf input ae -> mshape n input x ->
  forward ae x = Ok (layer4 ae x) /\
  mshape n 128 (layer1 ae x) /\ mshape n 128 (layer2 ae x) /\
  mshape n 128 (layer3 ae x) /\ mshape n input (layer4 ae x).
Proof.
  intros (H1 & H2 & H3 & H4) Hx.
  assert (Hn : length x = n) by apply Hx.
  assert (S1 : mshape n 128 (layer1 ae x)).
  { apply relu_shape. now apply linear_out_shape with (i := input). }
  assert (S2 : mshape n 128 (layer2 ae x)).
  { apply relu_shape. apply linear_out_shape with (i := 128); auto.
    apply S1. }
  assert (S3 : mshape n 128 (layer3 ae x)).
  { apply relu_shape. apply linear_out_shape with (i := 128); auto.
    apply S2. }
  assert (S4 : mshape n input (layer4 ae x)).
  { apply relu_shape. apply linear_out_shape with (i := 128); auto.
    apply S3. }
  repeat split; try apply S1; try apply S2; try apply S3; try apply S4.
  unfold forward.
  rewrite (Linear_call_ok _ _ _ _ _ H1 Hx). simpl bind.
  fold (layer1 ae x).
  rewrite (Linear_call_ok _ _ _ _ _ H2 S1). simpl bind.
  fold (layer2 ae x).
  rewrite (Linear_call_ok _ _ _ _ _ H3 S2). simpl bind.
  fold (layer3 ae x).
  rewrite (Linear_call_ok _ _ _ _ _ H4 S3). simpl bind.
  reflexivity.
Qed.


End ForwardFormula.




Lemma repeat_mshape {A : Type} (x : A) (r c : nat) :
  mshape r c (repeat (repeat x c) r).
Proof.
  split.
  - apply repeat_length.
  - apply Forall_forall. intros row Hr.
    apply repeat_spec in Hr. subst row. apply repeat_length.
Qed.

Lemma const_Linear_wf {X : Type} (x : X) (i o : nat) :
  Linear_wf i o (const_Linear x i o).
Proof.
  unfold Linear_wf, const_Linear. simpl.
  repeat match goal with |- _ /\ _ => split end; auto.
  - apply repeat_mshape.
  - apply repeat_length.
Qed.

(** The model [AE(input_shape=n)] creates has the parameter shapes of
    [AE_wf n], whatever values its layers are initialised with. *)
Lemma AE_init_wf {X G : Type} (new_linear : nat -> nat -> G -> Linear X * G)
    (n : nat) (g : G) :
  (forall i o g', Linear_wf i o (fst (new_linear i o g'))) ->
  AE_wf n (fst (AE_init new_linear n g)).
Proof.
  intros H. unfold AE_init.
  pose proof (H n 128 g) as H1.
  destruct (new_linear n 128 g) as [l1 g1].
  pose proof (H 128 128 g1) as H2.
  destruct (new_linear 128 128 g1) as [l2 g2].
  pose proof (H 128 128 g2) as H3.
  destruct (new_linear 128 128 g2) as [l3 g3].
  pose proof (H 128 n g3) as H4.
  destruct (new_linear 128 n g3) as [l4 g4].
  unfold AE_wf. simpl in *. auto.
Qed.

Lemma const_AE_wf {X : Type} (x : X) (n : nat) : AE_wf n (const_AE x n).
Proof.
  unfold AE_wf, const_AE. simpl.
  repeat match goal with |- _ /\ _ => split end; apply const_Linear_wf.
Qed.

Lemma zeros_AE_wf {A : Type} {SA : Scalar A} (n : nat) :
  AE_wf n (zeros_AE (A:=A) n).
Proof. apply const_AE_wf. Qed.


(** ** Fetching and reshaping a batch *)

Lemma concat_length_uniform {X : Type} (c : nat) (rows : list (list X)) :
  Forall (fun row => length row = c) rows ->
  length (concat rows) = c * length rows.
Proof.
  induction 1 as [|row rows Hr H IH]; simpl.
  - lia.
  - rewrite length_app, IH, Hr. lia.
Qed.

Lemma image_shapeb_spec {A : Type} (im : image A) :
  image_shapeb im = true <-> image_shape im.
Proof.
  unfold image_shapeb, image_shape.
  rewrite andb_true_iff, mshapeb_spec, forallb_forall, Forall_forall.
  split; intros [H1 H2]; split; auto; intros ch Hc.
  - specialize (H2 ch Hc). rewrite forallb_forall in H2.
    apply Forall_forall. intros row Hr. apply Nat.eqb_eq. auto.
  - specialize (H2 ch Hc). rewrite Forall_forall in H2.
    apply forallb_forall. intros row Hr. apply Nat.eqb_eq. auto.
Qed.

Lemma dataset_wfb_spec {A : Type} (ds : dataset A) :
  dataset_wfb ds = true <-> dataset_wf ds.
Proof.
  unfold dataset_wfb, dataset_wf.
  rewrite forallb_forall, Forall_forall.
  split; intros H s Hs; apply image_shapeb_spec; auto.
Qed.

Section Batches.
Context {A : Type}.

Lemma flatten_image_length (im : image A) :
  image_shape im -> length (flatten_image im) = 784.
Proof.
  intros [[H1 H2] H3]. unfold flatten_image.
  destruct im as [|ch [|ch' im]]; simpl in H1; try discriminate.
  simpl. rewrite app_nil_r.
  inversion H2 as [|? ? Hch _]; subst.
  inversion H3 as [|? ? Hrows _]; subst.
  rewrite (concat_length_uniform 28 ch Hrows), Hch. reflexivity.
Qed.

Lemma chunks_concat (c : nat) (rows : matrix A) :
  Forall (fun row => length row = c) rows ->
  chunks c (length rows) (concat rows) = rows.
Proof.
  induction 1 as [|row rows Hr H IH]; simpl.
  - reflexivity.
  - rewrite firstn_app, skipn_app, Hr, Nat.sub_diag.
    rewrite <- Hr at 1. rewrite firstn_all.
    rewrite <- Hr at 2. rewrite skipn_all.
    simpl. rewrite app_nil_r, IH. reflexivity.
Qed.

Lemma view_rows (imgs : list (image A)) :
  Forall image_shape imgs ->
  view 784 imgs = Ok (map flatten_image imgs) /\
  mshape (length imgs) 784 (map flatten_image imgs).
Proof.
  intros H.
  assert (HF : Forall (fun row => length row = 784)
                      (map flatten_image imgs)).
  { apply Forall_map. eapply Forall_impl; [|exact H].
    intros im. apply flatten_image_length. }
  split.
  - unfold view. cbv zeta.
    rewrite (concat_length_uniform 784 _ HF), length_map.
    rewrite Nat.mul_comm, Nat.Div0.mod_mul, Nat.div_mul by lia.
    simpl Nat.eqb. cbv iota.
    rewrite <- (length_map flatten_image imgs) at 1.
    now rewrite chunks_concat.
  - split; [apply length_map | exact HF].
Qed.

Lemma mapM_getitem (ds : dataset A) (d : image A * nat)
    (indices : list nat) :
  Forall (fun i => i < length ds) indices ->
  mapM (getitem ds) indices = Ok (map (fun i => nth i ds d) indices).
Proof.
  induction 1 as [|i indices Hi H IH]; simpl.
  - reflexivity.
  - unfold getitem at 1.
    rewrite (nth_error_nth' ds d Hi). simpl. now rewrite IH.
Qed.

Lemma fetch_ok (ds : dataset A) (d : image A * nat) (indices : list nat) :
  Forall (fun i => i < length ds) indices ->
  fetch ds indices =
    Ok (map (fun i => fst (nth i ds d)) indices,
        map (fun i => snd (nth i ds d)) indices).
Proof.
  intros H. unfold fetch. rewrite (mapM_getitem ds d indices H). simpl.
  now rewrite !map_map.
Qed.

(** The rows of the batch drawn at [indices]: the flattened images of
    the samples, in the order of the indices. *)
Lemma batch_rows_ok (ds : dataset A) (d : image A * nat)
    (indices : list nat) :
  Forall (fun i => i < length ds) indices ->
  Forall (fun i => image_shape (fst (nth i ds d))) indices ->
  exists imgs labels,
    fetch ds indices = Ok (imgs, labels) /\
    view 784 imgs =
      Ok (map (fun i => flatten_image (fst (nth i ds d))) indices) /\
    mshape (length indices) 784
      (map (fun i => flatten_image (fst (nth i ds d))) indices).
Proof.
  intros Hi Hsh.
  exists (map (fun i => fst (nth i ds d)) indices),
         (map (fun i => snd (nth i ds d)) indices).
  split; [now apply fetch_ok|].
  assert (HI : Forall image_shape (map (fun i => fst (nth i ds d)) indices)).
  { apply Forall_map. exact Hsh. }
  destruct (view_rows _ HI) as [V S]. rewrite map_map in V, S.
  rewrite length_map in S. split; assumption.
Qed.

Lemma dataset_wf_nth (ds : dataset A) (d : image A * nat)
    (indices : list nat) :
  dataset_wf ds -> Forall (fun i => i < length ds) indices ->
  Forall (fun i => image_shape (fst (nth i ds d))) indices.
Proof.
  intros Hds Hi. eapply Forall_impl; [|exact Hi].
  intros i Hlt. simpl. unfold dataset_wf in Hds.
  rewrite Forall_forall in Hds. apply Hds, nth_In, Hlt.
Qed.

End Batches.

(** ** One pass of a loader *)

Lemma firstn_seq_min (n a s : nat) :
  firstn n (seq a s) = seq a (Nat.min n s).
Proof.
  revert a s. induction n as [|n IH]; intros a [|s]; simpl; auto.
  now rewrite IH.
Qed.

Lemma full_but_last_head (n : nat) (b : list nat) (bl : list (list nat)) :
  full_but_last n (b :: bl) -> b = firstn n (concat (b :: bl)).
Proof.
  intros H. inversion H as [|? Hb|? b' bl' Hb H']; subst; simpl.
  - rewrite app_nil_r. symmetry. apply firstn_all2. lia.
  - rewrite firstn_app, Nat.sub_diag, firstn_all. simpl.
    now rewrite app_nil_r.
Qed.

Section Pass.
Context {A : Type} {G : Type} {RS : RandomSource G}.

Lemma sampler_permutes (dl : DataLoader A) (g : G) :
  randperm_permutes RS ->
  Permutation (fst (sampler dl g)) (seq 0 (length (dl_dataset dl))).
Proof.
  intros HP. unfold sampler. destruct (dl_shuffle dl).
  - apply HP.
  - apply Permutation_refl.
Qed.

Lemma DataLoader_iter_pass (dl : DataLoader A) (g : G) :
  randperm_permutes RS -> 0 < dl_batch_size dl ->
  let batches := fst (DataLoader_iter dl g) in
  concat batches = fst (sampler dl (draw_seed g)) /\
  Permutation (concat batches) (seq 0 (length (dl_dataset dl))) /\
  full_but_last (dl_batch_size dl) batches /\
  length batches = DataLoader_len dl.
Proof.
  intros HP Hn. unfold DataLoader_iter.
  pose proof (sampler_permutes dl (draw_seed g) HP) as HI.
  destruct (sampler dl (draw_seed g)) as [indices g']. simpl in *.
  pose proof (batch_sampler_concat (dl_batch_size dl) indices []) as C.
  fold (BatchSampler (dl_batch_size dl) indices) in C. simpl in C.
  split; [exact C|]. split; [now rewrite C|].
  split; [now apply batch_sampler_full|].
  unfold DataLoader_len.
  replace (length (dl_dataset dl)) with (length indices)
    by (rewrite (Permutation_length HI); apply length_seq).
  now apply batch_sampler_count.
Qed.

(** Every index of every batch of a pass is an index of the dataset. *)
Lemma DataLoader_iter_in_range (dl : DataLoader A) (g : G) :
  randperm_permutes RS -> 0 < dl_batch_size dl ->
  Forall (Forall (fun i => i < length (dl_dataset dl)))
         (fst (DataLoader_iter dl g)).
Proof.
  intros HP Hn.
  destruct (DataLoader_iter_pass dl g HP Hn) as (_ & P & _ & _).
  apply Forall_forall. intros b Hb. apply Forall_forall. intros i Hi.
  assert (Hin : In i (concat (fst (DataLoader_iter dl g)))).
  { apply in_concat. exists b. split; assumption. }
  apply (Permutation_in _ P) in Hin. apply in_seq in Hin. lia.
Qed.

(** No batch of a pass is empty. *)
Lemma full_but_last_nonempty (n : nat) (bl : list (list nat)) :
  0 < n -> full_but_last n bl -> Forall (fun b => 0 < length b) bl.
Proof.
  intros Hn. induction 1 as [|b Hb|b b' bl Hb H IH].
  - constructor.
  - constructor; [lia|constructor].
  - constructor; [lia|exact IH].
Qed.

(** Without shuffling, the first batch is [0, ..., min(n, size) - 1]. *)
Lemma sequential_first_batch (ds : dataset A) (n : nat) (g : G) :
  0 < n -> 0 < length ds ->
  exists rest,
    fst (DataLoader_iter (mkDataLoader ds n false) g) =
      seq 0 (Nat.min n (length ds)) :: rest.
Proof.
  intros Hn Hs. unfold DataLoader_iter, sampler. simpl.
  pose proof (batch_sampler_concat n (seq 0 (length ds)) []) as C.
  pose proof (batch_sampler_full n (seq 0 (length ds)) [] Hn Hn) as F.
  fold (BatchSampler n (seq 0 (length ds))) in C, F. simpl in C.
  destruct (BatchSampler n (seq 0 (length ds))) as [|b rest] eqn:E.
  - simpl in C. destruct (length ds); [lia|discriminate].
  - exists rest. f_equal.
    rewrite (full_but_last_head n b rest F), C.
    apply firstn_seq_min.
Qed.

End Pass.

Lemma map_nth_firstn {X Y : Type} (f : X -> Y) (d : X) (n : nat)
    (l : list X) :
  map (fun i => f (nth i l d)) (seq 0 (Nat.min n (length l))) =
  map f (firstn n l).
Proof.
  revert l. induction n as [|n IH]; intros [|x l]; simpl; auto.
  f_equal. rewrite <- seq_shift, map_map. apply IH.
Qed.

(** ** The evaluation cell *)

Section Evaluation.
Context {A : Type} {SA : Scalar A} {G : Type} {RS : RandomSource G}.

(** The evaluation cell does not touch the parameters, their gradients,
    the optimizer state or the printed lines. *)
Lemma cell18_frame (test_dataset : dataset A) (nb nb' : Notebook A G) :
  cell18 test_dataset nb = Ok nb' ->
  model nb' = model nb /\ grad nb' = grad nb /\
  optimizer nb' = optimizer nb /\ stdout nb' = stdout nb.
Proof.
  unfold cell18, test_loader, DataLoader_new. cbn [andb Nat.eqb bind].
  match goal with
  | |- context [DataLoader_iter ?l ?g] =>
      destruct (DataLoader_iter l g) as [[|indices rest] g']
  end.
  - intros [= <-]. simpl. auto.
  - cbn [dl_dataset].
    destruct (fetch test_dataset indices) as [[imgs labels]|e];
      cbn [bind fst]; [|discriminate].
    destruct (view 784 imgs) as [examples|e]; cbn [bind]; [|discriminate].
    match goal with
    | |- context [forward ?m examples] =>
        destruct (forward m examples) as [recon|e]
    end; cbn [bind]; [|discriminate].
    intros [= <-]. simpl. auto.
Qed.

(** What the evaluation cell computes when the first ten samples of the
    test set are well-formed. *)
Lemma cell18_first_batch (test_dataset : dataset A) (nb : Notebook A G) :
  AE_wf 784 (model nb) -> dataset_wf (firstn 10 test_dataset) ->
  0 < length test_dataset ->
  let examples :=
    map (fun s => flatten_image (fst s)) (firstn 10 test_dataset) in
  exists recon : matrix A,
    cell18 test_dataset nb =
      Ok (mkNotebook (draw_seed (rng nb)) (model nb) (grad nb)
                     (optimizer nb) (stdout nb)
                     (Some examples) (Some recon)) /\
    forward (model nb) examples = Ok recon /\
    mshape (Nat.min 10 (length test_dataset)) 784 examples /\
    mshape (Nat.min 10 (length test_dataset)) 784 recon.
Proof.
  intros Hae Hds Hs examples.
  assert (d : list (list (list A)) * nat).
  { destruct test_dataset as [|d ?]; [simpl in Hs; lia | exact d]. }
  set (k := Nat.min 10 (length test_dataset)).
  assert (Hk : Forall (fun i => i < length test_dataset) (seq 0 k)).
  { apply Forall_forall. intros i Hi. apply in_seq in Hi. unfold k in *. lia. }
  assert (Hsh : Forall (fun i => image_shape (fst (nth i test_dataset d)))
                       (seq 0 k)).
  { apply Forall_map with (f := fun i => nth i test_dataset d)
                          (P := fun s => image_shape (fst s)).
    unfold k.
    rewrite (map_nth_firstn (fun s => s) d 10 test_dataset), map_id.
    exact Hds. }
  destruct (batch_rows_ok test_dataset d (seq 0 k) Hk Hsh)
    as (imgs & labels & Hf & Hv & Hshape).
  unfold k in Hv, Hshape at 2.
  rewrite (map_nth_firstn (fun s => flatten_image (fst s)) d 10 test_dataset)
    in Hv, Hshape.
  fold examples in Hv, Hshape. rewrite length_seq in Hshape.
  destruct (forward_layers 784 k (model nb) examples Hae Hshape)
    as (Hfw & _ & _ & _ & S4).
  destruct (sequential_first_batch test_dataset 10 (rng nb)
              ltac:(lia) Hs) as [rest Hb].
  fold k in Hb.
  exists (layer4 (model nb) examples).
  split; [|split; [exact Hfw | split; assumption]].
  unfold cell18, test_loader, DataLoader_new. cbn [andb Nat.eqb bind].
  cbn [rng with_evaluation] in *.
  unfold DataLoader_iter, sampler in *. cbn [dl_shuffle dl_dataset] in *.
  cbn [fst dl_batch_size] in Hb. cbn [dl_batch_size]. rewrite Hb.
  rewrite Hf. cbn [bind fst]. rewrite Hv. cbn [bind].
  cbn [model with_rng with_evaluation]. rewrite Hfw. cbn [bind].
  reflexivity.
Qed.

End Evaluation.

(** C10.  The reconstruction handed to the plotting cell is [forward]
    applied to the first ten samples of the test set in index order:
    the test loader is not shuffled and has batches of ten, the loop
    stops after its first batch (indices 0..9), and a test set that
    differs only beyond index 9 gives the same result. *)
Theorem reconstruction_of_first_ten_samples :
  forall (A : Type) (SA : Scalar A) (G : Type) (RS : RandomSource G)
         (test_dataset : dataset A) (nb : Notebook A G),
    AE_wf 784 (model nb) -> dataset_wf (firstn 10 test_dataset) ->
    10 <= length test_dataset ->
    let examples :=
      map (fun s => flatten_image (fst s)) (firstn 10 test_dataset) in
    exists (nb' : Notebook A G) (recon : matrix A),
      cell18 test_dataset nb = Ok nb' /\
      test_examples nb' = Some examples /\
      reconstruction nb' = Some recon /\
      forward (model nb) examples = Ok recon /\
      length examples = 10 /\
      (exists (loader : DataLoader A) (rest : list (list nat)),
         test_loader test_dataset = Ok loader /\
         dl_batch_size loader = 10 /\ dl_shuffle loader = false /\
         fst (DataLoader_iter loader (rng nb)) = seq 0 10 :: rest) /\
      (forall other : dataset A,
         firstn 10 other = firstn 10 test_dataset ->
         cell18 other nb = Ok nb').
Proof.
  intros A SA G RS test_dataset nb Hae Hds Hlen examples.
  destruct (cell18_first_batch test_dataset nb Hae Hds ltac:(lia))
    as (recon & Hc & Hf & Hs & _).
  fold examples in Hc, Hf, Hs.
  eexists. exists recon. split; [exact Hc|]. cbn [test_examples reconstruction].
  split; [reflexivity|]. split; [reflexivity|]. split; [exact Hf|].
  split; [destruct Hs as [Hs _]; rewrite Hs; lia|].
  split.
  - destruct (sequential_first_batch test_dataset 10 (rng nb)
                ltac:(lia) ltac:(lia)) as [rest Hb].
    exists (mkDataLoader test_dataset 10 false), rest.
    repeat match goal with |- _ /\ _ => split end; auto.
    rewrite Hb. f_equal. f_equal. lia.
  - intros other Hother.
    assert (Ho : 0 < length other).
    { apply (f_equal (@length _)) in Hother.
      rewrite !length_firstn in Hother. lia. }
    assert (Hwf : dataset_wf (firstn 10 other)) by now rewrite Hother.
    destruct (cell18_first_batch other nb Hae Hwf Ho) as (recon' & Hc' & Hf' & _).
    rewrite Hother in Hc', Hf'. fold examples in Hc', Hf'.
    rewrite Hf in Hf'. injection Hf' as <-. exact Hc'.
Qed.

Lemma constant_image_shape {A : Type} (x : A) :
  image_shape (constant_image x).
Proof.
  unfold image_shape, constant_image. split.
  - split; [reflexivity|]. constructor; [apply repeat_length|constructor].
  - constructor; [|constructor]. apply repeat_mshape.
Qed.

Lemma constant_dataset_wf {A : Type} (x : A) (label n : nat) :
  dataset_wf (repeat (constant_image x, label) n).
Proof.
  apply Forall_forall. intros s Hs. apply repeat_spec in Hs. subst s.
  apply constant_image_shape.
Qed.

(** A test set of twelve samples. *)
Lemma reconstruction_of_first_ten_samples_witness :
  exists (nb' : Notebook R nat) (recon : matrix R),
    cell18 (repeat (constant_image 0%R, 7) 12)
           (mkNotebook 0 (zeros_AE 784) None (Adam_init (zeros_AE 784))
                       [] None None) = Ok nb' /\
    reconstruction nb' = Some recon.
Proof.
  destruct (reconstruction_of_first_ten_samples R R_scalar nat counter_source
              (repeat (constant_image 0%R, 7) 12)
              (mkNotebook 0 (zeros_AE 784) None (Adam_init (zeros_AE 784))
                          [] None None)
              (zeros_AE_wf 784)
              (constant_dataset_wf 0%R 7 10)
              ltac:(vm_compute; lia))
    as (nb' & recon & Hc & _ & Hr & _).
  exists nb', recon. split; assumption.
Defined.

(** C8.  The evaluation cell only calls [forward], on the first batch
    of a loader that is not shuffled and has batches of ten: applied to
    a batch of shape (10, 784) it yields a tensor of shape (10, 784), and
    it leaves the parameters, their gradients and the optimizer state as
    they were. *)
Theorem evaluation_shape_and_frame :
  forall (A : Type) (SA : Scalar A) (G : Type) (RS : RandomSource G)
         (test_dataset : dataset A) (nb : Notebook A G),
    AE_wf 784 (model nb) -> dataset_wf (firstn 10 test_dataset) ->
    10 <= length test_dataset ->
    (exists (nb' : Notebook A G) (examples recon : matrix A),
       cell18 test_dataset nb = Ok nb' /\
       test_examples nb' = Some examples /\ mshape 10 784 examples /\
       reconstruction nb' = Some recon /\
       forward (model nb) examples = Ok recon /\ mshape 10 784 recon /\
       model nb' = model nb /\ grad nb' = grad nb /\
       optimizer nb' = optimizer nb) /\
    (forall batch : matrix A, mshape 10 784 batch ->
       exists out : matrix A,
         forward (model nb) batch = Ok out /\ mshape 10 784 out) /\
    (forall (ds : dataset A) (nb0 nb1 : Notebook A G),
       cell18 ds nb0 = Ok nb1 ->
       model nb1 = model nb0 /\ grad nb1 = grad nb0 /\
       optimizer nb1 = optimizer nb0).
Proof.
  intros A SA G RS test_dataset nb Hae Hds Hlen.
  split; [|split].
  - destruct (cell18_first_batch test_dataset nb Hae Hds ltac:(lia))
      as (recon & Hc & Hf & Hs & Hr).
    replace (Nat.min 10 (length test_dataset)) with 10 in Hs, Hr by lia.
    eexists. eexists. exists recon. split; [exact Hc|].
    cbn [test_examples reconstruction model grad optimizer].
    repeat match goal with |- _ /\ _ => split end;
      solve [reflexivity | assumption].
  - intros batch Hb.
    destruct (forward_layers 784 10 (model nb) batch Hae Hb)
      as (Hf & _ & _ & _ & S4).
    exists (layer4 (model nb) batch). split; assumption.
  - intros ds nb0 nb1 Hc.
    destruct (cell18_frame ds nb0 nb1 Hc) as (H1 & H2 & H3 & _). auto.
Qed.

(** A test set of ten samples. *)
Lemma evaluation_shape_and_frame_witness :
  exists (nb' : Notebook R nat) (recon : matrix R),
    cell18 (repeat (constant_image 1%R, 3) 10)
           (mkNotebook 5 (zeros_AE 784) None (Adam_init (zeros_AE 784))
                       [] None None) = Ok nb' /\
    reconstruction nb' = Some recon /\ mshape 10 784 recon /\
    model nb' = zeros_AE 784.
Proof.
  destruct (evaluation_shape_and_frame R R_scalar nat counter_source
              (repeat (constant_image 1%R, 3) 10)
              (mkNotebook 5 (zeros_AE 784) None (Adam_init (zeros_AE 784))
                          [] None None)
              (zeros_AE_wf 784)
              (constant_dataset_wf 1%R 3 10)
              ltac:(vm_compute; lia))
    as ((nb' & examples & recon & Hc & _ & _ & Hr & _ & Hs & Hm & _) & _).
  exists nb', recon.
  repeat match goal with |- _ /\ _ => split end; assumption.
Defined.

(** ** Shapes of the gradients and of the optimizer step *)

Lemma map2_mshape {X Y Z : Type} (f : X -> Y -> Z) (r c : nat)
    (a : matrix X) (b : matrix Y) :
  mshape r c a -> mshape r c b -> mshape r c (map2 (map2 f) a b).
Proof.
  intros [Ha1 Ha2] [Hb1 Hb2]. split.
  - rewrite map2_length, Ha1, Hb1. apply Nat.min_id.
  - clear Ha1 Hb1. revert b Hb2.
    induction Ha2 as [|ra a Hra Ha IH]; intros b Hb2; simpl.
    + constructor.
    + destruct Hb2 as [|rb b Hrb Hb]; constructor.
      * rewrite map2_length, Hra, Hrb. apply Nat.min_id.
      * now apply IH.
Qed.

Lemma map_mshape {X Y : Type} (f : X -> Y) (r c : nat) (a : matrix X) :
  mshape r c a -> mshape r c (map (map f) a).
Proof.
  intros [H1 H2]. split.
  - now rewrite length_map.
  - apply Forall_map. eapply Forall_impl; [|exact H2].
    intros row Hr. simpl. now rewrite length_map.
Qed.

Lemma Linear_map2_wf {X Y Z : Type} (f : X -> Y -> Z) (i o : nat)
    (l1 : Linear X) (l2 : Linear Y) :
  Linear_wf i o l1 -> Linear_wf i o l2 ->
  Linear_wf i o (Linear_map2 f l1 l2).
Proof.
  intros (I1 & O1 & W1 & B1) (I2 & O2 & W2 & B2).
  unfold Linear_wf, Linear_map2. simpl.
  repeat match goal with |- _ /\ _ => split end; auto.
  - now apply map2_mshape.
  - rewrite map2_length, B1, B2. apply Nat.min_id.
Qed.

Lemma AE_map2_wf {X Y Z : Type} (f : X -> Y -> Z) (n : nat)
    (a1 : AE X) (a2 : AE Y) :
  AE_wf n a1 -> AE_wf n a2 -> AE_wf n (AE_map2 f a1 a2).
Proof.
  intros (A1 & A2 & A3 & A4) (B1 & B2 & B3 & B4).
  unfold AE_wf, AE_map2. simpl.
  repeat match goal with |- _ /\ _ => split end;
    now apply Linear_map2_wf.
Qed.

Lemma Linear_map_wf {X Y : Type} (f : X -> Y) (i o : nat) (l : Linear X) :
  Linear_wf i o l -> Linear_wf i o (Linear_map f l).
Proof.
  intros (I1 & O1 & W1 & B1).
  unfold Linear_wf, Linear_map. simpl.
  repeat match goal with |- _ /\ _ => split end; auto.
  - now apply map_mshape.
  - now rewrite length_map.
Qed.

Lemma AE_map_wf {X Y : Type} (f : X -> Y) (n : nat) (a : AE X) :
  AE_wf n a -> AE_wf n (AE_map f a).
Proof.
  intros (A1 & A2 & A3 & A4).
  unfold AE_wf, AE_map. simpl.
  repeat match goal with |- _ /\ _ => split end;
    now apply Linear_map_wf.
Qed.

Section GradientShapes.
Context {A : Type} {SA : Scalar A}.

Lemma matmul_shape (r k c : nat) (X W : matrix A) :
  length X = r -> mshape k c W -> 0 < k -> mshape r c (matmul X W).
Proof.
  intros HX HW Hk. destruct (transpose_shape k c W HW Hk) as [HT _].
  split.
  - unfold matmul. now rewrite length_map.
  - unfold matmul. apply Forall_map, Forall_forall. intros x _.
    now rewrite length_map.
Qed.

Lemma relu_backward_shape (r c : nat) (d a : matrix A) :
  mshape r c d -> mshape r c a -> mshape r c (relu_backward d a).
Proof. apply map2_mshape. Qed.

Lemma criterion_grad_shape (r c : nat) (o t : matrix A) :
  mshape r c o -> mshape r c t -> mshape r c (criterion_grad o t).
Proof. apply map2_mshape. Qed.

Lemma Linear_grad_wf (i o n : nat) (l : Linear A) (x d : matrix A) :
  Linear_wf i o l -> mshape n i x -> mshape n o d -> 0 < n ->
  Linear_wf i o (Linear_grad l x d).
Proof.
  intros (I1 & O1 & _ & _) Hx Hd Hn.
  pose proof (transpose_shape n o d Hd Hn) as HT.
  unfold Linear_wf, Linear_grad. simpl.
  repeat match goal with |- _ /\ _ => split end; auto.
  - apply matmul_shape with (k := n); auto. apply HT.
  - unfold sum_rows. rewrite length_map. apply HT.
Qed.

Lemma Linear_grad_input_shape (i o n : nat) (l : Linear A) (d : matrix A) :
  Linear_wf i o l -> mshape n o d -> 0 < o ->
  mshape n i (Linear_grad_input l d).
Proof.
  intros (_ & _ & W & _) Hd Ho. unfold Linear_grad_input.
  apply matmul_shape with (k := o); auto. apply Hd.
Qed.

Lemma backward_wf (n : nat) (ae : AE A) (x : matrix A) :
  AE_wf 784 ae -> mshape n 784 x -> 0 < n -> AE_wf 784 (backward ae x).
Proof.
  intros Hae Hx Hn.
  destruct (forward_layers 784 n ae x Hae Hx) as (_ & S1 & S2 & S3 & S4).
  destruct Hae as (H1 & H2 & H3 & H4).
  unfold backward. cbv zeta.
  set (d4 := relu_backward (criterion_grad (layer4 ae x) x) (layer4 ae x)).
  set (d3 := relu_backward (Linear_grad_input (decoder_output_layer ae) d4)
                           (layer3 ae x)).
  set (d2 := relu_backward (Linear_grad_input (decoder_hidden_layer ae) d3)
                           (layer2 ae x)).
  set (d1 := relu_backward (Linear_grad_input (encoder_output_layer ae) d2)
                           (layer1 ae x)).
  assert (D4 : mshape n 784 d4).
  { apply relu_backward_shape; auto. now apply criterion_grad_shape. }
  assert (D3 : mshape n 128 d3).
  { apply relu_backward_shape; auto.
    apply Linear_grad_input_shape with (o := 784); auto. lia. }
  assert (D2 : mshape n 128 d2).
  { apply relu_backward_shape; auto.
    apply Linear_grad_input_shape with (o := 128); auto. lia. }
  assert (D1 : mshape n 128 d1).
  { apply relu_backward_shape; auto.
    apply Linear_grad_input_shape with (o := 128); auto. lia. }
  unfold AE_wf. simpl.
  repeat match goal with |- _ /\ _ => split end;
    eapply Linear_grad_wf; eauto.
Qed.

Lemma Adam_step_wf (hp : AdamHyper A) (st : AdamState A)
    (params grads : AE A) :
  AE_wf 784 params -> AE_wf 784 grads ->
  AE_wf 784 (exp_avg st) -> AE_wf 784 (exp_avg_sq st) ->
  AE_wf 784 (snd (Adam_step hp st params grads)) /\
  AE_wf 784 (exp_avg (fst (Adam_step hp st params grads))) /\
  AE_wf 784 (exp_avg_sq (fst (Adam_step hp st params grads))) /\
  step (fst (Adam_step hp st params grads)) = S (step st).
Proof.
  intros Hp Hg Hm Hv. unfold Adam_step. simpl.
  repeat match goal with |- _ /\ _ => split end;
    auto using AE_map2_wf.
Qed.

Lemma Adam_init_wf (ae : AE A) :
  AE_wf 784 ae ->
  AE_wf 784 (exp_avg (Adam_init ae)) /\
  AE_wf 784 (exp_avg_sq (Adam_init ae)).
Proof. intros H. split; now apply AE_map_wf. Qed.

End GradientShapes.

(** ** The training loop *)

Section TrainingLoop.
Context {A : Type} {SA : Scalar A} {G : Type} {RS : RandomSource G}.

Lemma criterion_mean_squared_error (n : nat) (outputs x : matrix A) :
  mshape n 784 outputs -> mshape n 784 x ->
  criterion outputs x = mean_squared_error outputs x.
Proof.
  intros [Ho1 Ho2] [Hx1 Hx2]. unfold criterion, mean_squared_error, numel.
  rewrite (concat_length_uniform 784 outputs Ho2), Ho1, Hx1.
  now rewrite Nat.mul_comm.
Qed.

Lemma train_batch_spec (ds : dataset A) (nb : Notebook A G)
    (indices : list nat) :
  dataset_wf ds -> train_inv nb -> valid_batch ds indices ->
  exists (imgs : list (image A)) (labels : list nat) (x : matrix A)
         (nb1 : Notebook A G),
    fetch ds indices = Ok (imgs, labels) /\
    view 784 imgs = Ok x /\
    mshape (length indices) 784 x /\
    Forall (fun row => In row (map (fun s => flatten_image (fst s)) ds)) x /\
    forward (model nb) x = Ok (layer4 (model nb) x) /\
    optimizer_step (loss_backward (zero_grad nb) x) = Ok nb1 /\
    train_batch ds nb indices =
      Ok (nb1, mean_squared_error (layer4 (model nb) x) x) /\
    train_inv nb1 /\ rng nb1 = rng nb /\ stdout nb1 = stdout nb /\
    step (optimizer nb1) = S (step (optimizer nb)).
Proof.
  intros Hds (Hm & Hea & Hes) [Hi Hn].
  assert (d : list (list (list A)) * nat).
  { destruct ds as [|d ?]; [exfalso|exact d].
    destruct indices as [|i ?]; [simpl in Hn; lia|].
    inversion Hi; subst. simpl in *. lia. }
  destruct (batch_rows_ok ds d indices Hi (dataset_wf_nth ds d indices Hds Hi))
    as (imgs & labels & Hf & Hv & Hx).
  set (x := map (fun i => flatten_image (fst (nth i ds d))) indices) in *.
  destruct (forward_layers 784 _ (model nb) x Hm Hx)
    as (Hfw & _ & _ & _ & S4).
  pose proof (backward_wf _ (model nb) x Hm Hx Hn) as Hg.
  destruct (Adam_step_wf optimizer_hyper (optimizer nb) (model nb)
              (backward (model nb) x) Hm Hg Hea Hes)
    as (Hm' & Hea' & Hes' & Hstep).
  exists imgs, labels, x.
  unfold train_batch, optimizer_step, loss_backward, zero_grad.
  cbn [grad with_grad model optimizer].
  destruct (Adam_step optimizer_hyper (optimizer nb) (model nb)
              (backward (model nb) x)) as [st ae] eqn:Est.
  cbn [fst snd] in *.
  eexists. split; [exact Hf|]. split; [exact Hv|]. split; [exact Hx|].
  split.
  { unfold x. apply Forall_map. eapply Forall_impl; [|exact Hi].
    intros i Hlt. cbv beta.
    apply (in_map (fun s => flatten_image (fst s)) ds (nth i ds d)).
    now apply nth_In. }
  split; [exact Hfw|]. split; [reflexivity|].
  split.
  { rewrite Hf. cbn [bind fst]. rewrite Hv. cbn [bind].
    rewrite Hfw. cbn [bind].
    rewrite Est. cbn [bind].
    now rewrite (criterion_mean_squared_error _ _ _ S4 Hx). }
  unfold train_inv. cbn [model optimizer with_model rng stdout with_grad].
  auto 10.
Qed.

Lemma train_batches_spec (ds : dataset A) (batches : list (list nat)) :
  dataset_wf ds -> Forall (valid_batch ds) batches ->
  forall (nb : Notebook A G) (loss : A),
    train_inv nb ->
    exists (losses : list A) (nb' : Notebook A G),
      train_batches ds nb loss batches =
        Ok (nb', fold_left add losses loss) /\
      epoch_run ds nb batches losses nb' /\
      train_inv nb' /\ rng nb' = rng nb /\ stdout nb' = stdout nb /\
      step (optimizer nb') = length batches + step (optimizer nb).
Proof.
  intros Hds. induction 1 as [|indices rest Hb Hrest IH]; intros nb loss Hinv.
  - exists [], nb. simpl. repeat split; try apply Hinv. constructor.
  - destruct (train_batch_spec ds nb indices Hds Hinv Hb)
      as (imgs & labels & x & nb1 & Hf & Hv & Hx & _ & Hfw & Hstep & Htb
          & Hinv1 & Hr1 & Hs1 & Hc1).
    destruct (IH nb1 (add loss (mean_squared_error (layer4 (model nb) x) x))
                Hinv1)
      as (losses & nb' & Hrun & Hep & Hinv' & Hr' & Hs' & Hc').
    exists (mean_squared_error (layer4 (model nb) x) x :: losses), nb'.
    split.
    { simpl. rewrite Htb. cbn [bind fst snd]. exact Hrun. }
    split.
    { eapply run_batch; eauto. }
    split; [exact Hinv'|]. split; [congruence|]. split; [congruence|].
    simpl length. lia.
Qed.

Lemma pass_valid (loader : DataLoader A) (g : G) :
  randperm_permutes RS -> 0 < dl_batch_size loader ->
  Forall (valid_batch (dl_dataset loader)) (fst (DataLoader_iter loader g)).
Proof.
  intros HP Hn.
  pose proof (DataLoader_iter_in_range loader g HP Hn) as Hr.
  destruct (DataLoader_iter_pass loader g HP Hn) as (_ & _ & F & _).
  pose proof (full_but_last_nonempty _ _ Hn F) as Hne.
  apply Forall_forall. intros b Hb. rewrite Forall_forall in Hr, Hne.
  split; auto.
Qed.

Lemma DataLoader_len_pos (loader : DataLoader A) :
  0 < dl_batch_size loader -> 0 < length (dl_dataset loader) ->
  0 < DataLoader_len loader.
Proof.
  intros Hn Hs. unfold DataLoader_len.
  apply Nat.div_str_pos. lia.
Qed.

Lemma epoch_loss_spec (loader : DataLoader A) (nb : Notebook A G) :
  randperm_permutes RS -> 0 < dl_batch_size loader ->
  dataset_wf (dl_dataset loader) -> 0 < length (dl_dataset loader) ->
  train_inv nb ->
  exists (batches : list (list nat)) (g : G) (losses : list A)
         (nb' : Notebook A G),
    DataLoader_iter loader (rng nb) = (batches, g) /\
    epoch_run (dl_dataset loader) (with_rng nb g) batches losses nb' /\
    epoch_loss loader nb =
      Ok (nb', div (vsum losses) (of_Z (Z.of_nat (length batches)))) /\
    length batches = DataLoader_len loader /\
    train_inv nb' /\ rng nb' = g /\ stdout nb' = stdout nb.
Proof.
  intros HP Hn Hds Hs Hinv.
  pose proof (pass_valid loader (rng nb) HP Hn) as Hval.
  destruct (DataLoader_iter_pass loader (rng nb) HP Hn) as (_ & _ & _ & Hlen).
  pose proof (DataLoader_len_pos loader Hn Hs) as Hpos.
  unfold epoch_loss.
  destruct (DataLoader_iter loader (rng nb)) as [batches g].
  cbn [fst] in *.
  destruct (train_batches_spec (dl_dataset loader) batches Hds Hval
              (with_rng nb g) zero Hinv)
    as (losses & nb' & Hrun & Hep & Hinv' & Hr' & Hs' & _).
  exists batches, g, losses, nb'.
  split; [reflexivity|]. split; [exact Hep|].
  split.
  { rewrite Hrun. cbn [bind fst snd].
    destruct (Nat.eqb_spec (DataLoader_len loader) 0) as [E|_]; [lia|].
    now rewrite Hlen. }
  auto.
Qed.

Lemma for_epochs_spec (epochs : nat) (loader : DataLoader A)
    (range : list nat) :
  randperm_permutes RS -> 0 < dl_batch_size loader ->
  dataset_wf (dl_dataset loader) -> 0 < length (dl_dataset loader) ->
  forall nb : Notebook A G,
    train_inv nb ->
    exists (lines : list string) (nb' : Notebook A G),
      for_epochs epochs loader nb range = Ok nb' /\
      training_run epochs loader nb range
        (pass_orders loader (rng nb) (length range)) lines nb' /\
      stdout nb' = stdout nb ++ lines /\
      length lines = length range /\
      train_inv nb' /\
      rng nb' = pass_rng loader (rng nb) (length range).
Proof.
  intros HP Hn Hds Hs.
  induction range as [|epoch range IH]; intros nb Hinv.
  - exists [], nb. simpl. rewrite app_nil_r.
    repeat split; try apply Hinv. constructor.
  - destruct (epoch_loss_spec loader nb HP Hn Hds Hs Hinv)
      as (batches & g & losses & nb1 & Hit & Hrun & Hel & Hlen & Hinv1
          & Hr1 & Hs1).
    set (line := report_line epoch epochs
                   (div (vsum losses) (of_Z (Z.of_nat (length batches))))).
    destruct (IH (print nb1 line) Hinv1)
      as (lines & nb' & Hfor & Htr & Hout & Hll & Hinv' & Hrng).
    cbn [rng print] in Htr, Hrng. rewrite Hr1 in Htr, Hrng.
    exists (line :: lines), nb'.
    split.
    { simpl. unfold train_epoch. rewrite Hel. cbn [bind fst snd].
      exact Hfor. }
    split.
    { cbn [length pass_orders]. rewrite Hit.
      eapply training_epoch; eauto. }
    split.
    { rewrite Hout. cbn [stdout print]. rewrite Hs1, <- app_assoc.
      reflexivity. }
    split; [simpl; congruence|]. split; [exact Hinv'|].
    cbn [length pass_rng]. rewrite Hit. exact Hrng.
Qed.

End TrainingLoop.

(** On a training set with at least one sample the loader of cell 15 is
    built, and the training cell is the loop over it. *)
Lemma train_loader_ok {A : Type} (ds : dataset A) :
  0 < length ds -> train_loader ds = Ok (mkDataLoader ds 128 true).
Proof.
  intros H. unfold train_loader, DataLoader_new. cbn [andb].
  destruct (Nat.eqb_spec (length ds) 0); [lia | reflexivity].
Qed.

Lemma cell16_training_loop {A : Type} {SA : Scalar A} {G : Type}
    {RS : RandomSource G} (ds : dataset A) (nb : Notebook A G) :
  0 < length ds ->
  cell16 ds nb = training_loop epochs (mkDataLoader ds 128 true) nb.
Proof.
  intros H. unfold cell16. now rewrite (train_loader_ok ds H).
Qed.

(** The state cell 13 creates keeps the shapes, whatever values the
    layers are initialised with. *)
Lemma cell13_train_inv {A : Type} {SA : Scalar A} {G : Type}
    (new_linear : nat -> nat -> G -> Linear A * G) (nb : Notebook A G) :
  (forall i o g, Linear_wf i o (fst (new_linear i o g))) ->
  train_inv (cell13 new_linear nb).
Proof.
  intros H. pose proof (AE_init_wf new_linear 784 (rng nb) H) as Hwf.
  unfold train_inv, cell13.
  destruct (AE_init new_linear 784 (rng nb)) as [ae g].
  cbn [model optimizer with_model with_rng fst] in *.
  split; [exact Hwf|]. now apply Adam_init_wf.
Qed.

Lemma zero_notebook_inv {A : Type} {SA : Scalar A} {G : Type} (g : G) :
  train_inv (mkNotebook g (zeros_AE 784) None (Adam_init (zeros_AE 784))
                        [] None None).
Proof.
  unfold train_inv. cbn [model optimizer].
  split; [apply zeros_AE_wf|]. apply Adam_init_wf, zeros_AE_wf.
Qed.

(** C2.  Every epoch of the training loop prints one line
    [epoch : <i>/<N>, loss = <loss to six decimals>], in which the loss
    is the sum over the batches of the epoch of the mean squared error
    between output and batch, taken over all N * 784 elements, divided
    by the number of batches.  The training cell is this loop with
    [epochs = 20] and the loader of cell 15. *)
Theorem epoch_loss_is_mean_of_batch_losses :
  forall (A : Type) (SA : Scalar A) (G : Type) (RS : RandomSource G)
         (n : nat) (loader : DataLoader A) (nb : Notebook A G),
    randperm_permutes RS -> 0 < dl_batch_size loader ->
    dataset_wf (dl_dataset loader) -> 0 < length (dl_dataset loader) ->
    train_inv nb ->
    (exists (lines : list string) (nb' : Notebook A G),
       training_loop n loader nb = Ok nb' /\
       stdout nb' = stdout nb ++ lines /\
       length lines = n /\
       training_run n loader nb (seq 0 n)
         (pass_orders loader (rng nb) n) lines nb') /\
    (forall g : G,
       length (fst (DataLoader_iter loader g)) = DataLoader_len loader) /\
    cell16 (dl_dataset loader) nb =
      training_loop epochs (mkDataLoader (dl_dataset loader) 128 true) nb.
Proof.
  intros A SA G RS n loader nb HP Hn Hds Hs Hinv.
  split; [|split].
  - destruct (for_epochs_spec n loader (seq 0 n) HP Hn Hds Hs nb Hinv)
      as (lines & nb' & Hfor & Htr & Hout & Hlen & _).
    exists lines, nb'. rewrite length_seq in Hlen, Htr. auto.
  - intros g. now apply DataLoader_iter_pass.
  - now apply cell16_training_loop.
Qed.

(** Two epochs over five samples in batches of two, from a model
    initialised at zero. *)
Lemma epoch_loss_is_mean_of_batch_losses_witness :
  exists (lines : list string) (nb' : Notebook R nat),
    training_loop 2
      (mkDataLoader (repeat (constant_image 0%R, 4) 5) 2 true)
      (mkNotebook 0 (zeros_AE 784) None (Adam_init (zeros_AE 784))
                  [] None None) = Ok nb' /\
    stdout nb' = lines /\ length lines = 2.
Proof.
  destruct (epoch_loss_is_mean_of_batch_losses R R_scalar nat counter_source
              2 (mkDataLoader (repeat (constant_image 0%R, 4) 5) 2 true)
              (mkNotebook 0 (zeros_AE 784) None (Adam_init (zeros_AE 784))
                          [] None None)
              counter_source_permutes
              ltac:(simpl; lia)
              (constant_dataset_wf 0%R 4 5)
              ltac:(simpl; lia)
              (zero_notebook_inv 0))
    as ((lines & nb' & Hrun & Hout & Hlen & _) & _).
  exists lines, nb'. simpl in Hout. auto.
Defined.

(** ** Printing a loss with six decimals *)

Lemma round_half_even_nearest (x : R) :
  (Rabs (IZR (round_half_even x) - x) <= 1 / 2)%R.
Proof.
  unfold round_half_even.
  destruct (base_Int_part x) as [H1 H2].
  set (f := Int_part x) in *.
  destruct (Rlt_dec (x - IZR f) (1 / 2)) as [Hlo|Hlo].
  - apply Rabs_le. lra.
  - destruct (Rlt_dec (1 / 2) (x - IZR f)) as [Hhi|Hhi].
    + rewrite plus_IZR. apply Rabs_le. lra.
    + destruct (Z.even f).
      * apply Rabs_le. lra.
      * rewrite plus_IZR. apply Rabs_le. lra.
Qed.

Lemma round_half_even_IZR (k : Z) : round_half_even (IZR k) = k.
Proof.
  unfold round_half_even.
  assert (E : Int_part (IZR k) = k).
  { symmetry. apply Int_part_spec. lra. }
  rewrite E.
  destruct (Rlt_dec (IZR k - IZR k) (1 / 2)) as [_|H]; [reflexivity|].
  exfalso. apply H. lra.
Qed.

(** A value with at most six decimals is printed exactly. *)
Lemma format6f_R_exact (k : Z) :
  (0 <= k)%Z ->
  format6f_R (IZR k / 1000000) =
  (string_of_N (Z.to_N (k / 1000000)) ++ "." ++ digits6 k)%string.
Proof.
  intros Hk. unfold format6f_R.
  assert (Hx : (0 <= IZR k / 1000000)%R).
  { apply IZR_le in Hk. lra. }
  rewrite (Rabs_right _ (Rle_ge _ _ Hx)).
  replace (IZR k / 1000000 * 1000000)%R with (IZR k) by lra.
  rewrite round_half_even_IZR.
  destruct (Rlt_dec (IZR k / 1000000) 0) as [H|_]; [lra|reflexivity].
Qed.

Lemma format6f_R_zero : format6f_R 0 = "0.000000"%string.
Proof.
  replace 0%R with (IZR 0 / 1000000)%R by lra.
  now rewrite format6f_R_exact.
Qed.

(** The first line of the recorded output of the notebook. *)
Example report_line_first_epoch :
  report_line 0 20 (35890 / 1000000)%R
  = "epoch : 1/20, loss = 0.035890"%string.
Proof.
  unfold report_line. cbn [format6f R_scalar].
  now rewrite (format6f_R_exact 35890).
Qed.

(** ** Runs from the same seed *)

Section SeededRuns.
Context {A : Type} {SA : Scalar A} {G : Type} {RS : RandomSource G}.

(** Seeding and the creation of model and optimizer overwrite the
    generator state, the parameters and the optimizer state. *)
Lemma cell13_cell5_same_core
    (new_linear : nat -> nat -> G -> Linear A * G) (nb1 nb2 : Notebook A G) :
  same_core (cell13 new_linear (cell5 nb1)) (cell13 new_linear (cell5 nb2)).
Proof.
  unfold same_core, cell13, cell5. cbn [rng with_rng].
  destruct (AE_init new_linear 784 (manual_seed seed)) as [ae g].
  cbn [rng model optimizer with_rng with_model]. auto.
Qed.

Lemma cell13_cell5_rng
    (new_linear : nat -> nat -> G -> Linear A * G) (nb : Notebook A G) :
  rng (cell13 new_linear (cell5 nb)) =
    snd (AE_init new_linear 784 (manual_seed seed)).
Proof.
  unfold cell13, cell5. cbn [rng with_rng].
  destruct (AE_init new_linear 784 (manual_seed seed)) as [ae g].
  reflexivity.
Qed.

Lemma cell13_cell5_stdout
    (new_linear : nat -> nat -> G -> Linear A * G) (nb : Notebook A G) :
  stdout (cell13 new_linear (cell5 nb)) = stdout nb.
Proof.
  unfold cell13, cell5. cbn [rng with_rng].
  destruct (AE_init new_linear 784 (manual_seed seed)) as [ae g].
  reflexivity.
Qed.

(** One step of the inner loop reads the parameters and the optimizer
    state only. *)
Lemma train_batch_same_core (ds : dataset A) (nb1 nb2 r1 : Notebook A G)
    (indices : list nat) (l : A) :
  same_core nb1 nb2 ->
  train_batch ds nb1 indices = Ok (r1, l) ->
  stdout r1 = stdout nb1 /\
  exists r2 : Notebook A G,
    train_batch ds nb2 indices = Ok (r2, l) /\
    same_core r1 r2 /\ stdout r2 = stdout nb2.
Proof.
  intros (Hr & Hm & Ho). unfold train_batch.
  destruct (fetch ds indices) as [batch|e]; [|discriminate].
  cbn [bind]. destruct (view 784 (fst batch)) as [x|e]; [|discriminate].
  cbn [bind]. unfold zero_grad, loss_backward, optimizer_step.
  cbn [model grad optimizer with_grad]. rewrite <- Hm, <- Ho.
  destruct (forward (model nb1) x) as [out|e]; [|discriminate].
  cbn [bind].
  destruct (Adam_step optimizer_hyper (optimizer nb1) (model nb1)
              (backward (model nb1) x)) as [st ae].
  cbn [bind]. intros H. injection H as <- <-.
  split; [reflexivity|]. eexists. split; [reflexivity|].
  unfold same_core. cbn [rng model optimizer stdout with_model with_grad].
  auto.
Qed.

Lemma train_batches_same_core (ds : dataset A) (batches : list (list nat)) :
  forall (nb1 nb2 r1 : Notebook A G) (acc l : A),
    same_core nb1 nb2 ->
    train_batches ds nb1 acc batches = Ok (r1, l) ->
    stdout r1 = stdout nb1 /\
    exists r2 : Notebook A G,
      train_batches ds nb2 acc batches = Ok (r2, l) /\
      same_core r1 r2 /\ stdout r2 = stdout nb2.
Proof.
  induction batches as [|indices rest IH]; intros nb1 nb2 r1 acc l Hc H.
  - simpl in H. injection H as <- <-. split; [reflexivity|].
    exists nb2. simpl. auto.
  - simpl in H.
    destruct (train_batch ds nb1 indices) as [[a la]|e] eqn:E;
      [|discriminate].
    cbn [bind fst snd] in H.
    destruct (train_batch_same_core ds nb1 nb2 a indices la Hc E)
      as (Hs1 & b & Eb & Hab & Hs2).
    destruct (IH a b r1 (add acc la) l Hab H) as (Hs1' & r2 & E2 & Hc2 & Hs2').
    split; [congruence|]. exists r2.
    split; [|split; [exact Hc2 | congruence]].
    simpl. rewrite Eb. cbn [bind fst snd]. exact E2.
Qed.

Lemma epoch_loss_same_core (loader : DataLoader A)
    (nb1 nb2 r1 : Notebook A G) (l : A) :
  same_core nb1 nb2 ->
  epoch_loss loader nb1 = Ok (r1, l) ->
  stdout r1 = stdout nb1 /\
  exists r2 : Notebook A G,
    epoch_loss loader nb2 = Ok (r2, l) /\
    same_core r1 r2 /\ stdout r2 = stdout nb2.
Proof.
  intros Hc. pose proof Hc as (Hr & Hm & Ho). unfold epoch_loss.
  rewrite <- Hr.
  destruct (DataLoader_iter loader (rng nb1)) as [batches g].
  destruct (train_batches (dl_dataset loader) (with_rng nb1 g) zero batches)
    as [[a la]|e] eqn:E; [|discriminate].
  cbn [bind fst snd].
  assert (Hc' : same_core (with_rng nb1 g) (with_rng nb2 g)).
  { unfold same_core. cbn [rng model optimizer with_rng]. auto. }
  destruct (train_batches_same_core (dl_dataset loader) batches
              (with_rng nb1 g) (with_rng nb2 g) a zero la Hc' E)
    as (Hs1 & b & Eb & Hab & Hs2).
  rewrite Eb. cbn [bind fst snd].
  destruct (DataLoader_len loader =? 0); [discriminate|].
  intros H. injection H as <- <-.
  split; [exact Hs1|]. exists b. auto.
Qed.

Lemma for_epochs_same_core (epochs : nat) (loader : DataLoader A)
    (range : list nat) :
  forall nb1 nb2 r1 : Notebook A G,
    same_core nb1 nb2 ->
    for_epochs epochs loader nb1 range = Ok r1 ->
    exists (lines : list string) (r2 : Notebook A G),
      for_epochs epochs loader nb2 range = Ok r2 /\
      same_core r1 r2 /\
      stdout r1 = stdout nb1 ++ lines /\
      stdout r2 = stdout nb2 ++ lines.
Proof.
  induction range as [|epoch range IH]; intros nb1 nb2 r1 Hc H.
  - simpl in H. injection H as <-. exists [], nb2. simpl.
    rewrite !app_nil_r. auto.
  - simpl in H. unfold train_epoch in H.
    destruct (epoch_loss loader nb1) as [[a la]|e] eqn:E; [|discriminate].
    cbn [bind fst snd] in H.
    destruct (epoch_loss_same_core loader nb1 nb2 a la Hc E)
      as (Hs1 & b & Eb & Hab & Hs2).
    set (line := report_line epoch epochs la) in *.
    assert (Hc' : same_core (print a line) (print b line)).
    { destruct Hab as (? & ? & ?). unfold same_core.
      cbn [rng model optimizer print]. auto. }
    destruct (IH (print a line) (print b line) r1 Hc' H)
      as (lines & r2 & E2 & Hc2 & Ho1 & Ho2).
    exists (line :: lines), r2.
    split.
    { simpl. unfold train_epoch. rewrite Eb. cbn [bind fst snd]. exact E2. }
    split; [exact Hc2|].
    cbn [stdout print] in Ho1, Ho2.
    rewrite Ho1, Ho2, Hs1, Hs2, <- !app_assoc. auto.
Qed.

End SeededRuns.

(** C4, as the code has it.  Two full runs of the notebook (seeding
    the global generator with [seed], creating model and optimizer,
    training) on the same dataset draw the same batch orderings, print
    the same line for every epoch, hence the same per-epoch losses, and
    end with the same parameters, whatever the states the two runs start
    from.  The orderings are those the loader draws from the state of the
    global generator, which the seeding and the initialisation of the
    model determine: the loader is given no source of its own. *)
Theorem seeded_runs_coincide :
  forall (A : Type) (SA : Scalar A) (G : Type) (RS : RandomSource G)
         (new_linear : nat -> nat -> G -> Linear A * G)
         (train_dataset : dataset A) (nb1 nb2 : Notebook A G),
    randperm_permutes RS ->
    (forall i o g, Linear_wf i o (fst (new_linear i o g))) ->
    dataset_wf train_dataset -> 0 < length train_dataset ->
    exists (orders : list (list (list nat))) (lines : list string)
           (r1 r2 : Notebook A G),
      notebook_run new_linear train_dataset nb1 = Ok r1 /\
      notebook_run new_linear train_dataset nb2 = Ok r2 /\
      training_run epochs (mkDataLoader train_dataset 128 true)
        (cell13 new_linear (cell5 nb1)) (seq 0 epochs) orders lines r1 /\
      training_run epochs (mkDataLoader train_dataset 128 true)
        (cell13 new_linear (cell5 nb2)) (seq 0 epochs) orders lines r2 /\
      stdout r1 = stdout nb1 ++ lines /\
      stdout r2 = stdout nb2 ++ lines /\
      length lines = epochs /\
      model r1 = model r2 /\
      orders =
        pass_orders (mkDataLoader train_dataset 128 true)
          (snd (AE_init new_linear 784 (manual_seed seed))) epochs.
Proof.
  intros A SA G RS new_linear ds nb1 nb2 HP Hnl Hds Hs.
  set (loader := mkDataLoader ds 128 true).
  set (S1 := cell13 new_linear (cell5 nb1)).
  set (S2 := cell13 new_linear (cell5 nb2)).
  assert (Hn : 0 < dl_batch_size loader) by (simpl; lia).
  destruct (for_epochs_spec epochs loader (seq 0 epochs) HP Hn Hds Hs S1
              (cell13_train_inv new_linear (cell5 nb1) Hnl))
    as (lines & r1 & E1 & T1 & O1 & L1 & _ & _).
  destruct (for_epochs_spec epochs loader (seq 0 epochs) HP Hn Hds Hs S2
              (cell13_train_inv new_linear (cell5 nb2) Hnl))
    as (lines2 & r2 & E2 & T2 & O2 & L2 & _ & _).
  destruct (for_epochs_same_core epochs loader (seq 0 epochs) S1 S2 r1
              (cell13_cell5_same_core new_linear nb1 nb2) E1)
    as (lines' & r2' & E2' & Hc & O1' & O2').
  assert (r2' = r2) by congruence. subst r2'.
  assert (lines' = lines).
  { rewrite O1 in O1'. now apply app_inv_head in O1'. }
  subst lines'.
  assert (lines2 = lines).
  { rewrite O2 in O2'. now apply app_inv_head in O2'. }
  subst lines2.
  rewrite length_seq in *.
  unfold S1 in T1 at 2. unfold S2 in T2 at 2.
  rewrite cell13_cell5_rng in T1, T2.
  unfold S1, S2 in O1, O2. rewrite cell13_cell5_stdout in O1, O2.
  eexists _, lines, r1, r2.
  unfold notebook_run. rewrite !(cell16_training_loop ds _ Hs).
  split; [exact E1|]. split; [exact E2|].
  split; [exact T1|]. split; [exact T2|].
  split; [exact O1|]. split; [exact O2|].
  split; [exact L1|]. split; [apply Hc | reflexivity].
Qed.

(** Two runs over five samples with all parameters initialised to zero,
    from states that differ in the generator and in the lines printed
    before. *)
Lemma seeded_runs_coincide_witness :
  exists (lines : list string) (r1 r2 : Notebook R nat),
    notebook_run (const_init 0%R) (repeat (constant_image 0%R, 4) 5)
      (mkNotebook 7 (zeros_AE 784) None (Adam_init (zeros_AE 784))
                  [] None None) = Ok r1 /\
    notebook_run (const_init 0%R) (repeat (constant_image 0%R, 4) 5)
      (mkNotebook 11 (zeros_AE 784) None (Adam_init (zeros_AE 784))
                  ["earlier output"%string] None None) = Ok r2 /\
    stdout r1 = lines /\
    stdout r2 = "earlier output"%string :: lines.
Proof.
  destruct (seeded_runs_coincide R R_scalar nat counter_source
              (const_init 0%R) (repeat (constant_image 0%R, 4) 5)
              (mkNotebook 7 (zeros_AE 784) None (Adam_init (zeros_AE 784))
                          [] None None)
              (mkNotebook 11 (zeros_AE 784) None (Adam_init (zeros_AE 784))
                          ["earlier output"%string] None None)
              counter_source_permutes
              (fun i o _ => const_Linear_wf 0%R i o)
              (constant_dataset_wf 0%R 4 5)
              ltac:(simpl; lia))
    as (orders & lines & r1 & r2 & E1 & E2 & _ & _ & O1 & O2 & _).
  exists lines, r1, r2. auto.
Defined.

(** ** The generator is shared state *)

Lemma counter_pass (ds : dataset R) (n g : nat) :
  DataLoader_iter (mkDataLoader ds n true) g =
    (BatchSampler n (rotation (length ds) (S g)), S (S g)).
Proof. reflexivity. Qed.

Lemma counter_pass_rng (ds : dataset R) (n k g : nat) :
  pass_rng (mkDataLoader ds n true) g k = 2 * k + g.
Proof.
  revert g. induction k as [|k IH]; intros g; [reflexivity|].
  cbn [pass_rng]. rewrite counter_pass. cbn [snd]. rewrite IH. lia.
Qed.

(** C4, as stated: the training cell is run twice in a session that was
    seeded once, on the same three samples and with the same loader.
    Nothing was handed to either run but the dataset, and the seed is
    the same, yet the batch of the first epoch is [1; 2; 0] in the first
    run and [2; 0; 1] in the second: the order comes out of the state of
    the global generator, which the first run has advanced. *)
Lemma retraining_draws_other_batch_orderings :
  let ds := repeat (constant_image 0%R, 0) 3 in
  let loader := mkDataLoader ds 128 true in
  let nb :=
    cell13 (const_init 0%R)
      (cell5 (mkNotebook 0 (zeros_AE 784) None (Adam_init (zeros_AE 784))
                         [] None None)) in
  exists (orders1 orders2 : list (list (list nat)))
         (lines1 lines2 : list string) (r1 r2 : Notebook R nat),
    cell16 ds nb = Ok r1 /\
    cell16 ds r1 = Ok r2 /\
    training_run epochs loader nb (seq 0 epochs) orders1 lines1 r1 /\
    training_run epochs loader r1 (seq 0 epochs) orders2 lines2 r2 /\
    hd [] orders1 = [[1; 2; 0]] /\
    hd [] orders2 = [[2; 0; 1]] /\
    orders1 <> orders2.
Proof.
  intros ds loader nb.
  assert (Hn : 0 < dl_batch_size loader) by (simpl; lia).
  assert (Hds : dataset_wf ds) by apply constant_dataset_wf.
  assert (Hs : 0 < length (dl_dataset loader)) by (simpl; lia).
  destruct (for_epochs_spec epochs loader (seq 0 epochs)
              counter_source_permutes Hn Hds Hs nb
              (cell13_train_inv (const_init 0%R) _
                 (fun i o _ => const_Linear_wf 0%R i o)))
    as (lines1 & r1 & E1 & T1 & _ & _ & Hinv1 & R1).
  destruct (for_epochs_spec epochs loader (seq 0 epochs)
              counter_source_permutes Hn Hds Hs r1 Hinv1)
    as (lines2 & r2 & E2 & T2 & _ & _ & _ & _).
  rewrite length_seq in *.
  unfold loader in R1 at 1. rewrite counter_pass_rng in R1.
  rewrite R1 in T2.
  change (rng nb) with 42 in *.
  assert (H1 : hd [] (pass_orders loader 42 epochs) = [[1; 2; 0]])
    by reflexivity.
  assert (H2 : hd [] (pass_orders loader (2 * epochs + 42) epochs)
               = [[2; 0; 1]]) by reflexivity.
  eexists _, _, lines1, lines2, r1, r2.
  rewrite !(cell16_training_loop ds _ Hs).
  split; [exact E1|]. split; [exact E2|].
  split; [exact T1|]. split; [exact T2|].
  split; [exact H1|]. split; [exact H2|].
  intros E. rewrite E in H1. rewrite H1 in H2. discriminate.
Qed.

(** ** Constant tensors *)

Lemma map2_repeat {X Y Z : Type} (f : X -> Y -> Z) (x : X) (y : Y)
    (n : nat) :
  map2 f (repeat x n) (repeat y n) = repeat (f x y) n.
Proof. induction n as [|n IH]; simpl; [reflexivity | now rewrite IH]. Qed.

Lemma map_const_repeat {X Y : Type} (f : X -> Y) (y : Y) (l : list X) :
  (forall x, In x l -> f x = y) -> map f l = repeat y (length l).
Proof.
  induction l as [|x l IH]; intros H; simpl; [reflexivity|].
  rewrite (H x) by now left. f_equal. apply IH. intros z Hz. apply H.
  now right.
Qed.

Lemma map2_const_l {X Y Z : Type} (f : X -> Y -> Z) (x : X) (z : Z)
    (ys : list Y) :
  (forall y, f x y = z) ->
  map2 f (repeat x (length ys)) ys = repeat z (length ys).
Proof.
  intros H. induction ys as [|y ys IH]; simpl; [reflexivity|].
  now rewrite H, IH.
Qed.

Lemma all_eq_repeat {X : Type} (x : X) (l : list X) :
  Forall (fun y => y = x) l -> l = repeat x (length l).
Proof.
  induction 1 as [|y l Hy H IH]; simpl; [reflexivity|]. subst y.
  now rewrite <- IH.
Qed.

Lemma Linear_map2_const {X Y Z : Type} (f : X -> Y -> Z) (x : X) (y : Y)
    (i o : nat) :
  Linear_map2 f (const_Linear x i o) (const_Linear y i o) =
  const_Linear (f x y) i o.
Proof.
  unfold Linear_map2, const_Linear.
  cbn [weight bias in_features out_features].
  now rewrite !map2_repeat.
Qed.

Lemma AE_map2_const {X Y Z : Type} (f : X -> Y -> Z) (x : X) (y : Y)
    (n : nat) :
  AE_map2 f (const_AE x n) (const_AE y n) = const_AE (f x y) n.
Proof.
  unfold AE_map2, const_AE.
  cbn [encoder_hidden_layer encoder_output_layer decoder_hidden_layer
       decoder_output_layer].
  now rewrite !Linear_map2_const.
Qed.

Lemma Linear_map_const {X Y : Type} (f : X -> Y) (x : X) (i o : nat) :
  Linear_map f (const_Linear x i o) = const_Linear (f x) i o.
Proof.
  unfold Linear_map, const_Linear. cbn [weight bias in_features out_features].
  now rewrite !map_repeat.
Qed.

Lemma AE_map_const {X Y : Type} (f : X -> Y) (x : X) (n : nat) :
  AE_map f (const_AE x n) = const_AE (f x) n.
Proof.
  unfold AE_map, const_AE.
  cbn [encoder_hidden_layer encoder_output_layer decoder_hidden_layer
       decoder_output_layer].
  now rewrite !Linear_map_const.
Qed.

(** ** Zero tensors in exact real arithmetic *)

Local Open Scope R_scope.

Lemma fold_left_Rplus_zeros (l : list R) (a : R) :
  Forall (fun y => y = 0) l -> fold_left Rplus l a = a.
Proof.
  intros H. revert a. induction H as [|y l Hy H IH]; intros a; simpl.
  - reflexivity.
  - subst y. rewrite IH. lra.
Qed.

Lemma vsum_zeros (l : list R) : Forall (fun y => y = 0) l -> vsum l = 0.
Proof. intros H. unfold vsum. simpl. now apply fold_left_Rplus_zeros. Qed.

Lemma dot_zeros_r (x : list R) (n : nat) : dot x (repeat 0 n) = 0.
Proof.
  unfold dot. apply vsum_zeros. revert n.
  induction x as [|a x IH]; intros [|n]; simpl; constructor.
  - simpl. lra.
  - apply IH.
Qed.

Lemma dot_zeros_l (n : nat) (w : list R) : dot (repeat 0 n) w = 0.
Proof.
  unfold dot. apply vsum_zeros. revert w.
  induction n as [|n IH]; intros [|a w]; simpl; constructor.
  - simpl. lra.
  - apply IH.
Qed.

Lemma linear_out_zeros (i o : nat) (x : matrix R) :
  linear_out (const_Linear 0 i o) x = repeat (repeat 0 o) (length x).
Proof.
  unfold linear_out. apply map_const_repeat. intros row _.
  unfold const_Linear. simpl. rewrite map_repeat, dot_zeros_r.
  unfold vadd. rewrite map2_repeat. simpl. f_equal. lra.
Qed.

Lemma relu_zeros (r c : nat) :
  relu (repeat (repeat 0 c) r) = repeat (repeat 0 c) r.
Proof.
  unfold relu. rewrite !map_repeat. unfold relu1. simpl.
  now rewrite Rmax_left by lra.
Qed.

Lemma layers_zeros (n : nat) (x : matrix R) :
  layer1 (zeros_AE n) x = repeat (repeat 0 128%nat) (length x) /\
  layer2 (zeros_AE n) x = repeat (repeat 0 128%nat) (length x) /\
  layer3 (zeros_AE n) x = repeat (repeat 0 128%nat) (length x) /\
  layer4 (zeros_AE n) x = repeat (repeat 0 n) (length x).
Proof.
  assert (L1 : layer1 (zeros_AE n) x = repeat (repeat 0 128%nat) (length x)).
  { unfold layer1. simpl. now rewrite linear_out_zeros, relu_zeros. }
  assert (L2 : layer2 (zeros_AE n) x = repeat (repeat 0 128%nat) (length x)).
  { unfold layer2. rewrite L1. simpl.
    now rewrite linear_out_zeros, relu_zeros, repeat_length. }
  assert (L3 : layer3 (zeros_AE n) x = repeat (repeat 0 128%nat) (length x)).
  { unfold layer3. rewrite L2. simpl.
    now rewrite linear_out_zeros, relu_zeros, repeat_length. }
  repeat split; auto.
  unfold layer4. rewrite L3. simpl.
  now rewrite linear_out_zeros, relu_zeros, repeat_length.
Qed.

Lemma concat_repeat_all {X : Type} (x : X) (r c : nat) :
  Forall (fun y => y = x) (concat (repeat (repeat x c) r)).
Proof.
  induction r as [|r IH]; simpl; [constructor|].
  apply Forall_app. split; [|exact IH].
  apply Forall_forall. intros y Hy. now apply repeat_spec in Hy.
Qed.

Lemma mean_squared_error_zeros (r c : nat) :
  mean_squared_error (repeat (repeat 0 c) r) (repeat (repeat 0 c) r) = 0.
Proof.
  unfold mean_squared_error. simpl.
  rewrite vsum_zeros; [unfold Rdiv; lra|].
  generalize (concat_repeat_all 0 r c).
  generalize (concat (repeat (repeat 0 c) r)). intros l H.
  induction H as [|y l Hy H IH]; simpl; constructor; auto.
  subst y. lra.
Qed.

Lemma transpose_zeros (r c : nat) :
  (0 < r)%nat ->
  transpose (repeat (repeat 0 c) r) = repeat (repeat 0 r) c.
Proof.
  intros Hr. unfold transpose.
  replace (ncols (repeat (repeat 0 c) r)) with c.
  2:{ destruct r; [lia|]. simpl. now rewrite repeat_length. }
  transitivity (repeat (repeat 0 r) (length (seq 0%nat c)));
    [|now rewrite length_seq].
  apply map_const_repeat. intros j _. unfold col.
  rewrite map_repeat. f_equal. apply nth_repeat.
Qed.

Lemma matmul_zeros_l (r k : nat) (W : matrix R) :
  matmul (repeat (repeat 0 k) r) W =
  repeat (repeat 0 (length (transpose W))) r.
Proof.
  unfold matmul. rewrite map_repeat. f_equal.
  apply map_const_repeat. intros w _. apply dot_zeros_l.
Qed.

Lemma criterion_grad_zeros (r c : nat) :
  criterion_grad (repeat (repeat 0 c) r) (repeat (repeat 0 c) r) =
  repeat (repeat 0 c) r.
Proof.
  unfold criterion_grad. rewrite map2_repeat, map2_repeat.
  do 2 f_equal. simpl. unfold Rdiv. lra.
Qed.

Lemma relu_backward_zeros (r c : nat) :
  relu_backward (repeat (repeat 0 c) r) (repeat (repeat 0 c) r) =
  repeat (repeat 0 c) r.
Proof.
  unfold relu_backward. rewrite map2_repeat, map2_repeat.
  do 2 f_equal. simpl. now destruct (Rlt_dec 0 0).
Qed.

Lemma Linear_grad_input_zeros (i o n : nat) :
  (0 < o)%nat ->
  Linear_grad_input (const_Linear 0 i o) (repeat (repeat 0 o) n) =
  repeat (repeat 0 i) n.
Proof.
  intros Ho. unfold Linear_grad_input, const_Linear. cbn [weight].
  rewrite matmul_zeros_l, transpose_zeros by exact Ho.
  now rewrite repeat_length.
Qed.

Lemma Linear_grad_zeros (i o n : nat) :
  (0 < n)%nat ->
  Linear_grad (const_Linear 0 i o) (repeat (repeat 0 i) n)
              (repeat (repeat 0 o) n) =
  const_Linear 0 i o.
Proof.
  intros Hn. unfold Linear_grad, const_Linear, sum_rows.
  cbn [in_features out_features].
  rewrite !transpose_zeros by exact Hn.
  rewrite matmul_zeros_l, transpose_zeros by exact Hn.
  rewrite repeat_length, map_repeat.
  do 2 f_equal. apply vsum_zeros.
  apply Forall_forall. intros y Hy. now apply repeat_spec in Hy.
Qed.

Lemma backward_zeros (n : nat) :
  (0 < n)%nat ->
  backward (zeros_AE 784) (repeat (repeat 0 784%nat) n) = zeros_AE 784.
Proof.
  intros Hn. unfold backward. cbv zeta.
  destruct (layers_zeros 784 (repeat (repeat 0 784%nat) n))
    as (L1 & L2 & L3 & L4).
  rewrite repeat_length in L1, L2, L3, L4.
  rewrite L1, L2, L3, L4.
  rewrite criterion_grad_zeros, relu_backward_zeros.
  unfold zeros_AE, const_AE.
  cbn [encoder_hidden_layer encoder_output_layer decoder_hidden_layer
       decoder_output_layer zero R_scalar].
  rewrite (Linear_grad_input_zeros 128 784 n) by lia.
  rewrite relu_backward_zeros.
  rewrite (Linear_grad_input_zeros 128 128 n) by lia.
  rewrite relu_backward_zeros.
  rewrite (Linear_grad_input_zeros 128 128 n) by lia.
  rewrite relu_backward_zeros.
  now rewrite !Linear_grad_zeros by exact Hn.
Qed.

(** ** The optimizer step at zero *)

Lemma adam_exp_avg_zero (hp : AdamHyper R) : adam_exp_avg hp 0 0 = 0.
Proof. unfold adam_exp_avg. simpl. lra. Qed.

Lemma adam_exp_avg_sq_zero (hp : AdamHyper R) : adam_exp_avg_sq hp 0 0 = 0.
Proof. unfold adam_exp_avg_sq. simpl. lra. Qed.

Lemma adam_param_zero (hp : AdamHyper R) (t : nat) :
  adam_param hp t 0 (0, 0) = 0.
Proof.
  unfold adam_param, adam_update. simpl. unfold Rdiv.
  rewrite !Rmult_0_l, Rmult_0_r, Rmult_0_l. lra.
Qed.

Lemma Adam_step_zeros (hp : AdamHyper R) (t : nat) :
  Adam_step hp (mkAdamState t (zeros_AE 784) (zeros_AE 784))
            (zeros_AE 784) (zeros_AE 784) =
  (mkAdamState (S t) (zeros_AE 784) (zeros_AE 784), zeros_AE 784).
Proof.
  unfold Adam_step, zeros_AE. cbn [step exp_avg exp_avg_sq zero R_scalar].
  rewrite !AE_map2_const.
  now rewrite adam_exp_avg_zero, adam_exp_avg_sq_zero, adam_param_zero.
Qed.

(** ** Training on all-zero samples from all-zero parameters *)

Section ZeroTraining.
Context {G : Type} {RS : RandomSource G}.

(** Cell 13 with all parameters initialised to zero. *)
Lemma cell13_zero_state (nb : Notebook R G) :
  zero_state (cell13 (const_init 0) nb).
Proof.
  unfold zero_state, cell13, Adam_init.
  change (AE_init (const_init 0) 784 (rng nb))
    with (const_AE (X:=R) 0 784, rng nb).
  cbn [model optimizer with_model with_rng exp_avg exp_avg_sq].
  rewrite AE_map_const. repeat split.
Qed.

Lemma zero_state_inv (nb : Notebook R G) : zero_state nb -> train_inv nb.
Proof.
  intros (Hm & Ha & Hs). unfold train_inv. rewrite Hm, Ha, Hs.
  repeat split; apply zeros_AE_wf.
Qed.

Lemma zero_batch_rows (ds : dataset R) (n : nat) (x : matrix R) :
  all_zero_dataset ds -> mshape n 784 x ->
  Forall (fun row => In row (map (fun s => flatten_image (fst s)) ds)) x ->
  x = repeat (repeat 0 784%nat) n.
Proof.
  intros Hz [Hn Hlen] Hin. rewrite <- Hn. apply all_eq_repeat.
  rewrite Forall_forall in *. intros row Hrow.
  specialize (Hlen row Hrow). specialize (Hin row Hrow).
  apply in_map_iff in Hin as (s & <- & Hs).
  rewrite <- Hlen. apply all_eq_repeat.
  unfold all_zero_dataset in Hz. rewrite Forall_forall in Hz.
  exact (Hz s Hs).
Qed.

Lemma train_batch_zero (ds : dataset R) (nb : Notebook R G)
    (indices : list nat) :
  dataset_wf ds -> all_zero_dataset ds -> valid_batch ds indices ->
  zero_state nb ->
  exists nb1 : Notebook R G,
    train_batch ds nb indices = Ok (nb1, 0) /\
    zero_state nb1 /\ rng nb1 = rng nb /\ stdout nb1 = stdout nb /\
    step (optimizer nb1) = S (step (optimizer nb)).
Proof.
  intros Hds Hz Hb Hzs.
  destruct (train_batch_spec ds nb indices Hds (zero_state_inv nb Hzs) Hb)
    as (imgs & labels & x & nb1 & _ & _ & Hx & Hin & _ & Hstep & Htb
        & _ & Hr & Hs & Hc).
  pose proof (zero_batch_rows ds _ x Hz Hx Hin) as Ex.
  destruct Hb as [_ Hn].
  destruct Hzs as (Hm & Ha & Hv).
  exists nb1. split; [|split; [|auto]].
  - rewrite Htb. do 2 f_equal. rewrite Hm, Ex.
    destruct (layers_zeros 784 (repeat (repeat 0 784%nat) (length indices)))
      as (_ & _ & _ & L4).
    rewrite repeat_length in L4. rewrite L4.
    apply mean_squared_error_zeros.
  - unfold optimizer_step, loss_backward, zero_grad in Hstep.
    cbn [grad with_grad model optimizer] in Hstep.
    rewrite Hm, Ex, (backward_zeros _ Hn) in Hstep.
    destruct (optimizer nb) as [t m v] eqn:Eo.
    cbn [exp_avg exp_avg_sq] in Ha, Hv. subst m v.
    rewrite Adam_step_zeros in Hstep.
    injection Hstep as <-. unfold zero_state.
    cbn [model optimizer with_model exp_avg exp_avg_sq]. auto.
Qed.

Lemma train_batches_zero (ds : dataset R) (batches : list (list nat)) :
  dataset_wf ds -> all_zero_dataset ds ->
  Forall (valid_batch ds) batches ->
  forall nb : Notebook R G,
    zero_state nb ->
    exists nb' : Notebook R G,
      train_batches ds nb 0 batches = Ok (nb', 0) /\
      zero_state nb' /\ rng nb' = rng nb /\ stdout nb' = stdout nb /\
      step (optimizer nb') = (length batches + step (optimizer nb))%nat.
Proof.
  intros Hds Hz. induction 1 as [|indices rest Hb Hrest IH]; intros nb Hzs.
  - exists nb. simpl. auto.
  - destruct (train_batch_zero ds nb indices Hds Hz Hb Hzs)
      as (nb1 & Htb & Hzs1 & Hr1 & Hs1 & Hc1).
    destruct (IH nb1 Hzs1) as (nb' & Hrun & Hzs' & Hr' & Hs' & Hc').
    exists nb'. split.
    { simpl. rewrite Htb. cbn [bind fst snd].
      replace (0 + 0) with 0 by lra. exact Hrun. }
    split; [exact Hzs'|]. split; [congruence|]. split; [congruence|].
    simpl length. lia.
Qed.

Lemma epoch_loss_zero (loader : DataLoader R) (nb : Notebook R G) :
  randperm_permutes RS -> (0 < dl_batch_size loader)%nat ->
  dataset_wf (dl_dataset loader) -> all_zero_dataset (dl_dataset loader) ->
  (0 < length (dl_dataset loader))%nat -> zero_state nb ->
  exists nb' : Notebook R G,
    epoch_loss loader nb = Ok (nb', 0) /\
    zero_state nb' /\ stdout nb' = stdout nb /\
    step (optimizer nb') = (DataLoader_len loader + step (optimizer nb))%nat.
Proof.
  intros HP Hn Hds Hz Hs Hzs.
  pose proof (pass_valid loader (rng nb) HP Hn) as Hval.
  destruct (DataLoader_iter_pass loader (rng nb) HP Hn) as (_ & _ & _ & Hlen).
  pose proof (DataLoader_len_pos loader Hn Hs) as Hpos.
  unfold epoch_loss.
  destruct (DataLoader_iter loader (rng nb)) as [batches g].
  cbn [fst] in *.
  destruct (train_batches_zero (dl_dataset loader) batches Hds Hz Hval
              (with_rng nb g) Hzs)
    as (nb' & Hrun & Hzs' & _ & Hs' & Hc').
  exists nb'. cbn [zero R_scalar]. rewrite Hrun. cbn [bind fst snd].
  destruct (Nat.eqb_spec (DataLoader_len loader) 0) as [E|_]; [lia|].
  split.
  { do 2 f_equal. cbn [div R_scalar]. unfold Rdiv. lra. }
  rewrite <- Hlen. auto.
Qed.

Lemma for_epochs_zero (epochs : nat) (loader : DataLoader R)
    (range : list nat) :
  randperm_permutes RS -> (0 < dl_batch_size loader)%nat ->
  dataset_wf (dl_dataset loader) -> all_zero_dataset (dl_dataset loader) ->
  (0 < length (dl_dataset loader))%nat ->
  forall nb : Notebook R G,
    zero_state nb ->
    exists nb' : Notebook R G,
      for_epochs epochs loader nb range = Ok nb' /\
      zero_state nb' /\
      stdout nb' =
        stdout nb ++ map (fun epoch => report_line epoch epochs 0) range /\
      step (optimizer nb') =
        (length range * DataLoader_len loader + step (optimizer nb))%nat.
Proof.
  intros HP Hn Hds Hz Hs.
  induction range as [|epoch range IH]; intros nb Hzs.
  - exists nb. simpl. rewrite app_nil_r. auto.
  - destruct (epoch_loss_zero loader nb HP Hn Hds Hz Hs Hzs)
      as (nb1 & Hel & Hzs1 & Hs1 & Hc1).
    destruct (IH (print nb1 (report_line epoch epochs 0)) Hzs1)
      as (nb' & Hfor & Hzs' & Hout & Hc').
    exists nb'. split.
    { simpl. unfold train_epoch. rewrite Hel. cbn [bind fst snd].
      exact Hfor. }
    split; [exact Hzs'|]. split.
    { rewrite Hout. cbn [stdout print]. rewrite Hs1, <- app_assoc.
      reflexivity. }
    rewrite Hc'. cbn [optimizer print]. rewrite Hc1. simpl length. lia.
Qed.

End ZeroTraining.

Lemma constant_image_values {X : Type} (x : X) :
  Forall (fun v => v = x) (flatten_image (constant_image x)).
Proof.
  unfold flatten_image, constant_image.
  change (concat [repeat (repeat x 28) 28])
    with (repeat (repeat x 28) 28 ++ []).
  rewrite app_nil_r. apply concat_repeat_all.
Qed.

(** C9.  With a dataset of one sample whose 784 values are all zero and
    all parameters initialised to zero (a zero state, as cell 13 creates
    it from zero layers), every training step has loss exactly 0 and
    leaves the parameters and the moment estimates of the optimizer at
    zero; hence after any number [n] of epochs (one step each) the
    parameters are still zero and each of the [n] reported losses is 0,
    printed as 0.000000. *)
Theorem zero_sample_loss_stays_zero :
  forall (G : Type) (RS : RandomSource G) (im : image R) (label : nat)
         (n size : nat) (shuffle : bool) (nb : Notebook R G),
    randperm_permutes RS -> (0 < size)%nat ->
    image_shape im -> Forall (fun v => v = 0) (flatten_image im) ->
    zero_state nb ->
    (forall nb0 : Notebook R G, zero_state (cell13 (const_init 0) nb0)) /\
    (exists nb1 : Notebook R G,
       train_batch [(im, label)] nb [0%nat] = Ok (nb1, 0) /\
       zero_state nb1 /\
       step (optimizer nb1) = S (step (optimizer nb))) /\
    (exists nb' : Notebook R G,
       training_loop n (mkDataLoader [(im, label)] size shuffle) nb
         = Ok nb' /\
       zero_state nb' /\
       step (optimizer nb') = (n + step (optimizer nb))%nat /\
       stdout nb' =
         stdout nb ++
         map (fun epoch =>
                ("epoch : " ++ string_of_nat (epoch + 1) ++ "/"
                 ++ string_of_nat n ++ ", loss = 0.000000")%string)
             (seq 0 n)).
Proof.
  intros G RS im label n size shuffle nb HP Hsize Him Hzero Hzs.
  assert (Hds : dataset_wf [(im, label)]).
  { constructor; [exact Him | constructor]. }
  assert (Hz : all_zero_dataset [(im, label)]).
  { constructor; [exact Hzero | constructor]. }
  split; [exact cell13_zero_state|].
  split.
  - assert (Hb : valid_batch [(im, label)] [0%nat]).
    { split; [|simpl; lia]. constructor; [simpl; lia | constructor]. }
    destruct (train_batch_zero [(im, label)] nb [0%nat] Hds Hz Hb Hzs)
      as (nb1 & Htb & Hzs1 & _ & _ & Hc).
    exists nb1. auto.
  - destruct (for_epochs_zero n (mkDataLoader [(im, label)] size shuffle)
                (seq 0 n) HP Hsize Hds Hz ltac:(simpl; lia) nb Hzs)
      as (nb' & Hfor & Hzs' & Hout & Hc).
    exists nb'. split; [exact Hfor|]. split; [exact Hzs'|].
    split.
    2:{ rewrite Hout. f_equal. apply map_ext. intros epoch.
        unfold report_line. cbn [format6f R_scalar].
        now rewrite format6f_R_zero. }
    rewrite Hc, length_seq. unfold DataLoader_len.
    cbn [dl_dataset dl_batch_size length].
    replace (1 + size - 1)%nat with size by lia.
    rewrite Nat.div_same by lia. lia.
Qed.

(** Three epochs from the state cell 13 creates out of zero layers. *)
Lemma zero_sample_loss_stays_zero_witness :
  exists nb' : Notebook R nat,
    training_loop 3 (mkDataLoader [(constant_image 0, 5%nat)] 128 true)
      (cell13 (const_init 0)
         (mkNotebook 0%nat (zeros_AE 784) None (Adam_init (zeros_AE 784))
                     [] None None)) = Ok nb' /\
    model nb' = zeros_AE 784 /\
    step (optimizer nb') = 3%nat.
Proof.
  destruct (zero_sample_loss_stays_zero nat counter_source
              (constant_image 0) 5 3 128 true
              (cell13 (const_init 0)
                 (mkNotebook 0%nat (zeros_AE 784) None
                             (Adam_init (zeros_AE 784)) [] None None))
              counter_source_permutes
              ltac:(lia)
              (constant_image_shape 0)
              (constant_image_values 0)
              (cell13_zero_state _))
    as (_ & _ & nb' & Hrun & (Hm & _) & Hc & _).
  exists nb'. split; [exact Hrun|]. split; [exact Hm|].
  rewrite Hc. reflexivity.
Defined.

(** ** The size of one Adam update *)

Lemma div_lt_bound (a b c : R) : 0 < c -> a < b * c -> a / c < b.
Proof.
  intros Hc H. apply Rmult_lt_reg_r with c; [exact Hc|].
  unfold Rdiv. rewrite Rmult_assoc, Rinv_l; lra.
Qed.

Lemma lt_div_bound (a b c : R) : 0 < c -> a * c < b -> a < b / c.
Proof.
  intros Hc H. apply Rmult_lt_reg_r with c; [exact Hc|].
  unfold Rdiv. rewrite Rmult_assoc, Rinv_l; lra.
Qed.

Lemma optimizer_hyper_ok : hyper_ok optimizer_hyper.
Proof. unfold hyper_ok, optimizer_hyper, Adam_defaults. simpl. lra. Qed.

(** At the first step the bias-corrected estimates are the gradient and
    its square, so the update is [lr * g / (|g| + eps)]. *)
Lemma adam_first_update (hp : AdamHyper R) (g : R) :
  hyper_ok hp ->
  adam_update hp 1 (adam_exp_avg hp 0 g) (adam_exp_avg_sq hp 0 g) =
  lr hp * g / (Rabs g + eps hp).
Proof.
  intros (Hlr & Hb1 & Hb2 & Heps).
  unfold adam_update, adam_exp_avg, adam_exp_avg_sq. simpl.
  replace ((beta1 hp * 0 + (1 - beta1 hp) * g) / (1 - beta1 hp * 1))
    with g by (field; lra).
  replace ((beta2 hp * 0 + (1 - beta2 hp) * (g * g)) / (1 - beta2 hp * 1))
    with (Rsqr g) by (unfold Rsqr; field; lra).
  now rewrite sqrt_Rsqr_abs.
Qed.

Lemma spow_pow (b : R) (n : nat) : spow b n = b ^ n.
Proof.
  induction n as [|n IH]; simpl; [reflexivity | now rewrite IH].
Qed.

(** The update in the form in which torch computes it: with step size
    [lr / (1 - beta1^t)] and denominator
    [sqrt(v) / sqrt(1 - beta2^t) + eps]. *)
Lemma adam_update_as_computed (hp : AdamHyper R) (t : nat) (m v : R) :
  hyper_ok hp -> (0 < t)%nat -> 0 <= v ->
  adam_update hp t m v =
  lr hp / (1 - beta1 hp ^ t) * m
  / (sqrt v / sqrt (1 - beta2 hp ^ t) + eps hp).
Proof.
  intros (Hlr & Hb1 & Hb2 & Heps) Ht Hv.
  unfold adam_update. cbn [div mul sub add one ssqrt R_scalar].
  rewrite (spow_pow (beta1 hp)), (spow_pow (beta2 hp)).
  pose proof (pow_lt_1_compat (beta1 hp) t Hb1 Ht) as P1.
  pose proof (pow_lt_1_compat (beta2 hp) t Hb2 Ht) as P2.
  rewrite sqrt_div_alt by lra.
  assert (Hs : 0 < sqrt (1 - beta2 hp ^ t)) by (apply sqrt_lt_R0; lra).
  pose proof (sqrt_pos v) as Hsv.
  assert (Hq : 0 <= sqrt v / sqrt (1 - beta2 hp ^ t)).
  { apply Rmult_le_pos; [exact Hsv|].
    apply Rlt_le, Rinv_0_lt_compat, Hs. }
  set (D := sqrt v / sqrt (1 - beta2 hp ^ t) + eps hp) in *.
  assert (HD : D <> 0) by (unfold D; lra).
  field. split; [lra | exact HD].
Qed.

Lemma adam_first_step_bound (hp : AdamHyper R) (p g : R) :
  hyper_ok hp -> g <> 0 ->
  let p' := adam_param hp 1 p (adam_exp_avg hp 0 g, adam_exp_avg_sq hp 0 g) in
  0 < Rabs (p' - p) < lr hp.
Proof.
  intros Hhp Hg p'. unfold p', adam_param. cbn [fst snd sub R_scalar].
  rewrite (adam_first_update hp g Hhp).
  destruct Hhp as (Hlr & _ & _ & Heps).
  destruct (Rcase_abs g) as [Hneg|Hpos].
  - rewrite (Rabs_left g Hneg).
    set (q := lr hp * (- g) / (- g + eps hp)).
    assert (Hq : 0 < q < lr hp).
    { unfold q. split.
      - apply Rdiv_lt_0_compat; nra.
      - apply div_lt_bound; nra. }
    replace (p - lr hp * g / (- g + eps hp) - p) with q
      by (unfold q; field; lra).
    rewrite Rabs_right; lra.
  - assert (Hg' : 0 < g) by lra.
    rewrite (Rabs_right g Hpos).
    set (q := lr hp * g / (g + eps hp)).
    assert (Hq : 0 < q < lr hp).
    { unfold q. split.
      - apply Rdiv_lt_0_compat; nra.
      - apply div_lt_bound; nra. }
    replace (p - q - p) with (- q) by lra.
    rewrite Rabs_left; lra.
Qed.

(** The first step of the notebook's optimizer on a parameter at 1 with
    gradient 2. *)
Example adam_first_step_value :
  adam_param optimizer_hyper 1 1
    (adam_exp_avg optimizer_hyper 0 2, adam_exp_avg_sq optimizer_hyper 0 2)
  = 1 - 1 / 1000 * 2 / (2 + 1 / 100000000).
Proof.
  unfold adam_param. cbn [fst snd sub R_scalar].
  rewrite (adam_first_update optimizer_hyper 2 optimizer_hyper_ok).
  rewrite Rabs_right by lra. reflexivity.
Qed.

(** ** The elements of parameter-shaped records *)

Lemma map2_app {X Y Z : Type} (f : X -> Y -> Z) (l1 l2 : list X)
    (k1 k2 : list Y) :
  length l1 = length k1 ->
  map2 f (l1 ++ l2) (k1 ++ k2) = map2 f l1 k1 ++ map2 f l2 k2.
Proof.
  revert k1. induction l1 as [|x l1 IH]; intros [|y k1] H;
    simpl in *; try discriminate; auto.
  f_equal. apply IH. lia.
Qed.

Lemma concat_map2 {X Y Z : Type} (f : X -> Y -> Z) (r c : nat)
    (a : matrix X) (b : matrix Y) :
  mshape r c a -> mshape r c b ->
  concat (map2 (map2 f) a b) = map2 f (concat a) (concat b).
Proof.
  intros [Ha1 Ha2] [Hb1 Hb2]. clear Ha1 Hb1. revert b Hb2.
  induction Ha2 as [|ra a Hra Ha IH]; intros b Hb2.
  - destruct b; reflexivity.
  - destruct Hb2 as [|rb b Hrb Hb]; simpl.
    + now destruct (ra ++ concat a).
    + rewrite map2_app by congruence. f_equal. now apply IH.
Qed.

Lemma Linear_elements_length {X : Type} (i o : nat) (l : Linear X) :
  Linear_wf i o l -> length (Linear_elements l) = (i * o + o)%nat.
Proof.
  intros (_ & _ & [W1 W2] & B). unfold Linear_elements.
  now rewrite length_app, (concat_length_uniform i _ W2), W1, B.
Qed.

Lemma Linear_elements_map2 {X Y Z : Type} (f : X -> Y -> Z) (i o : nat)
    (l1 : Linear X) (l2 : Linear Y) :
  Linear_wf i o l1 -> Linear_wf i o l2 ->
  Linear_elements (Linear_map2 f l1 l2) =
  map2 f (Linear_elements l1) (Linear_elements l2).
Proof.
  intros (_ & _ & W1 & B1) (_ & _ & W2 & B2).
  unfold Linear_elements, Linear_map2. cbn [weight bias].
  rewrite (concat_map2 f o i _ _ W1 W2).
  rewrite map2_app; [reflexivity|].
  destruct W1 as [L1 R1], W2 as [L2 R2].
  now rewrite (concat_length_uniform i _ R1),
              (concat_length_uniform i _ R2), L1, L2.
Qed.

Lemma AE_elements_map2 {X Y Z : Type} (f : X -> Y -> Z) (n : nat)
    (a : AE X) (b : AE Y) :
  AE_wf n a -> AE_wf n b ->
  AE_elements (AE_map2 f a b) = map2 f (AE_elements a) (AE_elements b).
Proof.
  intros (A1 & A2 & A3 & A4) (B1 & B2 & B3 & B4).
  unfold AE_elements, AE_map2.
  cbn [encoder_hidden_layer encoder_output_layer decoder_hidden_layer
       decoder_output_layer].
  rewrite !(Linear_elements_map2 f _ _ _ _) by eassumption.
  rewrite map2_app
    by now rewrite (Linear_elements_length _ _ _ A1),
                   (Linear_elements_length _ _ _ B1).
  f_equal.
  rewrite map2_app
    by now rewrite (Linear_elements_length _ _ _ A2),
                   (Linear_elements_length _ _ _ B2).
  f_equal.
  rewrite map2_app
    by now rewrite (Linear_elements_length _ _ _ A3),
                   (Linear_elements_length _ _ _ B3).
  reflexivity.
Qed.

Lemma AE_elements_length_eq {X Y : Type} (n : nat) (a : AE X) (b : AE Y) :
  AE_wf n a -> AE_wf n b ->
  length (AE_elements a) = length (AE_elements b).
Proof.
  intros (A1 & A2 & A3 & A4) (B1 & B2 & B3 & B4).
  unfold AE_elements. rewrite !length_app.
  rewrite (Linear_elements_length _ _ _ A1), (Linear_elements_length _ _ _ B1),
    (Linear_elements_length _ _ _ A2), (Linear_elements_length _ _ _ B2),
    (Linear_elements_length _ _ _ A3), (Linear_elements_length _ _ _ B3),
    (Linear_elements_length _ _ _ A4), (Linear_elements_length _ _ _ B4).
  reflexivity.
Qed.

Lemma AE_elements_map {X Y : Type} (f : X -> Y) (a : AE X) :
  AE_elements (AE_map f a) = map f (AE_elements a).
Proof.
  unfold AE_elements, AE_map, Linear_elements, Linear_map.
  cbn [encoder_hidden_layer encoder_output_layer decoder_hidden_layer
       decoder_output_layer weight bias].
  now rewrite !map_app, !concat_map.
Qed.

(** The first step, element by element. *)
Lemma first_step_elements {X : Type} (F : X -> X * X -> X)
    (f1 f2 : X -> X -> X) (z : X) (ps gs : list X) :
  length ps = length gs ->
  map2 F ps (map2 pair (map2 f1 (map (fun _ => z) ps) gs)
                       (map2 f2 (map (fun _ => z) ps) gs)) =
  map2 (fun p g => F p (f1 z g, f2 z g)) ps gs.
Proof.
  revert gs. induction ps as [|p ps IH]; intros [|g gs] H;
    simpl in *; try discriminate; auto.
  f_equal. apply IH. lia.
Qed.

Lemma adam_first_step_formula (hp : AdamHyper R) (p g : R) :
  hyper_ok hp ->
  adam_param hp 1 p (adam_exp_avg hp 0 g, adam_exp_avg_sq hp 0 g) =
  p - lr hp * g / (Rabs g + eps hp).
Proof.
  intros Hhp. unfold adam_param. cbn [fst snd sub R_scalar].
  now rewrite (adam_first_update hp g Hhp).
Qed.

Lemma first_step_direction (hp : AdamHyper R) (p g : R) :
  hyper_ok hp ->
  let p' := p - lr hp * g / (Rabs g + eps hp) in
  (0 < g -> p' < p) /\ (g < 0 -> p < p') /\ (g = 0 -> p' = p).
Proof.
  intros (Hlr & _ & _ & Heps) p'. unfold p'.
  pose proof (Rabs_pos g) as Ha.
  assert (Hd : 0 < / (Rabs g + eps hp)) by (apply Rinv_0_lt_compat; lra).
  unfold Rdiv. repeat split; intros Hg.
  - assert (0 < lr hp * g * / (Rabs g + eps hp)); [|lra].
    apply Rmult_lt_0_compat; [|exact Hd]. now apply Rmult_lt_0_compat.
  - assert (0 < lr hp * (- g) * / (Rabs g + eps hp)); [|lra].
    apply Rmult_lt_0_compat; [|exact Hd]. apply Rmult_lt_0_compat; lra.
  - subst g. lra.
Qed.

Lemma map2_nth_error {X Y Z : Type} (f : X -> Y -> Z) (xs : list X)
    (ys : list Y) (k : nat) (x : X) (y : Y) :
  nth_error xs k = Some x -> nth_error ys k = Some y ->
  nth_error (map2 f xs ys) k = Some (f x y).
Proof.
  revert ys k. induction xs as [|x0 xs IH]; intros [|y0 ys] [|k] Hx Hy;
    simpl in *; try discriminate.
  - injection Hx as ->. injection Hy as ->. reflexivity.
  - now apply IH.
Qed.

(** The parameters after the first step of a fresh optimizer, element
    by element. *)
Lemma first_step_params (hp : AdamHyper R) (n : nat) (params grads : AE R) :
  AE_wf n params -> AE_wf n grads ->
  AE_elements (snd (Adam_step hp (Adam_init params) params grads)) =
  map2 (fun p g =>
          adam_param hp 1 p (adam_exp_avg hp 0 g, adam_exp_avg_sq hp 0 g))
       (AE_elements params) (AE_elements grads).
Proof.
  intros Hp Hg.
  pose proof (AE_map_wf (fun _ : R => 0) n params Hp) as Hz.
  unfold Adam_step, Adam_init. cbn [snd step exp_avg exp_avg_sq].
  change (@zero R R_scalar) with 0.
  set (zs := AE_map (fun _ : R => 0) params) in *.
  pose proof (AE_map2_wf (adam_exp_avg hp) n zs grads Hz Hg) as Hm.
  pose proof (AE_map2_wf (adam_exp_avg_sq hp) n zs grads Hz Hg) as Hv.
  pose proof (AE_map2_wf pair n _ _ Hm Hv) as Hmv.
  rewrite (AE_elements_map2 _ n _ _ Hp Hmv).
  rewrite (AE_elements_map2 _ n _ _ Hm Hv).
  rewrite (AE_elements_map2 _ n _ _ Hz Hg).
  rewrite (AE_elements_map2 _ n _ _ Hz Hg).
  unfold zs. rewrite AE_elements_map.
  apply first_step_elements.
  exact (AE_elements_length_eq n params grads Hp Hg).
Qed.

(** ** The stored parameter *)

(** A value of the format is stored as it is. *)
Lemma rounds_to_nearest_fixes (F : R -> Prop) (rnd : R -> R) (p : R) :
  rounds_to_nearest F rnd -> F p -> rnd p = p.
Proof.
  intros (_ & Hnear & _) Hp. pose proof (Hnear p p Hp) as H.
  replace (p - p) with 0 in H by lra. rewrite Rabs_R0 in H.
  pose proof (Rabs_pos (rnd p - p)) as H0.
  assert (E : Rabs (rnd p - p) = 0) by lra.
  destruct (Req_dec (rnd p - p) 0) as [E0|E0]; [lra|].
  now apply Rabs_no_R0 in E0.
Qed.

(** Storing [p - u], for a value [p] of the format, moves [p] by at most
    twice [|u|], and never against the sign of [- u]. *)
Lemma stored_step (F : R -> Prop) (rnd : R -> R) (p u : R) :
  rounds_to_nearest F rnd -> F p ->
  Rabs (rnd (p - u) - p) <= 2 * Rabs u /\
  (0 <= u -> rnd (p - u) <= p) /\ (u <= 0 -> p <= rnd (p - u)).
Proof.
  intros Hr Hp. pose proof (rounds_to_nearest_fixes F rnd p Hr Hp) as Hfix.
  destruct Hr as (_ & Hnear & Hmono). split; [|split].
  - pose proof (Hnear (p - u) p Hp) as H.
    replace (p - (p - u)) with u in H by lra.
    replace (rnd (p - u) - p) with ((rnd (p - u) - (p - u)) + - u) by lra.
    eapply Rle_trans; [apply Rabs_triang|]. rewrite Rabs_Ropp. lra.
  - intros Hu. rewrite <- Hfix at 2. apply Hmono. lra.
  - intros Hu. rewrite <- Hfix at 1. apply Hmono. lra.
Qed.

Lemma Rabs_le_bounds (a b : R) : Rabs a <= b -> - b <= a <= b.
Proof. unfold Rabs. destruct (Rcase_abs a); lra. Qed.

(** The integers are a format, with rounding half to even. *)
Lemma round_half_even_monotone (x y : R) :
  x <= y -> (round_half_even x <= round_half_even y)%Z.
Proof.
  intros Hxy.
  destruct (Z_le_gt_dec (round_half_even x) (round_half_even y)) as [H|H];
    [exact H | exfalso].
  pose proof (round_half_even_nearest x) as Hx.
  pose proof (round_half_even_nearest y) as Hy.
  apply Rabs_le_bounds in Hx, Hy.
  assert (H1 : IZR (round_half_even y) + 1 <= IZR (round_half_even x)).
  { rewrite <- plus_IZR. apply IZR_le. lia. }
  assert (E : x = y) by lra.
  subst y. lia.
Qed.

Lemma integers_round_to_nearest :
  rounds_to_nearest (fun x => exists z : Z, x = IZR z)
                    (fun x => IZR (round_half_even x)).
Proof.
  split; [|split].
  - intros x. now exists (round_half_even x).
  - intros x y [z ->].
    pose proof (round_half_even_nearest x) as Hx.
    destruct (Z.eq_dec z (round_half_even x)) as [->|Hne]; [lra|].
    apply Rle_trans with (1 / 2); [exact Hx|].
    destruct (Rle_dec (1 / 2) (Rabs (IZR z - x))) as [H|H]; [exact H|].
    exfalso. apply Hne.
    apply Rabs_le_bounds in Hx.
    assert (Hz : Rabs (IZR z - x) < 1 / 2) by lra.
    apply Rabs_def2 in Hz.
    assert (H1 : (z - round_half_even x < 1)%Z).
    { apply lt_IZR. rewrite minus_IZR. lra. }
    assert (H2 : (-1 < z - round_half_even x)%Z).
    { apply lt_IZR. rewrite minus_IZR. lra. }
    lia.
  - intros x y Hxy. apply IZR_le. now apply round_half_even_monotone.
Qed.

(** C5 (amended).  At the first optimizer step, with the moment
    estimates at zero, the step [param -= lr * m_hat / (sqrt(v_hat) +
    eps)] takes from every parameter element the update
    [lr * g / (|g| + eps)], [g] being the gradient of the element.  In
    exact arithmetic the update of an element whose gradient is not zero
    is not zero and smaller than [lr] in absolute value, and the update
    of an element whose gradient is zero is zero.  The tensors hold the
    values of a number format: the update is computed with a relative
    error [d] of at most 1, and the parameter is stored rounded to a
    nearest value of the format.  What is stored differs from the
    parameter before the step by at most [2 * (1 + d)] times the exact
    update, hence by less than [2 * (1 + d) * lr], and never in the
    direction of the gradient; it can differ by more than [lr], and not
    at all. *)
Theorem first_adam_step_bounded_by_lr :
  forall (hp : AdamHyper R) (n : nat) (params grads : AE R),
    hyper_ok hp -> AE_wf n params -> AE_wf n grads ->
    forall (k : nat) (p g : R),
      nth_error (AE_elements params) k = Some p ->
      nth_error (AE_elements grads) k = Some g ->
      let update :=
        adam_update hp 1 (adam_exp_avg hp 0 g) (adam_exp_avg_sq hp 0 g) in
      nth_error
        (AE_elements (snd (Adam_step hp (Adam_init params) params grads))) k
        = Some (p - update) /\
      update = lr hp * g / (Rabs g + eps hp) /\
      (g <> 0 -> 0 < Rabs update < lr hp) /\
      (g = 0 -> update = 0) /\
      (forall (F : R -> Prop) (rnd : R -> R) (computed d : R),
         rounds_to_nearest F rnd -> F p ->
         0 <= d <= 1 -> Rabs (computed - update) <= d * Rabs update ->
         Rabs (rnd (p - computed) - p) <= 2 * (1 + d) * Rabs update /\
         Rabs (rnd (p - computed) - p) < 2 * (1 + d) * lr hp /\
         (0 <= g -> rnd (p - computed) <= p) /\
         (g <= 0 -> p <= rnd (p - computed))).
Proof.
  intros hp n params grads Hhp Hp Hg k p g Hkp Hkg update.
  assert (Hu : update = lr hp * g / (Rabs g + eps hp)).
  { apply (adam_first_update hp g Hhp). }
  assert (Hnz : g <> 0 -> 0 < Rabs update < lr hp).
  { intros Hgz. pose proof (adam_first_step_bound hp p g Hhp Hgz) as H.
    cbv zeta in H. unfold adam_param in H. cbn [fst snd sub R_scalar] in H.
    fold update in H.
    replace (p - update - p) with (- update) in H by lra.
    now rewrite Rabs_Ropp in H. }
  assert (Hz : g = 0 -> update = 0).
  { intros ->. rewrite Hu. unfold Rdiv. lra. }
  assert (Hlt : Rabs update < lr hp).
  { destruct (Req_dec g 0) as [E|E].
    - rewrite (Hz E), Rabs_R0. apply Hhp.
    - apply (Hnz E). }
  split.
  { rewrite (first_step_params hp n params grads Hp Hg).
    exact (map2_nth_error
             (fun p g => adam_param hp 1 p
                           (adam_exp_avg hp 0 g, adam_exp_avg_sq hp 0 g))
             _ _ k p g Hkp Hkg). }
  split; [exact Hu|]. split; [exact Hnz|]. split; [exact Hz|].
  intros F rnd computed d Hr HF Hd Hc.
  destruct (stored_step F rnd p computed Hr HF) as (Hb & Hpos & Hneg).
  destruct (first_step_direction hp 0 g Hhp) as (Dp & Dn & Dz).
  rewrite <- Hu in Dp, Dn, Dz.
  pose proof (Rabs_pos update) as Hu0.
  assert (Hcu : Rabs computed <= (1 + d) * Rabs update).
  { replace computed with (update + (computed - update)) by lra.
    eapply Rle_trans; [apply Rabs_triang|]. lra. }
  assert (Hdu : d * Rabs update <= Rabs update) by nra.
  apply Rabs_le_bounds in Hc.
  split; [lra|]. split; [nra|]. split.
  - intros H0. apply Hpos.
    destruct (Req_dec g 0) as [E|E].
    + rewrite (Hz E), Rabs_R0 in Hc. lra.
    + assert (Hgp : 0 < g) by lra. specialize (Dp Hgp).
      rewrite (Rabs_right update) in Hc, Hdu by lra. lra.
  - intros H0. apply Hneg.
    destruct (Req_dec g 0) as [E|E].
    + rewrite (Hz E), Rabs_R0 in Hc. lra.
    + assert (Hgn : g < 0) by lra. specialize (Dn Hgn).
      rewrite (Rabs_left update) in Hc, Hdu by lra. lra.
Qed.

Lemma const_Linear_elements {X : Type} (x : X) (i o : nat) :
  Forall (fun y => y = x) (Linear_elements (const_Linear x i o)).
Proof.
  unfold Linear_elements, const_Linear. cbn [weight bias].
  apply Forall_app. split; [apply concat_repeat_all|].
  apply Forall_forall. intros y Hy. now apply repeat_spec in Hy.
Qed.

Lemma const_AE_elements {X : Type} (x : X) (n : nat) :
  Forall (fun y => y = x) (AE_elements (const_AE x n)).
Proof.
  unfold AE_elements, const_AE.
  cbn [encoder_hidden_layer encoder_output_layer decoder_hidden_layer
       decoder_output_layer].
  apply Forall_app; split; [apply const_Linear_elements|].
  apply Forall_app; split; [apply const_Linear_elements|].
  apply Forall_app; split; apply const_Linear_elements.
Qed.

Lemma const_AE_elements_nonzero (x : R) (n : nat) :
  x <> 0 -> Forall (fun g => g <> 0) (AE_elements (const_AE x n)).
Proof.
  intros Hx. eapply Forall_impl; [|apply const_AE_elements].
  intros y ->. exact Hx.
Qed.

Lemma const_AE_elements_first {X : Type} (x : X) (n : nat) :
  nth_error (AE_elements (const_AE x (S n))) 0 = Some x.
Proof. reflexivity. Qed.

Lemma zeros_AE_elements_first (n : nat) :
  nth_error (AE_elements (zeros_AE (A:=R) (S n))) 0 = Some 0.
Proof. unfold zeros_AE. exact (const_AE_elements_first 0 n). Qed.

(** The first step of the notebook's optimizer on a zero model with
    every gradient element at 2: the update of the first element is
    between 0 and 1/1000, and in a format that has the integers only,
    with the update computed exactly, the element stays within 2/1000
    of where it is. *)
Lemma first_adam_step_bounded_by_lr_witness :
  let update :=
    adam_update optimizer_hyper 1 (adam_exp_avg optimizer_hyper 0 2)
                (adam_exp_avg_sq optimizer_hyper 0 2) in
  nth_error
    (AE_elements (snd (Adam_step optimizer_hyper (Adam_init (zeros_AE 784))
                                 (zeros_AE 784) (const_AE 2 784)))) 0
    = Some (0 - update) /\
  0 < Rabs update < 1 / 1000 /\
  Rabs (IZR (round_half_even (0 - update)) - 0) < 2 * (1 + 0) * (1 / 1000).
Proof.
  intros update.
  destruct (first_adam_step_bounded_by_lr optimizer_hyper 784
              (zeros_AE 784) (const_AE 2 784)
              optimizer_hyper_ok (zeros_AE_wf 784) (const_AE_wf 2 784)
              0%nat 0 2 (zeros_AE_elements_first 783)
              (const_AE_elements_first 2 783))
    as (Hk & _ & Hb & _ & Hr).
  split; [exact Hk|]. split; [apply Hb; lra|].
  apply (Hr _ _ update 0 integers_round_to_nearest).
  - now exists 0%Z.
  - lra.
  - fold update. replace (update - update) with 0 by lra.
    rewrite Rabs_R0. lra.
Defined.

(** ** A second step larger than the learning rate *)

Lemma Adam_step_const (hp : AdamHyper R) (t n : nat) (m v p g : R) :
  Adam_step hp (mkAdamState t (const_AE m n) (const_AE v n))
            (const_AE p n) (const_AE g n) =
  (mkAdamState (S t) (const_AE (adam_exp_avg hp m g) n)
               (const_AE (adam_exp_avg_sq hp v g) n),
   const_AE (adam_param hp (S t) p
               (adam_exp_avg hp m g, adam_exp_avg_sq hp v g)) n).
Proof.
  unfold Adam_step. cbn [step exp_avg exp_avg_sq].
  now rewrite !AE_map2_const.
Qed.

Lemma const_AE_elements_head {X : Type} (x : X) (n : nat) :
  exists rest : list X, AE_elements (const_AE x (S n)) = x :: rest.
Proof. eexists. reflexivity. Qed.

(** The moment estimates after a first step with gradient 9/10 and a
    second step with gradient 1, for the optimizer of the notebook. *)
Lemma second_update_exceeds_lr :
  let hp := optimizer_hyper (A:=R) in
  let m1 := adam_exp_avg hp 0 (9 / 10) in
  let v1 := adam_exp_avg_sq hp 0 (9 / 10) in
  let m2 := adam_exp_avg hp m1 1 in
  let v2 := adam_exp_avg_sq hp v1 1 in
  lr hp < adam_update hp 2 m2 v2.
Proof.
  cbv zeta. unfold adam_update, adam_exp_avg, adam_exp_avg_sq,
    optimizer_hyper, Adam_defaults.
  cbn [lr beta1 beta2 eps spow one mul sub add div of_Z ssqrt R_scalar].
  replace ((9 / 10 * (9 / 10 * 0 + (1 - 9 / 10) * (9 / 10))
            + (1 - 9 / 10) * 1) / (1 - 9 / 10 * (9 / 10 * 1)))
    with (181 / 190) by (field; lra).
  replace ((999 / 1000 * (999 / 1000 * 0
              + (1 - 999 / 1000) * (9 / 10 * (9 / 10)))
            + (1 - 999 / 1000) * (1 * 1))
           / (1 - 999 / 1000 * (999 / 1000 * 1)))
    with (180919 / 199900) by (field; lra).
  assert (Hs : sqrt (180919 / 199900) < 952 / 1000).
  { rewrite <- (sqrt_square (952 / 1000)) by lra.
    apply sqrt_lt_1; lra. }
  pose proof (sqrt_pos (180919 / 199900)) as Hp.
  apply lt_div_bound; lra.
Qed.

(** From a fresh optimizer, a step with every gradient element at 9/10
    followed by a step with every gradient element at 1: the second step
    moves every parameter element by more than [lr], although its
    gradient is not zero. *)
Lemma second_step_exceeds_lr :
  let first := Adam_step optimizer_hyper (Adam_init (zeros_AE 784))
                         (zeros_AE 784) (const_AE (9 / 10) 784) in
  let second := Adam_step optimizer_hyper (fst first) (snd first)
                          (const_AE 1 784) in
  Forall (fun g => g <> 0) (AE_elements (const_AE 1 784)) /\
  ~ Forall2 (fun p p' => 0 < Rabs (p' - p) <= lr optimizer_hyper)
            (AE_elements (snd first)) (AE_elements (snd second)).
Proof.
  cbv zeta. split; [apply const_AE_elements_nonzero; lra|].
  unfold Adam_init, zeros_AE. rewrite AE_map_const.
  cbn [zero R_scalar].
  rewrite Adam_step_const. cbn [fst snd]. rewrite Adam_step_const.
  cbn [snd].
  destruct (const_AE_elements_head
              (adam_param optimizer_hyper 1 0
                 (adam_exp_avg optimizer_hyper 0 (9 / 10),
                  adam_exp_avg_sq optimizer_hyper 0 (9 / 10))) 783)
    as [r1 ->].
  match goal with
  | |- ~ Forall2 _ _ (AE_elements (const_AE ?x 784)) =>
      destruct (const_AE_elements_head x 783) as [r2 ->]
  end.
  intros H. apply Forall2_cons_iff in H as [[_ Hle] _].
  pose proof second_update_exceeds_lr as Hgt. cbv zeta in Hgt.
  unfold adam_param at 1 in Hle. cbn [fst snd sub R_scalar] in Hle.
  set (u := adam_update _ _ _ _) in *.
  set (p1 := adam_param _ _ _ _) in *.
  replace (p1 - u - p1) with (- u) in Hle by lra.
  assert (Hu : 0 < u).
  { eapply Rlt_trans; [|exact Hgt]. unfold optimizer_hyper. simpl. lra. }
  rewrite Rabs_left in Hle; lra.
Qed.

(** ** An element whose gradient is zero *)

(** The gradient of the first layer's weight with its first element at
    zero and every other element at 2, as it is for a pixel that is
    black in every image of the batch. *)
Lemma one_zero_grads_wf :
  AE_wf 784
    (mkAE (mkLinear 784 128
                    ((0 :: repeat 2 783) :: repeat (repeat 2 784) 127)
                    (repeat 2 128))
          (const_Linear 2 128 128) (const_Linear 2 128 128)
          (const_Linear 2 128 784)).
Proof.
  unfold AE_wf. cbn [encoder_hidden_layer encoder_output_layer
                     decoder_hidden_layer decoder_output_layer].
  split; [|split; [|split]]; try apply const_Linear_wf.
  unfold Linear_wf, mshape. cbn [in_features out_features weight bias].
  split; [reflexivity|]. split; [reflexivity|]. split; [split|].
  - cbn [length]. now rewrite repeat_length.
  - constructor.
    + cbn [length]. now rewrite repeat_length.
    + apply Forall_forall. intros row Hrow.
      apply repeat_spec in Hrow. subst row. apply repeat_length.
  - apply repeat_length.
Qed.

Lemma zero_gradient_element_stays :
  let grads :=
    mkAE (mkLinear 784 128
                   ((0 :: repeat 2 783) :: repeat (repeat 2 784) 127)
                   (repeat 2 128))
         (const_Linear 2 128 128) (const_Linear 2 128 128)
         (const_Linear 2 128 784) in
  let params' :=
    snd (Adam_step optimizer_hyper (Adam_init (zeros_AE 784))
                   (zeros_AE 784) grads) in
  nth_error (AE_elements grads) 0 = Some 0 /\
  nth_error (AE_elements grads) 1 = Some 2 /\
  nth_error (AE_elements (zeros_AE 784)) 0 = Some 0 /\
  nth_error (AE_elements params') 0 = Some 0.
Proof.
  intros grads params'.
  assert (Hg : nth_error (AE_elements grads) 0 = Some 0) by reflexivity.
  split; [exact Hg|]. split; [reflexivity|].
  split; [apply (zeros_AE_elements_first 783)|].
  unfold params'.
  rewrite (first_step_params optimizer_hyper 784 (zeros_AE 784) grads
             (zeros_AE_wf 784) one_zero_grads_wf).
  rewrite (map2_nth_error _ _ _ 0%nat 0 0 (zeros_AE_elements_first 783) Hg).
  f_equal. rewrite (adam_first_step_formula _ 0 0 optimizer_hyper_ok).
  unfold Rdiv. lra.
Qed.

(** C5, counterexample.  Two runs of the optimizer of the notebook on a
    model whose parameters are all zero.  In the first, a step with
    every gradient element at 9/10 is followed by a step with every
    gradient element at 1: the second step moves every parameter element
    by more than [lr], although its gradient is not zero.  In the other,
    the gradient of the first layer's weight is not zero, its second
    element being 2, but its first element is zero: the first step
    leaves the first element of the weight as it was. *)
Lemma adam_step_outside_claimed_bound :
  (let first := Adam_step optimizer_hyper (Adam_init (zeros_AE 784))
                          (zeros_AE 784) (const_AE (9 / 10) 784) in
   let second := Adam_step optimizer_hyper (fst first) (snd first)
                           (const_AE 1 784) in
   Forall (fun g => g <> 0) (AE_elements (const_AE 1 784)) /\
   ~ Forall2 (fun p p' => 0 < Rabs (p' - p) <= lr optimizer_hyper)
             (AE_elements (snd first)) (AE_elements (snd second))) /\
  (let grads :=
     mkAE (mkLinear 784 128
                    ((0 :: repeat 2 783) :: repeat (repeat 2 784) 127)
                    (repeat 2 128))
          (const_Linear 2 128 128) (const_Linear 2 128 128)
          (const_Linear 2 128 784) in
   let params' :=
     snd (Adam_step optimizer_hyper (Adam_init (zeros_AE 784))
                    (zeros_AE 784) grads) in
   nth_error (weight (encoder_hidden_layer grads)) 0
     = Some (0 :: repeat 2 783) /\
   nth_error (AE_elements grads) 0 = Some 0 /\
   nth_error (AE_elements grads) 1 = Some 2 /\
   nth_error (AE_elements (zeros_AE 784)) 0 = Some 0 /\
   nth_error (AE_elements params') 0 = Some 0).
Proof.
  split.
  - exact second_step_exceeds_lr.
  - cbv zeta. split; [reflexivity|]. exact zero_gradient_element_stays.
Qed.

(** ** What storing the parameter can do to the step *)

Lemma round_half_even_unique (x : R) (z : Z) :
  Rabs (IZR z - x) < 1 / 2 -> round_half_even x = z.
Proof.
  intros Hz. pose proof (round_half_even_nearest x) as Hx.
  apply Rabs_le_bounds in Hx. apply Rabs_def2 in Hz.
  assert (H1 : (round_half_even x - z < 1)%Z).
  { apply lt_IZR. rewrite minus_IZR. lra. }
  assert (H2 : (-1 < round_half_even x - z)%Z).
  { apply lt_IZR. rewrite minus_IZR. lra. }
  lia.
Qed.

(** The multiples of a positive step [s] are a format. *)
Lemma grid_rounds_to_nearest (s : R) :
  0 < s ->
  rounds_to_nearest (fun x => exists z : Z, x = IZR z * s)
                    (fun x => IZR (round_half_even (x / s)) * s).
Proof.
  intros Hs. destruct integers_round_to_nearest as (_ & Hnear & Hmono).
  split; [|split].
  - intros x. now exists (round_half_even (x / s)).
  - intros x y [z ->].
    specialize (Hnear (x / s) (IZR z) (ex_intro _ z eq_refl)).
    replace (IZR (round_half_even (x / s)) * s - x)
      with ((IZR (round_half_even (x / s)) - x / s) * s) by (field; lra).
    replace (IZR z * s - x) with ((IZR z - x / s) * s) by (field; lra).
    rewrite !Rabs_mult, (Rabs_right s) by lra.
    apply Rmult_le_compat_r; lra.
  - intros x y Hxy. apply Rmult_le_compat_r; [lra|].
    apply Hmono. unfold Rdiv. apply Rmult_le_compat_r; [|exact Hxy].
    left. now apply Rinv_0_lt_compat.
Qed.

(** The update of the first step for a gradient of -3. *)
Lemma first_update_at_minus_3 :
  let update :=
    adam_update optimizer_hyper 1 (adam_exp_avg optimizer_hyper 0 (-3))
                (adam_exp_avg_sq optimizer_hyper 0 (-3)) in
  - (1 / 1000) < update < - (999 / 1000000).
Proof.
  intros update. unfold update.
  rewrite (adam_first_update _ _ optimizer_hyper_ok).
  rewrite (Rabs_left (-3)) by lra.
  unfold optimizer_hyper, Adam_defaults.
  cbn [lr eps one div of_Z R_scalar].
  replace (- -3 + 1 / 100000000) with (300000001 / 100000000) by lra.
  split.
  - apply lt_div_bound; lra.
  - apply div_lt_bound; lra.
Qed.

(** In a format whose values are 3/2000 apart, the first step with a
    gradient of -3 moves a parameter stored as 0 by 3/2000, more than
    [lr]. *)
Example stored_step_may_exceed_lr :
  let update :=
    adam_update optimizer_hyper 1 (adam_exp_avg optimizer_hyper 0 (-3))
                (adam_exp_avg_sq optimizer_hyper 0 (-3)) in
  exists (F : R -> Prop) (rnd : R -> R),
    rounds_to_nearest F rnd /\ F 0 /\
    lr optimizer_hyper < Rabs (rnd (0 - update) - 0).
Proof.
  intros update. pose proof first_update_at_minus_3 as Hu.
  cbv zeta in Hu. fold update in Hu.
  exists (fun x => exists z : Z, x = IZR z * (3 / 2000)),
         (fun x => IZR (round_half_even (x / (3 / 2000))) * (3 / 2000)).
  split; [apply grid_rounds_to_nearest; lra|].
  split; [exists 0%Z; lra|].
  rewrite (round_half_even_unique ((0 - update) / (3 / 2000)) 1).
  - unfold optimizer_hyper, Adam_defaults. cbn [lr one div of_Z R_scalar].
    rewrite Rabs_right; lra.
  - replace ((0 - update) / (3 / 2000)) with (- update * (2000 / 3))
      by (field; lra).
    apply Rabs_def1; lra.
Qed.

(** In a format that has the integers only, the same step leaves a
    parameter stored as 1 where it is. *)
Example stored_step_may_vanish :
  let update :=
    adam_update optimizer_hyper 1 (adam_exp_avg optimizer_hyper 0 (-3))
                (adam_exp_avg_sq optimizer_hyper 0 (-3)) in
  exists (F : R -> Prop) (rnd : R -> R),
    rounds_to_nearest F rnd /\ F 1 /\ rnd (1 - update) = 1.
Proof.
  intros update. pose proof first_update_at_minus_3 as Hu.
  cbv zeta in Hu. fold update in Hu.
  exists (fun x => exists z : Z, x = IZR z),
         (fun x => IZR (round_half_even x)).
  split; [exact integers_round_to_nearest|].
  split; [now exists 1%Z|].
  rewrite (round_half_even_unique (1 - update) 1); [reflexivity|].
  apply Rabs_def1; lra.
Qed.

Local Close Scope R_scope.

(** ** Not-a-number gradients *)

Lemma xlift2_nan_r (f : R -> R -> R) (x : xreal) : xlift2 f x NaN = NaN.
Proof. now destruct x. Qed.

Lemma xlift2_nan_l (f : R -> R -> R) (y : xreal) : xlift2 f NaN y = NaN.
Proof. reflexivity. Qed.

Lemma xdiv_nan_l (y : xreal) : xdiv NaN y = NaN.
Proof. reflexivity. Qed.

Lemma adam_exp_avg_nan (hp : AdamHyper xreal) (m : xreal) :
  adam_exp_avg hp m NaN = NaN.
Proof.
  unfold adam_exp_avg. cbn [add sub mul XR_scalar].
  now rewrite !xlift2_nan_r.
Qed.

Lemma adam_exp_avg_sq_nan (hp : AdamHyper xreal) (v : xreal) :
  adam_exp_avg_sq hp v NaN = NaN.
Proof.
  unfold adam_exp_avg_sq. cbn [add sub mul XR_scalar].
  now rewrite !xlift2_nan_r.
Qed.

Lemma adam_param_nan (hp : AdamHyper xreal) (t : nat) (p m v : xreal) :
  adam_param hp t p (adam_exp_avg hp m NaN, adam_exp_avg_sq hp v NaN) = NaN.
Proof.
  unfold adam_param, adam_update, adam_exp_avg, adam_exp_avg_sq.
  cbn [fst snd add sub mul div XR_scalar].
  now rewrite !xlift2_nan_r.
Qed.

Lemma step_elements_nan (hp : AdamHyper xreal) (t : nat)
    (gs ps ms vs : list xreal) :
  length ps = length gs -> length ms = length gs ->
  length vs = length gs ->
  Forall2 (fun g p' => g = NaN -> p' = NaN) gs
    (map2 (adam_param hp t) ps
       (map2 pair (map2 (adam_exp_avg hp) ms gs)
                  (map2 (adam_exp_avg_sq hp) vs gs))).
Proof.
  revert ps ms vs.
  induction gs as [|g gs IH]; intros [|p ps] [|m ms] [|v vs] Hp Hm Hv;
    simpl in *; try discriminate; constructor.
  - intros ->. apply adam_param_nan.
  - apply IH; lia.
Qed.

Section NaNStep.
Context {G : Type} {RS : RandomSource G}.

(** The optimizer step returns normally whatever the gradients are. *)
Lemma optimizer_step_returns {A : Type} {SA : Scalar A}
    (nb : Notebook A G) :
  exists nb1 : Notebook A G, optimizer_step nb = Ok nb1.
Proof.
  unfold optimizer_step. destruct (grad nb) as [g|].
  - destruct (Adam_step optimizer_hyper (optimizer nb) (model nb) g).
    eexists. reflexivity.
  - eexists. reflexivity.
Qed.

Lemma optimizer_step_nan (nb : Notebook xreal G) (g : AE xreal) :
  train_inv nb -> grad nb = Some g -> AE_wf 784 g ->
  exists nb1 : Notebook xreal G,
    optimizer_step nb = Ok nb1 /\
    Forall2 (fun gi p' => gi = NaN -> p' = NaN)
            (AE_elements g) (AE_elements (model nb1)) /\
    train_inv nb1 /\ stdout nb1 = stdout nb.
Proof.
  intros (Hm & Ha & Hv) Hg Hwf.
  unfold optimizer_step. rewrite Hg.
  destruct (Adam_step_wf optimizer_hyper (optimizer nb) (model nb) g
              Hm Hwf Ha Hv) as (Hm' & Ha' & Hv' & _).
  unfold Adam_step in *. cbn [fst snd exp_avg exp_avg_sq] in *.
  eexists. split; [reflexivity|].
  cbn [model with_model optimizer stdout].
  split; [|split; [unfold train_inv; cbn [model optimizer exp_avg exp_avg_sq
                                          with_model]; auto | reflexivity]].
  pose proof (AE_map2_wf (adam_exp_avg optimizer_hyper) 784 _ _ Ha Hwf) as W1.
  pose proof (AE_map2_wf (adam_exp_avg_sq optimizer_hyper) 784 _ _ Hv Hwf)
    as W2.
  pose proof (AE_map2_wf pair 784 _ _ W1 W2) as W3.
  rewrite (AE_elements_map2 _ 784 _ _ Hm W3).
  rewrite (AE_elements_map2 _ 784 _ _ W1 W2).
  rewrite (AE_elements_map2 _ 784 _ _ Ha Hwf).
  rewrite (AE_elements_map2 _ 784 _ _ Hv Hwf).
  apply step_elements_nan.
  - apply (AE_elements_length_eq 784); assumption.
  - apply (AE_elements_length_eq 784); assumption.
  - apply (AE_elements_length_eq 784); assumption.
Qed.

End NaNStep.

(** C3 (amended).  A gradient that contains NaN does not make the
    optimizer step raise: the step returns normally, every parameter
    element whose gradient is NaN becomes NaN, and the training loop
    goes on from that state through all its epochs and prints a line
    for each of them. *)
Theorem nan_gradient_is_not_surfaced :
  forall (G : Type) (RS : RandomSource G) (n : nat)
         (loader : DataLoader xreal) (nb : Notebook xreal G)
         (g : AE xreal),
    randperm_permutes RS -> 0 < dl_batch_size loader ->
    dataset_wf (dl_dataset loader) -> 0 < length (dl_dataset loader) ->
    train_inv nb -> grad nb = Some g -> AE_wf 784 g ->
    exists nb1 : Notebook xreal G,
      optimizer_step nb = Ok nb1 /\
      Forall2 (fun gi p' => gi = NaN -> p' = NaN)
              (AE_elements g) (AE_elements (model nb1)) /\
      exists (lines : list string) (nb' : Notebook xreal G),
        training_loop n loader nb1 = Ok nb' /\
        stdout nb' = stdout nb ++ lines /\ length lines = n.
Proof.
  intros G RS n loader nb g HP Hn Hds Hs Hinv Hg Hwf.
  destruct (optimizer_step_nan nb g Hinv Hg Hwf)
    as (nb1 & Hstep & Hnan & Hinv1 & Hout1).
  exists nb1. split; [exact Hstep|]. split; [exact Hnan|].
  destruct (for_epochs_spec n loader (seq 0 n) HP Hn Hds Hs nb1 Hinv1)
    as (lines & nb' & Hfor & _ & Hout & Hlen & _).
  exists lines, nb'. rewrite length_seq in Hlen. rewrite <- Hout1.
  auto.
Qed.

(** A model at 1 whose gradients are all NaN, then two epochs over
    three samples. *)
Lemma nan_gradient_is_not_surfaced_witness :
  exists nb1 : Notebook xreal nat,
    optimizer_step
      (mkNotebook 0 (const_AE (Fin 1) 784) (Some (const_AE NaN 784))
                  (Adam_init (const_AE (Fin 1) 784)) [] None None)
      = Ok nb1 /\
    exists (lines : list string) (nb' : Notebook xreal nat),
      training_loop 2
        (mkDataLoader (repeat (constant_image (Fin 0), 0) 3) 2 true) nb1
        = Ok nb' /\ length lines = 2.
Proof.
  destruct (nan_gradient_is_not_surfaced nat counter_source 2
              (mkDataLoader (repeat (constant_image (Fin 0), 0) 3) 2 true)
              (mkNotebook 0 (const_AE (Fin 1) 784) (Some (const_AE NaN 784))
                          (Adam_init (const_AE (Fin 1) 784)) [] None None)
              (const_AE NaN 784)
              counter_source_permutes
              ltac:(simpl; lia)
              (constant_dataset_wf (Fin 0) 0 3)
              ltac:(simpl; lia)
              (conj (const_AE_wf (Fin 1) 784)
                    (Adam_init_wf _ (const_AE_wf (Fin 1) 784)))
              eq_refl
              (const_AE_wf NaN 784))
    as (nb1 & Hstep & _ & lines & nb' & Hrun & _ & Hlen).
  exists nb1. split; [exact Hstep|]. exists lines, nb'. auto.
Defined.

(** C3, counterexample.  With every gradient element at NaN, the
    optimizer step does not raise: it returns a state in which every
    parameter is NaN. *)
Lemma nan_gradient_step_does_not_raise :
  let nb := mkNotebook 0 (const_AE (Fin 1) 784) (Some (const_AE NaN 784))
                       (Adam_init (const_AE (Fin 1) 784)) [] None None in
  In NaN (AE_elements (const_AE NaN 784)) /\
  (exists nb1 : Notebook xreal nat,
     optimizer_step nb = Ok nb1 /\ model nb1 = const_AE NaN 784) /\
  ~ (exists e : exn, optimizer_step nb = Raise e).
Proof.
  cbv zeta.
  assert (E : optimizer_step
                (mkNotebook 0 (const_AE (Fin 1) 784)
                   (Some (const_AE NaN 784))
                   (Adam_init (const_AE (Fin 1) 784)) [] None None) =
              Ok (mkNotebook 0 (const_AE NaN 784) (Some (const_AE NaN 784))
                    (mkAdamState 1 (const_AE NaN 784) (const_AE NaN 784))
                    [] None None)).
  { unfold optimizer_step. cbn [grad model optimizer].
    unfold Adam_init. rewrite AE_map_const.
    unfold Adam_step. cbn [step exp_avg exp_avg_sq].
    rewrite !AE_map2_const.
    rewrite adam_param_nan, adam_exp_avg_nan, adam_exp_avg_sq_nan.
    unfold with_model. cbn [rng grad stdout test_examples reconstruction].
    reflexivity. }
  split; [|split].
  - destruct (const_AE_elements_head NaN 783) as [rest ->]. now left.
  - eexists. split; [exact E | reflexivity].
  - intros [e He]. rewrite E in He. discriminate.
Qed.

(** ** The batch size of the training loader *)

Lemma full_but_last_lengths (n : nat) (bl : list (list nat)) :
  full_but_last n bl -> bl <> [] ->
  map (@length nat) bl =
  repeat n (length bl - 1) ++ [length (last bl [])].
Proof.
  induction 1 as [|b Hb|b b' bl Hb H IH]; intros Hne.
  - congruence.
  - reflexivity.
  - change (last (b :: b' :: bl) []) with (last (b' :: bl) []).
    change (map (@length nat) (b :: b' :: bl))
      with (length b :: map (@length nat) (b' :: bl)).
    rewrite IH by discriminate. rewrite Hb.
    replace (length (b :: b' :: bl) - 1) with (S (length (b' :: bl) - 1))
      by (simpl length; lia).
    reflexivity.
Qed.

Section TrainLoader.
Context {A : Type} {G : Type} {RS : RandomSource G}.

(** The batches the training cell draws in an epoch: all of 128 indices
    except the last, whatever [batch_size] is configured. *)
Lemma train_loader_batches (train_dataset : dataset A) (g : G) :
  randperm_permutes RS -> 0 < length train_dataset ->
  exists loader : DataLoader A,
    train_loader train_dataset = Ok loader /\
    dl_batch_size loader = 128 /\
    let batches := fst (DataLoader_iter loader g) in
    length batches = (length train_dataset + 127) / 128 /\
    map (@length nat) batches =
      repeat 128 (length batches - 1) ++
      [length train_dataset - 128 * (length batches - 1)].
Proof.
  intros HP Hs. exists (mkDataLoader train_dataset 128 true).
  split; [now apply train_loader_ok|]. split; [reflexivity|]. cbv zeta.
  destruct (DataLoader_iter_pass (mkDataLoader train_dataset 128 true) g HP
              ltac:(simpl; lia)) as (_ & P & F & L).
  cbn [dl_dataset dl_batch_size] in *.
  assert (Hne : fst (DataLoader_iter (mkDataLoader train_dataset 128 true) g)
                <> []).
  { intros E. rewrite E in L. unfold DataLoader_len in L.
    cbn [dl_dataset dl_batch_size length] in L.
    symmetry in L. apply Nat.div_small_iff in L; lia. }
  split.
  - rewrite L. unfold DataLoader_len. cbn [dl_dataset dl_batch_size].
    f_equal. lia.
  - rewrite (full_but_last_lengths 128 _ F Hne). do 2 f_equal.
    destruct (full_but_last_total 128 _ F Hne) as [_ T].
    rewrite (Permutation_length P), length_seq in T. lia.
Qed.

End TrainLoader.

(** C7.  On a training set of 512 samples the loader of the training
    cell has batch size 128, not the configured [batch_size] = 512 that
    the loader of cell 9 was built with: every epoch draws four batches
    of 128 samples instead of one batch of 512. *)
Theorem training_batches_ignore_batch_size :
  let train_dataset := repeat (constant_image 0%R, 0) 512 in
  batch_size = 512 /\
  (exists loader9 : DataLoader R,
     train_loader_cell9 train_dataset = Ok loader9 /\
     dl_batch_size loader9 = batch_size) /\
  exists loader : DataLoader R,
    train_loader train_dataset = Ok loader /\
    dl_batch_size loader = 128 /\
    forall g : nat,
      map (@length nat) (fst (DataLoader_iter loader g))
      = [128; 128; 128; 128].
Proof.
  cbv zeta. split; [reflexivity|]. split.
  { eexists. split; reflexivity. }
  exists (mkDataLoader (repeat (constant_image 0%R, 0) 512) 128 true).
  split; [reflexivity|]. split; [reflexivity|]. intros g.
  destruct (train_loader_batches (repeat (constant_image 0%R, 0) 512) g
              counter_source_permutes
              ltac:(rewrite repeat_length; lia))
    as (loader & E & _ & Hlen & Hmap).
  rewrite train_loader_ok in E by (rewrite repeat_length; lia).
  injection E as <-.
  rewrite repeat_length in Hlen, Hmap.
  change ((512 + 127) / 128) with 4 in Hlen. rewrite Hlen in Hmap.
  exact Hmap.
Qed.

(** * Further properties of the notebook *)

(** ** The plotting cell *)

Lemma seq_split (n m : nat) :
  n < m -> seq 0 m = seq 0 n ++ n :: seq (S n) (m - S n).
Proof.
  intros H. assert (E : m = n + S (m - S n)) by lia.
  rewrite E at 1. now rewrite seq_app.
Qed.

Section Figure.
Context {A : Type} {G : Type}.

(** Regrouping the elements of an image in rows of 28 gives back its
    pixel plane. *)
Lemma reshape_flatten_image (im : image A) :
  image_shape im ->
  reshape 28 28 (flatten_image im) = inr (hd [] im).
Proof.
  intros Him. pose proof (flatten_image_length im Him) as Hlen.
  destruct Him as [[H1 H2] H3].
  destruct im as [|plane [|plane' im]]; simpl in H1; try discriminate.
  unfold reshape. rewrite Hlen. cbn [Nat.eqb Nat.mul Nat.add hd].
  change (28 * 28) with 784. cbn [Nat.eqb].
  unfold flatten_image. cbn [concat]. rewrite app_nil_r.
  inversion H2 as [|? ? Hp _]; subst.
  inversion H3 as [|? ? Hrows _]; subst.
  rewrite <- Hp at 2. now rewrite chunks_concat.
Qed.

Lemma reshape_row (row : vec A) :
  length row = 784 -> reshape 28 28 row = inr (chunks 28 28 row).
Proof. intros H. unfold reshape. now rewrite H. Qed.

Lemma panel_shown (tensor : matrix A) (number index position : nat)
    (row : vec A) :
  1 <= position <= 2 * number ->
  nth_error tensor index = Some row -> length row = 784 ->
  panel (inr tensor) number index position =
    inr (mkAxes position (Some (chunks 28 28 row)) true false false).
Proof.
  intros [Hp1 Hp2] Hrow Hlen. unfold panel, subplot.
  destruct (Nat.leb_spec 1 position) as [_|]; [|lia].
  destruct (Nat.leb_spec position (2 * number)) as [_|]; [|lia].
  cbn [andb bind_raised]. unfold tensor_getitem. rewrite Hrow.
  cbn [bind_raised]. rewrite (reshape_row row Hlen). reflexivity.
Qed.

Lemma panel_out_of_bounds (tensor : matrix A) (number index position : nat) :
  1 <= position <= 2 * number -> length tensor <= index ->
  panel (inr tensor) number index position = inl (Raised IndexError).
Proof.
  intros [Hp1 Hp2] Hlen. unfold panel, subplot.
  destruct (Nat.leb_spec 1 position) as [_|]; [|lia].
  destruct (Nat.leb_spec position (2 * number)) as [_|]; [|lia].
  cbn [andb bind_raised]. unfold tensor_getitem.
  apply nth_error_None in Hlen. now rewrite Hlen.
Qed.

Lemma chunks_flatten_image (im : image A) :
  image_shape im -> chunks 28 28 (flatten_image im) = hd [] im.
Proof.
  intros Him. pose proof (reshape_flatten_image im Him) as H.
  rewrite (reshape_row _ (flatten_image_length im Him)) in H.
  now injection H.
Qed.

(** The loop over a range whose indices are rows of both tensors draws
    two panels for each index, the original at [index + 1] and the
    reconstruction at [index + 1 + number], and goes on. *)
Lemma plot_examples_shown (nb : Notebook A G) (number : nat)
    (examples recon : matrix A) (range rest : list nat) :
  test_examples nb = Some examples -> reconstruction nb = Some recon ->
  Forall (fun row => length row = 784) examples ->
  Forall (fun row => length row = 784) recon ->
  Forall (fun i => i < number /\ i < length examples /\ i < length recon)
         range ->
  forall figure : list (Axes A),
    plot_examples nb number figure (range ++ rest) =
    plot_examples nb number
      (figure ++
       flat_map (fun i =>
                   [mkAxes (i + 1) (Some (chunks 28 28 (nth i examples [])))
                           true false false;
                    mkAxes (i + 1 + number)
                           (Some (chunks 28 28 (nth i recon [])))
                           true false false]) range)
      rest.
Proof.
  intros Hex Hre Fex Fre. induction 1 as [|i range (Hn & Hi & Hr) _ IH];
    intros figure.
  - simpl. now rewrite app_nil_r.
  - cbn [app plot_examples flat_map].
    unfold read_test_examples, read_reconstruction. rewrite Hex, Hre.
    rewrite (panel_shown examples number i (i + 1) (nth i examples []));
      [|lia | now apply nth_error_nth' |].
    2:{ rewrite Forall_forall in Fex. apply Fex, nth_In, Hi. }
    cbn [bind_raised].
    rewrite (panel_shown recon number i (i + 1 + number) (nth i recon []));
      [|lia | now apply nth_error_nth' |].
    2:{ rewrite Forall_forall in Fre. apply Fre, nth_In, Hr. }
    cbn [bind_raised].
    rewrite IH. now rewrite <- app_assoc.
Qed.

End Figure.

Section FigureOfTestSet.
Context {A : Type} {SA : Scalar A} {G : Type} {RS : RandomSource G}.

(** The evaluation cell on an empty test set: the loader yields no
    batch, [test_examples] stays [None]. *)
Lemma cell18_empty (nb : Notebook A G) :
  exists nb' : Notebook A G,
    cell18 [] nb = Ok nb' /\ test_examples nb' = None.
Proof.
  eexists. split; [reflexivity|]. reflexivity.
Qed.

Lemma firstn_rows (n : nat) (ds : dataset A) (i : nat) :
  i < Nat.min n (length ds) ->
  nth i (map (fun s => flatten_image (fst s)) (firstn n ds)) [] =
  flatten_image (nth i (map fst ds) []).
Proof.
  revert ds i. induction n as [|n IH]; intros [|s ds] i Hi;
    simpl in Hi; try lia.
  destruct i as [|i]; simpl; [reflexivity|]. apply IH. lia.
Qed.

Lemma firstn_image_shape (n : nat) (ds : dataset A) (i : nat) :
  dataset_wf (firstn n ds) -> i < Nat.min n (length ds) ->
  image_shape (nth i (map fst ds) []).
Proof.
  revert ds i. induction n as [|n IH]; intros [|s ds] i Hwf Hi;
    simpl in Hi; try lia.
  simpl in Hwf. inversion Hwf as [|? ? Hs Hrest]; subst.
  destruct i as [|i]; simpl; [exact Hs|]. apply IH; [exact Hrest | lia].
Qed.

End FigureOfTestSet.

(** The figure of cells 18 and 19 on at least ten test samples. *)
Lemma cell18_cell19_shown :
  forall (A : Type) (SA : Scalar A) (G : Type) (RS : RandomSource G)
         (test_dataset : dataset A) (nb : Notebook A G),
    AE_wf 784 (model nb) -> dataset_wf (firstn 10 test_dataset) ->
    10 <= length test_dataset ->
    exists recon : matrix A,
      forward (model nb)
        (map (fun s => flatten_image (fst s)) (firstn 10 test_dataset))
        = Ok recon /\
      cell18_cell19 test_dataset nb =
        inr (flat_map
               (fun index =>
                  [mkAxes (index + 1)
                     (Some (hd [] (nth index (map fst test_dataset) [])))
                     true false false;
                   mkAxes (index + 11)
                     (Some (chunks 28 28 (nth index recon [])))
                     true false false])
               (seq 0 10)).
Proof.
  intros A SA G RS ds nb Hae Hds Hlen.
  destruct (cell18_first_batch ds nb Hae Hds ltac:(lia))
    as (recon & Hc & Hf & [Hex1 Hex2] & [Hre1 Hre2]).
  rewrite Nat.min_l in Hex1, Hre1 by lia.
  exists recon. split; [exact Hf|].
  unfold cell18_cell19. rewrite Hc. unfold cell19. cbv zeta.
  match goal with
  | |- plot_examples ?nb' _ _ _ = _ =>
      pose proof (plot_examples_shown nb' 10 _ recon (seq 0 10) []
                    eq_refl eq_refl Hex2 Hre2) as P
  end.
  rewrite app_nil_r in P. rewrite P.
  2:{ apply Forall_forall. intros i Hi. apply in_seq in Hi. lia. }
  cbn [plot_examples app]. f_equal.
  rewrite !flat_map_concat_map. f_equal. apply map_ext_in.
  intros i Hi. apply in_seq in Hi.
  rewrite (firstn_rows 10 ds i) by lia.
  rewrite chunks_flatten_image
    by (apply (firstn_image_shape 10 ds i Hds); lia).
  replace (i + 1 + 10) with (i + 11) by lia. reflexivity.
Qed.

(** X1.  With at least ten well-formed test samples, cells 18 and 19
    show a figure of twenty panels, all gray and without axis lines. For
    each [index] below ten, position [index + 1] of the top row shows
    the pixel plane of test sample [index], which reshaping the row of
    [test_examples] to (28, 28) gives back, and position [index + 11]
    below it shows row [index] of the reconstruction in 28 rows of 28. *)
Theorem figure_of_ten_examples :
  forall (A : Type) (SA : Scalar A) (G : Type) (RS : RandomSource G)
         (test_dataset : dataset A) (nb : Notebook A G),
    AE_wf 784 (model nb) -> dataset_wf (firstn 10 test_dataset) ->
    10 <= length test_dataset ->
    exists (recon : matrix A) (figure : list (Axes A)),
      forward (model nb)
        (map (fun s => flatten_image (fst s)) (firstn 10 test_dataset))
        = Ok recon /\
      cell18_cell19 test_dataset nb = inr figure /\
      figure =
        flat_map
          (fun index =>
             [mkAxes (index + 1)
                (Some (hd [] (nth index (map fst test_dataset) [])))
                true false false;
              mkAxes (index + 11)
                (Some (chunks 28 28 (nth index recon [])))
                true false false])
          (seq 0 10) /\
      map (@ax_position A) figure =
        [1; 11; 2; 12; 3; 13; 4; 14; 5; 15; 6; 16; 7; 17; 8; 18; 9; 19;
         10; 20].
Proof.
  intros A SA G RS ds nb Hae Hds Hlen.
  destruct (cell18_cell19_shown A SA G RS ds nb Hae Hds Hlen)
    as (recon & Hf & Hfig).
  exists recon. eexists. split; [exact Hf|]. split; [exact Hfig|].
  split; reflexivity.
Qed.

(** Twelve constant images and the model with all parameters zero. *)
Lemma figure_of_ten_examples_witness :
  exists figure : list (Axes R),
    cell18_cell19 (repeat (constant_image 1%R, 3) 12)
      (mkNotebook 0 (zeros_AE 784) None (Adam_init (zeros_AE 784))
                  [] None None) = inr figure /\
    length figure = 20.
Proof.
  destruct (figure_of_ten_examples R R_scalar nat counter_source
              (repeat (constant_image 1%R, 3) 12)
              (mkNotebook 0 (zeros_AE 784) None (Adam_init (zeros_AE 784))
                          [] None None)
              (zeros_AE_wf 784)
              (constant_dataset_wf 1%R 3 10)
              ltac:(simpl; lia))
    as (recon & figure & _ & H & -> & _).
  eexists. split; [exact H|]. reflexivity.
Defined.

(** X2.  With fewer than ten test samples the figure is never shown:
    cell 18 returns, and cell 19 raises a TypeError on an empty test
    set, where [test_examples] is [None], and an IndexError otherwise,
    when the loop reaches the first index that is not a row of
    [test_examples]. *)
Theorem figure_needs_ten_examples :
  forall (A : Type) (SA : Scalar A) (G : Type) (RS : RandomSource G)
         (test_dataset : dataset A) (nb : Notebook A G),
    AE_wf 784 (model nb) -> dataset_wf test_dataset ->
    length test_dataset < 10 ->
    (exists nb' : Notebook A G, cell18 test_dataset nb = Ok nb') /\
    cell18_cell19 test_dataset nb =
      inl (if length test_dataset =? 0 then TypeError
           else Raised IndexError).
Proof.
  intros A SA G RS ds nb Hae Hds Hlen.
  destruct ds as [|s ds'].
  - split; [eexists; reflexivity | reflexivity].
  - set (ds := s :: ds') in *.
    assert (Hpos : 0 < length ds) by (simpl; lia).
    assert (Hds10 : dataset_wf (firstn 10 ds)).
    { rewrite firstn_all2 by lia. exact Hds. }
    destruct (cell18_first_batch ds nb Hae Hds10 Hpos)
      as (recon & Hc & Hf & [Hex1 Hex2] & [Hre1 Hre2]).
    rewrite Nat.min_r in Hex1, Hre1 by lia.
    split; [eexists; exact Hc|].
    unfold cell18_cell19. rewrite Hc. unfold cell19. cbv zeta.
    rewrite (seq_split (length ds) 10 Hlen).
    match goal with
    | |- plot_examples ?nb' _ _ _ = _ =>
        rewrite (plot_examples_shown nb' 10 _ recon (seq 0 (length ds))
                   (length ds :: seq (S (length ds)) (10 - S (length ds)))
                   eq_refl eq_refl Hex2 Hre2)
    end.
    2:{ apply Forall_forall. intros i Hi. apply in_seq in Hi. lia. }
    cbn [plot_examples]. unfold read_test_examples.
    cbn [test_examples].
    rewrite panel_out_of_bounds by lia.
    reflexivity.
Qed.

(** Three well-formed test samples. *)
Lemma figure_needs_ten_examples_witness :
  cell18_cell19 (repeat (constant_image 1%R, 3) 3)
    (mkNotebook 0 (zeros_AE 784) None (Adam_init (zeros_AE 784))
                [] None None) = inl (Raised IndexError).
Proof.
  exact (proj2 (figure_needs_ten_examples R R_scalar nat counter_source
                  (repeat (constant_image 1%R, 3) 3)
                  (mkNotebook 0 (zeros_AE 784) None
                              (Adam_init (zeros_AE 784)) [] None None)
                  (zeros_AE_wf 784)
                  (constant_dataset_wf 1%R 3 3)
                  ltac:(simpl; lia))).
Defined.

(** ** Batches: reshaping and fetching *)

Lemma chunks_exact {A : Type} (c r : nat) (xs : list A) :
  length xs = r * c ->
  concat (chunks c r xs) = xs /\ mshape r c (chunks c r xs).
Proof.
  revert xs. induction r as [|r IH]; intros xs H.
  - destruct xs; [|discriminate]. repeat split. constructor.
  - cbn [chunks concat].
    assert (Hs : length (skipn c xs) = r * c).
    { rewrite length_skipn. simpl in H. lia. }
    destruct (IH (skipn c xs) Hs) as (Hc & Hl & Hr).
    rewrite Hc, firstn_skipn. split; [reflexivity|].
    split; [simpl; now rewrite Hl|].
    constructor; [|exact Hr]. rewrite length_firstn. simpl in H. lia.
Qed.

(** X3.  [view(-1, c)] keeps every element and the order of the
    elements: the rows it returns, put end to end, are the elements of
    the batch in row-major order, and there are numel / c rows of [c]
    elements. It raises a RuntimeError exactly when the number of
    elements is not a multiple of [c]. *)
Theorem view_regroups_elements :
  forall (A : Type) (c : nat) (batch : list (image A)),
    0 < c ->
    let flat := concat (map flatten_image batch) in
    (length flat mod c = 0 ->
     exists rows : matrix A,
       view c batch = Ok rows /\ concat rows = flat /\
       mshape (length flat / c) c rows) /\
    (length flat mod c <> 0 -> view c batch = Raise RuntimeError).
Proof.
  intros A c batch Hc flat. unfold view. fold flat. split; intros H.
  - rewrite H. cbn [Nat.eqb].
    assert (E : length flat = length flat / c * c).
    { pose proof (Nat.div_mod_eq (length flat) c). lia. }
    destruct (chunks_exact c (length flat / c) flat E) as [H1 H2].
    eexists. split; [reflexivity|]. split; assumption.
  - destruct (Nat.eqb_spec (length flat mod c) 0); [contradiction|].
    reflexivity.
Qed.

(** Two images, whose 1568 elements make two rows of 784. *)
Lemma view_regroups_elements_witness :
  exists rows : matrix nat,
    view 784 [constant_image 1; constant_image 2] = Ok rows /\
    concat rows =
      concat (map flatten_image [constant_image 1; constant_image 2]) /\
    mshape 2 784 rows.
Proof.
  destruct (view_regroups_elements nat 784
              [constant_image 1; constant_image 2] ltac:(lia))
    as [H _].
  exact (H eq_refl).
Defined.

Section Fetching.
Context {A : Type}.

Lemma mapM_getitem_samples (ds : dataset A) (indices : list nat) :
  match mapM (getitem ds) indices with
  | Ok samples =>
      Forall (fun i => i < length ds) indices /\
      Forall2 (fun i s => nth_error ds i = Some s) indices samples
  | Raise e =>
      e = IndexError /\ Exists (fun i => length ds <= i) indices
  end.
Proof.
  induction indices as [|i indices IH]; cbn [mapM].
  - split; constructor.
  - unfold getitem at 1.
    destruct (nth_error ds i) as [s|] eqn:E; cbn [bind].
    + assert (Hi : i < length ds).
      { apply nth_error_Some. now rewrite E. }
      destruct (mapM (getitem ds) indices) as [samples|e]; cbn [bind].
      * destruct IH as [F F2]. split; constructor; assumption.
      * destruct IH as [-> Ex]. split; [reflexivity|].
        now apply Exists_cons_tl.
    + split; [reflexivity|]. apply Exists_cons_hd.
      now apply nth_error_None.
Qed.

End Fetching.

(** X4.  Fetching a batch checks every index: it returns exactly when
    all indices are below the size of the dataset, with the image and
    the label of [dataset[i]] for every index [i] of the batch, in the
    order of the indices; otherwise it raises an IndexError and some
    index is out of range. *)
Theorem fetch_checks_indices :
  forall (A : Type) (ds : dataset A) (indices : list nat),
    match fetch ds indices with
    | Ok (imgs, labels) =>
        Forall (fun i => i < length ds) indices /\
        Forall2 (fun i s => nth_error ds i = Some s) indices
                (combine imgs labels) /\
        length imgs = length indices /\ length labels = length indices
    | Raise e =>
        e = IndexError /\ Exists (fun i => length ds <= i) indices
    end.
Proof.
  intros A ds indices. unfold fetch.
  pose proof (mapM_getitem_samples ds indices) as H.
  destruct (mapM (getitem ds) indices) as [samples|e]; cbn [bind].
  - destruct H as [F F2]. split; [exact F|].
    assert (E : combine (map fst samples) (map snd samples) = samples).
    { clear. induction samples as [|[im l] samples IH]; simpl;
        [reflexivity | now rewrite IH]. }
    rewrite E. split; [exact F2|].
    apply Forall2_length in F2. now rewrite !length_map.
  - exact H.
Qed.

(** X5.  No batch of a pass of a loader raises: every batch the loader
    draws, shuffled or not, is fetched and reshaped to a tensor of as
    many rows of 784 elements as the batch has indices. *)
Theorem loader_batches_are_fetched :
  forall (A : Type) (G : Type) (RS : RandomSource G)
         (loader : DataLoader A) (g : G),
    randperm_permutes RS -> 0 < dl_batch_size loader ->
    dataset_wf (dl_dataset loader) ->
    Forall (fun indices =>
              0 < length indices /\
              exists (imgs : list (image A)) (labels : list nat)
                     (x : matrix A),
                fetch (dl_dataset loader) indices = Ok (imgs, labels) /\
                view 784 imgs = Ok x /\
                mshape (length indices) 784 x)
           (fst (DataLoader_iter loader g)).
Proof.
  intros A G RS loader g HP Hn Hds.
  pose proof (pass_valid loader g HP Hn) as Hval.
  eapply Forall_impl; [|exact Hval].
  intros indices [Hi Hpos]. split; [exact Hpos|].
  assert (d : list (list (list A)) * nat).
  { destruct (dl_dataset loader) as [|d ?]; [exfalso|exact d].
    destruct indices as [|i ?]; [simpl in Hpos; lia|].
    inversion Hi; subst. simpl in *. lia. }
  destruct (batch_rows_ok (dl_dataset loader) d indices Hi
              (dataset_wf_nth _ d indices Hds Hi))
    as (imgs & labels & Hf & Hv & Hx).
  eauto 10.
Qed.

(** A shuffled pass over seven samples in batches of three. *)
Lemma loader_batches_are_fetched_witness :
  Forall (fun indices =>
            0 < length indices /\
            exists (imgs : list (image nat)) (labels : list nat)
                   (x : matrix nat),
              fetch (repeat (constant_image 5, 1) 7) indices
                = Ok (imgs, labels) /\
              view 784 imgs = Ok x /\
              mshape (length indices) 784 x)
         (fst (DataLoader_iter
                 (mkDataLoader (repeat (constant_image 5, 1) 7) 3 true) 0)).
Proof.
  exact (loader_batches_are_fetched nat nat counter_source
           (mkDataLoader (repeat (constant_image 5, 1) 7) 3 true) 0
           counter_source_permutes ltac:(simpl; lia)
           (constant_dataset_wf 5 1 7)).
Defined.

(** ** The model on inputs of another width *)

(** X6.  [forward] never truncates or pads: on a batch with at least one
    row whose rows do not have [input_shape] elements, the first layer
    raises a RuntimeError. *)
Theorem forward_rejects_other_widths :
  forall (A : Type) (SA : Scalar A) (input n w : nat) (ae : AE A)
         (x : matrix A),
    AE_wf input ae -> mshape n w x -> 0 < n -> w <> input ->
    forward ae x = Raise RuntimeError.
Proof.
  intros A SA input n w ae x ((Hin & _) & _) [Hlen Hrows] Hn Hw.
  unfold forward, Linear_call. rewrite Hin.
  destruct x as [|row x]; [simpl in Hlen; lia|].
  apply Forall_inv in Hrows.
  cbn [forallb]. destruct (Nat.eqb_spec (length row) input); [lia|].
  reflexivity.
Qed.

(** One row of 783 values. *)
Lemma forward_rejects_other_widths_witness :
  forward (zeros_AE 784) [repeat 0%R 783] = Raise RuntimeError.
Proof.
  apply (forward_rejects_other_widths R R_scalar 784 1 783 (zeros_AE 784)
           [repeat 0%R 783] (zeros_AE_wf 784)).
  - split; [reflexivity|]. constructor; [apply repeat_length|constructor].
  - lia.
  - lia.
Defined.

(** ** The criterion *)

Local Open Scope R_scope.

Lemma fold_left_Rplus_acc (l : list R) (a : R) :
  fold_left Rplus l a = a + fold_left Rplus l 0.
Proof.
  revert a. induction l as [|x l IH]; intros a; simpl; [lra|].
  rewrite (IH (a + x)), (IH (0 + x)). lra.
Qed.

Lemma vsum_cons (x : R) (l : list R) : vsum (x :: l) = x + vsum l.
Proof.
  unfold vsum. simpl. rewrite fold_left_Rplus_acc. lra.
Qed.

Lemma vsum_nil : vsum (@nil R) = 0.
Proof. reflexivity. Qed.

Lemma vsum_squares (os ts : list R) :
  length os = length ts ->
  0 <= vsum (map2 (fun o t => (o - t) * (o - t)) os ts) /\
  (vsum (map2 (fun o t => (o - t) * (o - t)) os ts) = 0 -> os = ts).
Proof.
  revert ts. induction os as [|o os IH]; intros [|t ts] H;
    simpl in H; try discriminate.
  - simpl. rewrite vsum_nil. split; [lra | reflexivity].
  - cbn [map2]. rewrite vsum_cons.
    destruct (IH ts ltac:(lia)) as [Hge Hz].
    pose proof (Rle_0_sqr (o - t)) as Hsq. unfold Rsqr in Hsq.
    split; [lra|]. intros E.
    assert (E1 : (o - t) * (o - t) = 0) by lra.
    assert (E2 : vsum (map2 (fun o t => (o - t) * (o - t)) os ts) = 0)
      by lra.
    apply Rmult_integral in E1.
    f_equal; [lra | now apply Hz].
Qed.

Lemma concat_same_shape {X : Type} (c : nat) (a b : matrix X) :
  Forall (fun row => length row = c) a ->
  Forall (fun row => length row = c) b ->
  length a = length b -> concat a = concat b -> a = b.
Proof.
  intros Ha. revert b. induction Ha as [|ra a Hra Ha IH];
    intros b Hb Hl E; destruct b as [|rb b]; simpl in Hl;
      try discriminate; [reflexivity|].
  inversion Hb as [|? ? Hrb Hb']; subst. simpl in E.
  apply app_eq_app in E.
  destruct E as (l & [[E1 E2]|[E1 E2]]).
  - assert (l = []).
    { apply (f_equal (@length _)) in E1. rewrite length_app in E1.
      destruct l; [reflexivity | simpl in E1; lia]. }
    subst l. rewrite app_nil_r in E1. simpl in E2. subst.
    f_equal. apply IH; auto.
  - assert (l = []).
    { apply (f_equal (@length _)) in E1. rewrite length_app in E1.
      destruct l; [reflexivity | simpl in E1; lia]. }
    subst l. rewrite app_nil_r in E1. simpl in E2. subst.
    f_equal. apply IH; auto.
Qed.

(** X7.  The loss of a batch is never negative, and it is zero exactly
    when the reconstruction equals the batch element for element. *)
Theorem mse_zero_iff_equal :
  forall (n c : nat) (outputs batch : matrix R),
    mshape n c outputs -> mshape n c batch -> (0 < n * c)%nat ->
    0 <= criterion outputs batch /\
    (criterion outputs batch = 0 <-> outputs = batch).
Proof.
  intros n c outputs batch [Ho1 Ho2] [Hb1 Hb2] Hpos.
  unfold criterion, numel. cbn [div mul sub of_Z R_scalar].
  assert (Hlen : length (concat outputs) = length (concat batch)).
  { rewrite (concat_length_uniform c outputs Ho2),
            (concat_length_uniform c batch Hb2). lia. }
  destruct (vsum_squares (concat outputs) (concat batch) Hlen) as [Hge Hz].
  assert (Hd : 0 < IZR (Z.of_nat (length (concat outputs)))).
  { apply IZR_lt. rewrite (concat_length_uniform c outputs Ho2), Ho1. lia. }
  set (s := vsum _) in *.
  set (d := IZR (Z.of_nat (length (concat outputs)))) in *.
  split.
  - apply Rmult_le_pos; [exact Hge|]. left. now apply Rinv_0_lt_compat.
  - split.
    + intros E. apply (concat_same_shape c); auto; [lia|].
      apply Hz. unfold Rdiv in E. apply Rmult_integral in E.
      destruct E as [E|E]; [exact E|].
      pose proof (Rinv_0_lt_compat d Hd). lra.
    + intros ->. unfold s.
      rewrite vsum_zeros; [unfold Rdiv; lra|].
      clear. induction (concat batch) as [|x l IH]; simpl; constructor;
        [lra | exact IH].
Qed.

(** A batch of one row of two values, reconstructed exactly. *)
Lemma mse_zero_iff_equal_witness :
  criterion [[1; 2]] [[1; 2]] = 0.
Proof.
  apply (mse_zero_iff_equal 1 2 [[1; 2]] [[1; 2]]).
  - split; [reflexivity|]. constructor; [reflexivity|constructor].
  - split; [reflexivity|]. constructor; [reflexivity|constructor].
  - simpl. lia.
  - reflexivity.
Defined.

(** ** The first step of the optimizer *)

(** X8.  The first step of a fresh optimizer is [p - lr * g / (|g| +
    eps)] for every parameter element [p] with gradient [g]: the element
    moves against the sign of its gradient, down when the gradient is
    positive and up when it is negative, and an element whose gradient
    is zero is left as it is. *)
Theorem first_adam_step_descends :
  forall (hp : AdamHyper R) (n : nat) (params grads : AE R),
    hyper_ok hp -> AE_wf n params -> AE_wf n grads ->
    let params' := snd (Adam_step hp (Adam_init params) params grads) in
    AE_elements params' =
      map2 (fun p g => p - lr hp * g / (Rabs g + eps hp))
           (AE_elements params) (AE_elements grads) /\
    (forall (k : nat) (p g : R),
       nth_error (AE_elements params) k = Some p ->
       nth_error (AE_elements grads) k = Some g ->
       exists p' : R,
         nth_error (AE_elements params') k = Some p' /\
         (0 < g -> p' < p) /\ (g < 0 -> p < p') /\ (g = 0 -> p' = p)).
Proof.
  intros hp n params grads Hhp Hp Hg params'.
  assert (E : AE_elements params' =
              map2 (fun p g => p - lr hp * g / (Rabs g + eps hp))
                   (AE_elements params) (AE_elements grads)).
  { unfold params'.
    pose proof (AE_map_wf (fun _ : R => 0) n params Hp) as Hz.
    unfold Adam_step, Adam_init. cbn [snd step exp_avg exp_avg_sq].
    change (@zero R R_scalar) with 0.
    set (zs := AE_map (fun _ : R => 0) params) in *.
    pose proof (AE_map2_wf (adam_exp_avg hp) n zs grads Hz Hg) as Hm.
    pose proof (AE_map2_wf (adam_exp_avg_sq hp) n zs grads Hz Hg) as Hv.
    pose proof (AE_map2_wf pair n _ _ Hm Hv) as Hmv.
    rewrite (AE_elements_map2 _ n _ _ Hp Hmv).
    rewrite (AE_elements_map2 _ n _ _ Hm Hv).
    rewrite (AE_elements_map2 _ n _ _ Hz Hg).
    rewrite (AE_elements_map2 _ n _ _ Hz Hg).
    unfold zs. rewrite AE_elements_map.
    pose proof (AE_elements_length_eq n params grads Hp Hg) as Hlen.
    rewrite first_step_elements by exact Hlen.
    clear Hlen. generalize (AE_elements grads).
    induction (AE_elements params) as [|p ps IH]; intros [|g gs];
      cbn [map2]; try reflexivity.
    rewrite (adam_first_step_formula hp p g Hhp). f_equal. apply IH. }
  split; [exact E|].
  intros k p g Hkp Hkg. rewrite E.
  eexists. split; [apply (map2_nth_error _ _ _ k p g Hkp Hkg)|].
  apply (first_step_direction hp p g Hhp).
Qed.

(** The optimizer of the notebook on a model at 1 with all gradients at
    -3: the first parameter element goes up. *)
Lemma first_adam_step_descends_witness :
  exists p' : R,
    nth_error (AE_elements
                 (snd (Adam_step optimizer_hyper
                                 (Adam_init (const_AE 1 784))
                                 (const_AE 1 784) (const_AE (-3) 784))))
              0 = Some p' /\
    1 < p'.
Proof.
  destruct (first_adam_step_descends optimizer_hyper 784
              (const_AE 1 784) (const_AE (-3) 784)
              optimizer_hyper_ok (const_AE_wf 1 784) (const_AE_wf (-3) 784))
    as [_ H].
  destruct (H 0%nat 1 (-3) eq_refl eq_refl) as (p' & Hk & _ & Hup & _).
  exists p'. split; [exact Hk|]. apply Hup. lra.
Defined.

Local Close Scope R_scope.

(** ** Optimizer steps of a training run *)

Section Steps.
Context {A : Type} {SA : Scalar A} {G : Type} {RS : RandomSource G}.

Lemma epoch_loss_steps (loader : DataLoader A) (nb : Notebook A G) :
  randperm_permutes RS -> 0 < dl_batch_size loader ->
  dataset_wf (dl_dataset loader) -> 0 < length (dl_dataset loader) ->
  train_inv nb ->
  exists (nb' : Notebook A G) (loss : A),
    epoch_loss loader nb = Ok (nb', loss) /\
    train_inv nb' /\
    step (optimizer nb') = DataLoader_len loader + step (optimizer nb).
Proof.
  intros HP Hn Hds Hs Hinv.
  pose proof (pass_valid loader (rng nb) HP Hn) as Hval.
  destruct (DataLoader_iter_pass loader (rng nb) HP Hn) as (_ & _ & _ & Hlen).
  pose proof (DataLoader_len_pos loader Hn Hs) as Hpos.
  unfold epoch_loss.
  destruct (DataLoader_iter loader (rng nb)) as [batches g].
  cbn [fst] in *.
  destruct (train_batches_spec (dl_dataset loader) batches Hds Hval
              (with_rng nb g) zero Hinv)
    as (losses & nb' & Hrun & _ & Hinv' & _ & _ & Hstep).
  rewrite Hrun. cbn [bind fst snd].
  destruct (Nat.eqb_spec (DataLoader_len loader) 0) as [E|_]; [lia|].
  eexists _, _. split; [reflexivity|]. split; [exact Hinv'|].
  rewrite Hstep, Hlen. reflexivity.
Qed.

Lemma for_epochs_steps (epochs : nat) (loader : DataLoader A)
    (range : list nat) :
  randperm_permutes RS -> 0 < dl_batch_size loader ->
  dataset_wf (dl_dataset loader) -> 0 < length (dl_dataset loader) ->
  forall nb : Notebook A G,
    train_inv nb ->
    exists nb' : Notebook A G,
      for_epochs epochs loader nb range = Ok nb' /\
      step (optimizer nb') =
        length range * DataLoader_len loader + step (optimizer nb).
Proof.
  intros HP Hn Hds Hs.
  induction range as [|epoch range IH]; intros nb Hinv.
  - exists nb. split; reflexivity.
  - destruct (epoch_loss_steps loader nb HP Hn Hds Hs Hinv)
      as (nb1 & loss & Hel & Hinv1 & Hstep).
    destruct (IH (print nb1 (report_line epoch epochs loss)) Hinv1)
      as (nb' & Hfor & Hstep').
    exists nb'. split.
    + simpl. unfold train_epoch. rewrite Hel. cbn [bind fst snd].
      exact Hfor.
    + rewrite Hstep'. cbn [optimizer print]. rewrite Hstep.
      simpl length. lia.
Qed.

End Steps.

(** X9.  The training cell makes one optimizer step for every batch:
    from a state with the shapes of the model, after its 20 epochs over
    S samples the step counter of the optimizer has advanced by 20 *
    ceil(S / 128). *)
Theorem optimizer_steps_counted :
  forall (A : Type) (SA : Scalar A) (G : Type) (RS : RandomSource G)
         (train_dataset : dataset A) (nb : Notebook A G),
    randperm_permutes RS -> dataset_wf train_dataset ->
    0 < length train_dataset -> train_inv nb ->
    exists nb' : Notebook A G,
      cell16 train_dataset nb = Ok nb' /\
      step (optimizer nb') =
        20 * ((length train_dataset + 127) / 128) + step (optimizer nb).
Proof.
  intros A SA G RS ds nb HP Hds Hs Hinv.
  destruct (for_epochs_steps epochs (mkDataLoader ds 128 true)
              (seq 0 epochs) HP ltac:(simpl; lia) Hds Hs nb Hinv)
    as (nb' & Hfor & Hstep).
  exists nb'. split; [rewrite (cell16_training_loop ds nb Hs); exact Hfor|].
  rewrite Hstep, length_seq. unfold DataLoader_len.
  cbn [dl_dataset dl_batch_size].
  replace (length ds + 128 - 1) with (length ds + 127) by lia.
  reflexivity.
Qed.

(** 300 samples, three batches an epoch: 60 steps. *)
Lemma optimizer_steps_counted_witness :
  exists nb' : Notebook R nat,
    cell16 (repeat (constant_image 0%R, 0) 300)
      (mkNotebook 0 (zeros_AE 784) None (Adam_init (zeros_AE 784))
                  [] None None) = Ok nb' /\
    step (optimizer nb') = 60.
Proof.
  destruct (optimizer_steps_counted R R_scalar nat counter_source
              (repeat (constant_image 0%R, 0) 300)
              (mkNotebook 0 (zeros_AE 784) None (Adam_init (zeros_AE 784))
                          [] None None)
              counter_source_permutes
              (constant_dataset_wf 0%R 0 300)
              ltac:(rewrite repeat_length; lia)
              (zero_notebook_inv 0))
    as (nb' & Hrun & Hstep).
  exists nb'. split; [exact Hrun|].
  rewrite Hstep, repeat_length. reflexivity.
Defined.

(** ** Gradients left over from an earlier backward pass *)

(** X10.  A training step starts with [optimizer.zero_grad()], so what
    an earlier backward pass left in [.grad] has no effect on it: the
    step from a state with any leftover gradient is the step from the
    state itself. After a step, [.grad] holds the gradient of the batch
    of that step alone, taken at the parameters before the step, and
    loss, parameters and optimizer state are those of one Adam step with
    that gradient. *)
Theorem leftover_gradients_are_discarded :
  forall (A : Type) (SA : Scalar A) (G : Type)
         (ds : dataset A) (nb : Notebook A G) (indices : list nat)
         (leftover : option (AE A)),
    train_batch ds (with_grad nb leftover) indices =
      train_batch ds nb indices /\
    (forall (nb1 : Notebook A G) (loss : A),
       train_batch ds nb indices = Ok (nb1, loss) ->
       exists (imgs : list (image A)) (labels : list nat) (x out : matrix A),
         fetch ds indices = Ok (imgs, labels) /\
         view 784 imgs = Ok x /\
         forward (model nb) x = Ok out /\
         loss = criterion out x /\
         grad nb1 = Some (backward (model nb) x) /\
         (optimizer nb1, model nb1) =
           Adam_step optimizer_hyper (optimizer nb) (model nb)
                     (backward (model nb) x)).
Proof.
  intros A SA G ds nb indices leftover. split; [reflexivity|].
  intros nb1 loss. unfold train_batch.
  destruct (fetch ds indices) as [[imgs labels]|e]; [|discriminate].
  cbn [bind fst]. destruct (view 784 imgs) as [x|e] eqn:Ev; [|discriminate].
  cbn [bind]. unfold zero_grad, loss_backward, optimizer_step.
  cbn [model grad optimizer with_grad].
  destruct (forward (model nb) x) as [out|e] eqn:Ef; [|discriminate].
  cbn [bind].
  destruct (Adam_step optimizer_hyper (optimizer nb) (model nb)
              (backward (model nb) x)) as [st ae] eqn:Es.
  cbn [bind]. intros H. injection H as <- <-.
  exists imgs, labels, x, out. rewrite Es.
  repeat match goal with |- _ /\ _ => split end;
    try reflexivity; assumption.
Qed.

(** ** Running the evaluation cell again *)

(** X11.  The evaluation cell can be run again at no risk: a second run
    returns as the first did and changes nothing but the state of the
    global generator, from which the new loader iterator draws its base
    seed; the examples and the reconstruction are the same. *)
Theorem evaluation_is_repeatable :
  forall (A : Type) (SA : Scalar A) (G : Type) (RS : RandomSource G)
         (test_dataset : dataset A) (nb nb1 : Notebook A G),
    cell18 test_dataset nb = Ok nb1 ->
    cell18 test_dataset nb1 = Ok (with_rng nb1 (draw_seed (rng nb1))).
Proof.
  intros A SA G RS ds nb nb1.
  unfold cell18, test_loader, DataLoader_new. cbn [andb Nat.eqb bind].
  unfold DataLoader_iter, sampler.
  cbn [dl_shuffle dl_dataset dl_batch_size rng with_evaluation].
  destruct (BatchSampler 10 (seq 0 (length ds))) as [|indices rest].
  - intros [= <-]. reflexivity.
  - destruct (fetch ds indices) as [[imgs labels]|e];
      cbn [bind fst]; [|discriminate].
    destruct (view 784 imgs) as [examples|e]; cbn [bind]; [|discriminate].
    cbn [model with_rng with_evaluation].
    destruct (forward (model nb) examples) as [recon|e] eqn:E;
      cbn [bind]; [|discriminate].
    intros [= <-]. cbn [model with_rng with_evaluation rng].
    rewrite E. reflexivity.
Qed.

(** Three test samples, evaluated twice from the zero model. *)
Lemma evaluation_is_repeatable_witness :
  exists nb1 : Notebook R nat,
    cell18 (repeat (constant_image 1%R, 3) 3)
      (mkNotebook 0 (zeros_AE 784) None (Adam_init (zeros_AE 784))
                  [] None None) = Ok nb1 /\
    cell18 (repeat (constant_image 1%R, 3) 3) nb1 =
      Ok (with_rng nb1 (draw_seed (rng nb1))).
Proof.
  destruct (cell18_first_batch (repeat (constant_image 1%R, 3) 3)
              (mkNotebook 0 (zeros_AE 784) None (Adam_init (zeros_AE 784))
                          [] None None)
              (zeros_AE_wf 784) (constant_dataset_wf 1%R 3 3)
              ltac:(simpl; lia))
    as (recon & Hc & _).
  eexists. split; [exact Hc|].
  exact (evaluation_is_repeatable R R_scalar nat counter_source _ _ _ Hc).
Defined.

(** ** The notebook from the seed to the figure *)

(** X12.  On a training set of at least one and a test set of at least
    ten well-formed samples no cell raises: seeding, creation of the
    model, training, evaluation and plotting return in turn. Training
    prints twenty lines and keeps the layer shapes of the model,
    evaluation leaves the trained parameters and the printed lines as
    they are, and the figure has twenty panels. *)
Theorem notebook_runs_to_the_figure :
  forall (A : Type) (SA : Scalar A) (G : Type) (RS : RandomSource G)
         (new_linear : nat -> nat -> G -> Linear A * G)
         (train_dataset test_dataset : dataset A) (nb : Notebook A G),
    randperm_permutes RS ->
    (forall i o g, Linear_wf i o (fst (new_linear i o g))) ->
    dataset_wf train_dataset -> 0 < length train_dataset ->
    dataset_wf (firstn 10 test_dataset) -> 10 <= length test_dataset ->
    exists (nb1 nb2 : Notebook A G) (lines : list string)
           (figure : list (Axes A)),
      notebook_run new_linear train_dataset nb = Ok nb1 /\
      stdout nb1 = stdout nb ++ lines /\ length lines = 20 /\
      AE_wf 784 (model nb1) /\
      cell18 test_dataset nb1 = Ok nb2 /\
      model nb2 = model nb1 /\ stdout nb2 = stdout nb1 /\
      cell19 nb2 = inr figure /\ length figure = 20.
Proof.
  intros A SA G RS new_linear train test nb HP Hnl Htr Hs Hte Hlen.
  destruct (for_epochs_spec epochs (mkDataLoader train 128 true)
              (seq 0 epochs) HP ltac:(simpl; lia) Htr Hs
              (cell13 new_linear (cell5 nb))
              (cell13_train_inv new_linear (cell5 nb) Hnl))
    as (lines & nb1 & E1 & _ & O1 & L1 & (Hae & _) & _).
  rewrite cell13_cell5_stdout in O1. rewrite length_seq in L1.
  destruct (cell18_cell19_shown A SA G RS test nb1 Hae Hte Hlen)
    as (recon & _ & Hfig).
  unfold cell18_cell19 in Hfig.
  destruct (cell18 test nb1) as [nb2|e] eqn:E2; [|discriminate].
  destruct (cell18_frame test nb1 nb2 E2) as (Hm & _ & _ & Ho).
  exists nb1, nb2, lines. eexists.
  unfold notebook_run. rewrite (cell16_training_loop train _ Hs).
  split; [exact E1|]. split; [exact O1|]. split; [exact L1|].
  split; [exact Hae|]. split; [exact E2|]. split; [exact Hm|].
  split; [exact Ho|]. split; [exact Hfig|]. reflexivity.
Qed.

(** Five training and twelve test samples, all parameters initialised to
    zero. *)
Lemma notebook_runs_to_the_figure_witness :
  exists (nb1 nb2 : Notebook R nat) (figure : list (Axes R)),
    notebook_run (const_init 0%R) (repeat (constant_image 0%R, 4) 5)
      (mkNotebook 7 (zeros_AE 784) None (Adam_init (zeros_AE 784))
                  [] None None) = Ok nb1 /\
    cell18 (repeat (constant_image 1%R, 3) 12) nb1 = Ok nb2 /\
    cell19 nb2 = inr figure /\ length figure = 20.
Proof.
  destruct (notebook_runs_to_the_figure R R_scalar nat counter_source
              (const_init 0%R) (repeat (constant_image 0%R, 4) 5)
              (repeat (constant_image 1%R, 3) 12)
              (mkNotebook 7 (zeros_AE 784) None (Adam_init (zeros_AE 784))
                          [] None None)
              counter_source_permutes
              (fun i o _ => const_Linear_wf 0%R i o)
              (constant_dataset_wf 0%R 4 5)
              ltac:(simpl; lia)
              (constant_dataset_wf 1%R 3 10)
              ltac:(simpl; lia))
    as (nb1 & nb2 & lines & figure & E1 & _ & _ & _ & E2 & _ & _ & E3 & L).
  exists nb1, nb2, figure. auto.
Defined.

(** ** Outputs clamped to zero *)

Local Open Scope R_scope.

Lemma map2_const_r_id {X Y : Type} (f : X -> Y -> X) (c : Y) (n : nat)
    (xs : list X) :
  (forall x, f x c = x) -> length xs = n -> map2 f xs (repeat c n) = xs.
Proof.
  intros H Hn. subst n. induction xs as [|x xs IH]; simpl; [reflexivity|].
  now rewrite H, IH.
Qed.

Lemma map2_const_r {X Y Z : Type} (f : X -> Y -> Z) (y : Y) (z : Z)
    (n : nat) (xs : list X) :
  (forall x, f x y = z) -> length xs = n ->
  map2 f xs (repeat y n) = repeat z n.
Proof.
  intros H Hn. subst n. induction xs as [|x xs IH]; simpl; [reflexivity|].
  now rewrite H, IH.
Qed.

Lemma map2_const_l_n {X Y Z : Type} (f : X -> Y -> Z) (x : X) (z : Z)
    (n : nat) (ys : list Y) :
  (forall y, f x y = z) -> length ys = n ->
  map2 f (repeat x n) ys = repeat z n.
Proof. intros H Hn. subst n. now apply map2_const_l. Qed.

Lemma all_zero_matrix (r c : nat) (m : matrix R) :
  mshape r c m -> Forall (Forall (fun v => v = 0)) m ->
  m = repeat (repeat 0 c) r.
Proof.
  intros [Hr Hc] Hz. subst r.
  induction Hc as [|row m Hrow Hc IH]; simpl; [reflexivity|].
  inversion Hz as [|? ? Hz1 Hz']; subst.
  rewrite <- (IH Hz'). f_equal. now apply all_eq_repeat.
Qed.

Lemma relu_backward_clamped (r c : nat) (d : matrix R) :
  mshape r c d ->
  relu_backward d (repeat (repeat 0 c) r) = repeat (repeat 0 c) r.
Proof.
  intros [Hr Hc]. subst r. unfold relu_backward.
  induction Hc as [|row d Hrow Hc IH]; cbn [map2 repeat length];
    [reflexivity|].
  rewrite IH. f_equal.
  apply map2_const_r; [|exact Hrow]. intros x. cbn [gtb zero R_scalar].
  destruct (Rlt_dec 0 0) as [H|_]; [lra | reflexivity].
Qed.

Lemma relu_backward_of_zeros (r c : nat) (a : matrix R) :
  mshape r c a ->
  relu_backward (repeat (repeat 0 c) r) a = repeat (repeat 0 c) r.
Proof.
  intros [Hr Hc]. subst r. unfold relu_backward.
  induction Hc as [|row a Hrow Hc IH]; cbn [map2 repeat length];
    [reflexivity|].
  rewrite IH. f_equal.
  apply map2_const_l_n; [|exact Hrow]. intros y. cbn [gtb zero R_scalar].
  now destruct (Rlt_dec 0 y).
Qed.

Lemma Linear_grad_of_zeros (i o n : nat) (l : Linear R) (x : matrix R) :
  (0 < n)%nat -> mshape n i x ->
  Linear_grad l x (repeat (repeat 0 o) n) =
  mkLinear (in_features l) (out_features l)
           (repeat (repeat 0 i) o) (repeat 0 o).
Proof.
  intros Hn Hx. unfold Linear_grad, sum_rows.
  rewrite (transpose_zeros n o Hn), matmul_zeros_l.
  destruct (transpose_shape n i x Hx Hn) as [HT _]. rewrite HT.
  f_equal. rewrite map_repeat. f_equal. apply vsum_zeros.
  apply Forall_forall. intros y Hy. now apply repeat_spec in Hy.
Qed.

Lemma Linear_grad_input_of_zeros (i o n : nat) (l : Linear R) :
  Linear_wf i o l -> (0 < o)%nat ->
  Linear_grad_input l (repeat (repeat 0 o) n) = repeat (repeat 0 i) n.
Proof.
  intros (_ & _ & W & _) Ho. unfold Linear_grad_input.
  rewrite matmul_zeros_l.
  destruct (transpose_shape o i (weight l) W Ho) as [HT _].
  now rewrite HT.
Qed.

Lemma zero_Linear_elements (fi fo i o : nat) :
  Forall (fun g => g = 0)
         (Linear_elements (mkLinear fi fo (repeat (repeat 0 i) o)
                                    (repeat 0 o))).
Proof.
  unfold Linear_elements. cbn [weight bias]. apply Forall_app. split.
  - apply concat_repeat_all.
  - apply Forall_forall. intros y Hy. now apply repeat_spec in Hy.
Qed.

Lemma map_zero_matrix (r c : nat) (m : matrix R) :
  mshape r c m -> map (map (fun _ : R => 0)) m = repeat (repeat 0 c) r.
Proof.
  intros [Hr Hc]. subst r.
  induction Hc as [|row m Hrow Hc IH]; simpl; [reflexivity|].
  rewrite IH. f_equal. rewrite <- Hrow.
  apply map_const_repeat. reflexivity.
Qed.

Lemma matrix_map2_const_r_id {X Y : Type} (f : X -> Y -> X) (c0 : Y)
    (r c : nat) (m : matrix X) :
  (forall x, f x c0 = x) -> mshape r c m ->
  map2 (map2 f) m (repeat (repeat c0 c) r) = m.
Proof.
  intros H [Hr Hc]. subst r.
  induction Hc as [|row m Hrow Hc IH]; simpl; [reflexivity|].
  rewrite IH. f_equal. now apply map2_const_r_id.
Qed.

(** The first step of a fresh optimizer on a layer whose gradient is
    zero throughout. *)
Lemma Linear_first_step_zero_grad (hp : AdamHyper R) (i o fi fo : nat)
    (l : Linear R) :
  hyper_ok hp -> Linear_wf i o l ->
  let g := mkLinear fi fo (repeat (repeat 0 i) o) (repeat 0 o) in
  let z := Linear_map (fun _ : R => 0) l in
  Linear_map2 (adam_param hp 1) l
    (Linear_map2 pair (Linear_map2 (adam_exp_avg hp) z g)
                      (Linear_map2 (adam_exp_avg_sq hp) z g)) = l.
Proof.
  intros Hhp (Hi & Ho & W & B) g z.
  unfold z, g, Linear_map2, Linear_map.
  cbn [in_features out_features weight bias].
  rewrite (map_zero_matrix o i (weight l) W).
  rewrite (map_const_repeat (fun _ : R => 0) 0 (bias l)) by reflexivity.
  rewrite B, !map2_repeat.
  rewrite (matrix_map2_const_r_id _ _ o i (weight l)); [| |exact W].
  2:{ intros p. rewrite (adam_first_step_formula hp p 0 Hhp).
      unfold Rdiv. lra. }
  rewrite (map2_const_r_id _ _ o (bias l)); [| |exact B].
  2:{ intros p. rewrite (adam_first_step_formula hp p 0 Hhp).
      unfold Rdiv. lra. }
  now destruct l.
Qed.

(** X13.  When the last relu clamps every output of the model on a batch
    to zero, the batch teaches the model nothing: every gradient
    [backward] computes is zero, and the first step of a fresh optimizer
    leaves the parameters exactly as they were. *)
Theorem clamped_outputs_stop_learning :
  forall (hp : AdamHyper R) (n : nat) (ae : AE R) (x out : matrix R),
    hyper_ok hp -> AE_wf 784 ae -> mshape n 784 x -> (0 < n)%nat ->
    forward ae x = Ok out ->
    Forall (Forall (fun v => v = 0)) out ->
    Forall (fun g => g = 0) (AE_elements (backward ae x)) /\
    snd (Adam_step hp (Adam_init ae) ae (backward ae x)) = ae.
Proof.
  intros hp n ae x out Hhp Hae Hx Hn Hf Hz.
  destruct (forward_layers 784 n ae x Hae Hx) as (Hfw & S1 & S2 & S3 & S4).
  rewrite Hfw in Hf. injection Hf as <-.
  pose proof (all_zero_matrix n 784 (layer4 ae x) S4 Hz) as E4.
  pose proof Hae as (H1 & H2 & H3 & H4).
  assert (Eb : backward ae x =
    mkAE (mkLinear (in_features (encoder_hidden_layer ae))
                   (out_features (encoder_hidden_layer ae))
                   (repeat (repeat 0 784%nat) 128) (repeat 0 128%nat))
         (mkLinear (in_features (encoder_output_layer ae))
                   (out_features (encoder_output_layer ae))
                   (repeat (repeat 0 128%nat) 128) (repeat 0 128%nat))
         (mkLinear (in_features (decoder_hidden_layer ae))
                   (out_features (decoder_hidden_layer ae))
                   (repeat (repeat 0 128%nat) 128) (repeat 0 128%nat))
         (mkLinear (in_features (decoder_output_layer ae))
                   (out_features (decoder_output_layer ae))
                   (repeat (repeat 0 128%nat) 784) (repeat 0 784%nat))).
  { unfold backward. cbv zeta.
    assert (D4 : relu_backward (criterion_grad (layer4 ae x) x)
                               (layer4 ae x)
                 = repeat (repeat 0 784%nat) n).
    { rewrite E4 at 2. apply relu_backward_clamped.
      apply criterion_grad_shape; assumption. }
    rewrite D4.
    rewrite (Linear_grad_input_of_zeros 128 784 n _ H4) by lia.
    rewrite (relu_backward_of_zeros n 128 _ S3).
    rewrite (Linear_grad_input_of_zeros 128 128 n _ H3) by lia.
    rewrite (relu_backward_of_zeros n 128 _ S2).
    rewrite (Linear_grad_input_of_zeros 128 128 n _ H2) by lia.
    rewrite (relu_backward_of_zeros n 128 _ S1).
    rewrite (Linear_grad_of_zeros 784 128 n _ x Hn Hx).
    rewrite (Linear_grad_of_zeros 128 128 n _ _ Hn S1).
    rewrite (Linear_grad_of_zeros 128 128 n _ _ Hn S2).
    rewrite (Linear_grad_of_zeros 128 784 n _ _ Hn S3).
    reflexivity. }
  rewrite Eb. split.
  - unfold AE_elements.
    cbn [encoder_hidden_layer encoder_output_layer decoder_hidden_layer
         decoder_output_layer].
    apply Forall_app; split; [apply zero_Linear_elements|].
    apply Forall_app; split; [apply zero_Linear_elements|].
    apply Forall_app; split; apply zero_Linear_elements.
  - unfold Adam_step, Adam_init, AE_map2, AE_map.
    cbn [snd step exp_avg exp_avg_sq encoder_hidden_layer
         encoder_output_layer decoder_hidden_layer decoder_output_layer].
    change (@zero R R_scalar) with 0.
    rewrite (Linear_first_step_zero_grad hp 784 128 _ _ _ Hhp H1).
    rewrite (Linear_first_step_zero_grad hp 128 128 _ _ _ Hhp H2).
    rewrite (Linear_first_step_zero_grad hp 128 128 _ _ _ Hhp H3).
    rewrite (Linear_first_step_zero_grad hp 128 784 _ _ _ Hhp H4).
    now destruct ae.
Qed.

(** The model with all parameters zero on a batch of one sample with all
    pixels at 1. *)
Lemma clamped_outputs_stop_learning_witness :
  snd (Adam_step optimizer_hyper (Adam_init (zeros_AE 784)) (zeros_AE 784)
                 (backward (zeros_AE 784) [repeat 1 784%nat]))
  = zeros_AE 784.
Proof.
  apply (clamped_outputs_stop_learning optimizer_hyper 1 (zeros_AE 784)
           [repeat 1 784%nat] (layer4 (zeros_AE 784) [repeat 1 784%nat])
           optimizer_hyper_ok (zeros_AE_wf 784)).
  - split; [reflexivity|]. constructor; [apply repeat_length | constructor].
  - lia.
  - apply (forward_layers 784 1).
    + apply zeros_AE_wf.
    + split; [reflexivity|].
      constructor; [apply repeat_length | constructor].
  - destruct (layers_zeros 784 [repeat 1 784%nat]) as (_ & _ & _ & L4).
    rewrite L4. apply Forall_forall. intros row Hrow.
    apply repeat_spec in Hrow. subst row.
    apply Forall_forall. intros y Hy. now apply repeat_spec in Hy.
Defined.

Local Close Scope R_scope.

(** * The guessing game *)

(** ** The number to guess *)

Lemma Int_part_bounds (x : R) (n : Z) :
  (0 <= x < IZR n)%R -> (0 <= Int_part x < n)%Z.
Proof.
  intros [H0 Hn]. destruct (base_Int_part x) as [H1 H2]. split.
  - assert (H : (-1 < Int_part x)%Z) by (apply lt_IZR; lra). lia.
  - apply lt_IZR. lra.
Qed.

Lemma getRandomInteger_bounds (random : R) (lo hi : Z) :
  (0 <= random < 1)%R -> (lo <= hi)%Z ->
  (lo <= Game.getRandomInteger random lo hi <= hi)%Z.
Proof.
  intros [H0 H1] Hle. unfold Game.getRandomInteger.
  assert (Hn : (1 <= IZR (hi - lo + 1))%R) by (apply IZR_le; lia).
  assert (Hx : (0 <= random * IZR (hi - lo + 1) < IZR (hi - lo + 1))%R).
  { split; [apply Rmult_le_pos; lra|].
    rewrite <- (Rmult_1_l (IZR (hi - lo + 1))) at 2.
    apply Rmult_lt_compat_r; lra. }
  pose proof (Int_part_bounds _ _ Hx). lia.
Qed.

Lemma getRandomInteger_reaches (lo hi k : Z) :
  (lo <= k <= hi)%Z ->
  let random := (IZR (k - lo) / IZR (hi - lo + 1))%R in
  (0 <= random < 1)%R /\ Game.getRandomInteger random lo hi = k.
Proof.
  intros Hk random.
  assert (Hn : (0 < IZR (hi - lo + 1))%R) by (apply IZR_lt; lia).
  assert (Hk0 : (0 <= IZR (k - lo))%R) by (apply IZR_le; lia).
  assert (Hk1 : (IZR (k - lo) < IZR (hi - lo + 1))%R) by (apply IZR_lt; lia).
  split.
  - unfold random. split.
    + apply Rmult_le_pos; [exact Hk0|]. left. now apply Rinv_0_lt_compat.
    + apply Rmult_lt_reg_r with (IZR (hi - lo + 1)); [exact Hn|].
      unfold Rdiv. rewrite Rmult_assoc, Rinv_l; lra.
  - unfold Game.getRandomInteger, random.
    replace (IZR (k - lo) / IZR (hi - lo + 1) * IZR (hi - lo + 1))%R
      with (IZR (k - lo)) by (field; lra).
    rewrite <- (Int_part_spec (IZR (k - lo)) (k - lo)); [lia | lra].
Qed.

(** X14.  [getRandomInteger(min, max)] returns an integer between [min]
    and [max], both included, for every value of [Math.random()], and
    every integer between them is returned for some value. *)
Theorem getRandomInteger_covers_the_range :
  forall lo hi : Z,
    (lo <= hi)%Z ->
    (forall random : R,
       (0 <= random < 1)%R ->
       (lo <= Game.getRandomInteger random lo hi <= hi)%Z) /\
    (forall k : Z,
       (lo <= k <= hi)%Z ->
       exists random : R,
         (0 <= random < 1)%R /\ Game.getRandomInteger random lo hi = k).
Proof.
  intros lo hi Hle. split.
  - intros random Hr. now apply getRandomInteger_bounds.
  - intros k Hk. eexists. apply (getRandomInteger_reaches lo hi k Hk).
Qed.

(** The bounds of the game. *)
Lemma getRandomInteger_covers_the_range_witness :
  (forall random : R,
     (0 <= random < 1)%R ->
     (1 <= Game.getRandomInteger random 1 100 <= 100)%Z) /\
  (forall k : Z,
     (1 <= k <= 100)%Z ->
     exists random : R,
       (0 <= random < 1)%R /\ Game.getRandomInteger random 1 100 = k).
Proof.
  exact (getRandomInteger_covers_the_range 1 100 ltac:(lia)).
Defined.

(** ** Guesses *)

Lemma same_value_zero_eq (a b : Game.number) :
  Game.same_value_zero a b = true <-> a = b.
Proof.
  destruct a as [x|p|], b as [y|q|]; simpl; split; intros H;
    try discriminate; try reflexivity;
    first [ apply Z.eqb_eq in H; now subst
          | injection H as ->; apply Z.eqb_refl
          | apply eqb_prop in H; now subst
          | injection H as ->; apply eqb_reflx ].
Qed.

Lemma includes_In (array : list Game.number) (x : Game.number) :
  Game.includes array x = true <-> In x array.
Proof.
  unfold Game.includes. rewrite existsb_exists. split.
  - intros (y & Hy & E). apply same_value_zero_eq in E. now subst.
  - intros H. exists x. split; [exact H|]. now apply same_value_zero_eq.
Qed.

Lemma includes_not_In (array : list Game.number) (x : Game.number) :
  Game.includes array x = false <-> ~ In x array.
Proof.
  rewrite <- includes_In. destruct (Game.includes array x); split;
    intros H; try discriminate; try reflexivity; tauto.
Qed.

(** What passes the check of the bounds: an integer from 1 to 100, or
    NaN, with which every comparison is false. *)
Lemma within_bounds (guess : Game.number) :
  Game.lt guess (Game.Num Game.min)
    || Game.gt guess (Game.Num Game.max) = false <->
  Game.in_bounds guess \/ guess = Game.NaN.
Proof.
  unfold Game.in_bounds, Game.gt, Game.min, Game.max.
  destruct guess as [z|[|]|]; simpl; split; intros H;
    try discriminate; auto.
  - apply orb_false_iff in H. destruct H as [H1 H2].
    apply Z.ltb_ge in H1, H2. left. exists z. split; [reflexivity | lia].
  - destruct H as [(z' & [= <-] & Hz)|H]; [|discriminate].
    apply orb_false_iff. split; apply Z.ltb_ge; lia.
  - destruct H as [(z' & H & _)|H]; discriminate.
  - destruct H as [(z' & H & _)|H]; discriminate.
Qed.

Lemma string_of_Z_parse (z : Z) :
  Game.parse_decimal (Game.string_of_Z z) = Game.Num z.
Proof.
  unfold Game.parse_decimal, Game.string_of_Z.
  rewrite NilZero.isi.
  - now rewrite DecimalZ.of_to.
  - destruct z; simpl; try discriminate.
    intros [= H]. now apply Unsigned.to_uint_nonnil in H.
  - destruct z; simpl; try discriminate.
    intros [= H]. now apply Unsigned.to_uint_nonnil in H.
Qed.

Section Session.
Variable parseInt : string -> Game.number.

Lemma init_consistent (random : R) (page : Game.Page) :
  (0 <= random < 1)%R -> Game.consistent (Game.init random page).
Proof.
  intros Hr. unfold Game.consistent, Game.init.
  cbn [Game.num Game.prevGuesses Game.guessCount Game.guessList
       Game.submitBtn Game.resultText].
  split; [apply getRandomInteger_bounds; [exact Hr | unfold Game.min, Game.max; lia]|].
  split; [constructor|]. split; [reflexivity|]. split; [reflexivity|].
  split.
  - split; intros H; discriminate.
  - left. split; [reflexivity | constructor].
Qed.

(** A press of the button while a game is on. *)
Lemma submit_while_playing (random : R) (value : string)
    (page : Game.Page) :
  Game.submitBtn page <> Game.playAgain ->
  let guess := parseInt value in
  let page' := Game.submit parseInt random (Game.enter value page) in
  Game.num page' = Game.num page /\ Game.numInput page' = ""%string /\
  ((In guess (Game.prevGuesses page) /\
    page' = Game.reject (Game.enter value page)
              "You've already guessed that number!") \/
   (~ In guess (Game.prevGuesses page) /\
    ~ (Game.in_bounds guess \/ guess = Game.NaN) /\
    page' = Game.reject (Game.enter value page)
              "Your guess must be more than 1 and less than 100.") \/
   (~ In guess (Game.prevGuesses page) /\
    (Game.in_bounds guess \/ guess = Game.NaN) /\
    Game.prevGuesses page' = Game.prevGuesses page ++ [guess] /\
    Game.guessCount page' =
      ("(" ++ Game.string_of_Z
                (Game.allowedNumGuesses
                 - Z.of_nat (length (Game.prevGuesses page ++ [guess])))
       ++ " left)")%string /\
    Game.guessList page' =
      Game.join (Game.prevGuesses page ++ [guess]) ", " /\
    ((Game.lt guess (Game.Num (Game.num page)) = true /\
      Game.resultText page' = "Your number is too low."%string /\
      Game.submitBtn page' = Game.submitBtn page) \/
     (Game.lt guess (Game.Num (Game.num page)) = false /\
      Game.gt guess (Game.Num (Game.num page)) = true /\
      Game.resultText page' = "Your number is too high."%string /\
      Game.submitBtn page' = Game.submitBtn page) \/
     (Game.lt guess (Game.Num (Game.num page)) = false /\
      Game.gt guess (Game.Num (Game.num page)) = false /\
      Game.resultText page' = "You win!"%string /\
      Game.submitBtn page' = Game.playAgain)))).
Proof.
  intros Hb guess page'. unfold page', Game.submit.
  cbn [Game.enter Game.submitBtn Game.numInput Game.prevGuesses Game.num].
  rewrite (proj2 (String.eqb_neq _ _) Hb).
  fold guess.
  destruct (Game.includes (Game.prevGuesses page) guess) eqn:Ei.
  { apply includes_In in Ei. split; [reflexivity|]. split; [reflexivity|].
    left. split; [exact Ei | reflexivity]. }
  apply includes_not_In in Ei.
  destruct (Game.lt guess (Game.Num Game.min)
            || Game.gt guess (Game.Num Game.max)) eqn:Eb.
  { split; [reflexivity|]. split; [reflexivity|].
    right. left. split; [exact Ei|]. split; [|reflexivity].
    intros H. apply within_bounds in H. congruence. }
  apply within_bounds in Eb.
  destruct (Game.lt guess (Game.Num (Game.num page))) eqn:El.
  { split; [reflexivity|]. split; [reflexivity|].
    right. right. split; [exact Ei|]. split; [exact Eb|].
    split; [reflexivity|]. split; [reflexivity|]. split; [reflexivity|].
    left. split; [reflexivity|]. split; reflexivity. }
  destruct (Game.gt guess (Game.Num (Game.num page))) eqn:Eg.
  { split; [reflexivity|]. split; [reflexivity|].
    right. right. split; [exact Ei|]. split; [exact Eb|].
    split; [reflexivity|]. split; [reflexivity|]. split; [reflexivity|].
    right. left. split; [reflexivity|]. split; [reflexivity|].
    split; reflexivity. }
  split; [reflexivity|]. split; [reflexivity|].
  right. right. split; [exact Ei|]. split; [exact Eb|].
  split; [reflexivity|]. split; [reflexivity|]. split; [reflexivity|].
  right. right. repeat split.
Qed.

Lemma Submit_is_not_playAgain (page : Game.Page) :
  Game.submitBtn page = "Submit"%string ->
  Game.submitBtn page <> Game.playAgain.
Proof. intros ->. discriminate. Qed.

Lemma NoDup_snoc {X : Type} (l : list X) (x : X) :
  NoDup l -> ~ In x l -> NoDup (l ++ [x]).
Proof.
  intros Hl Hx. apply NoDup_app; [exact Hl | repeat constructor; auto |].
  intros y Hy [<-|[]]. contradiction.
Qed.

Lemma snoc_not_nil {X Y : Type} (l : list X) (x : X) (a b : Y) :
  match l ++ [x] with [] => a | _ => b end = b.
Proof. destruct l; reflexivity. Qed.

Lemma reject_consistent (value text : string) (page : Game.Page) :
  Game.consistent page -> Game.submitBtn page = "Submit"%string ->
  text <> "You win!"%string ->
  Game.consistent (Game.reject (Game.enter value page) text).
Proof.
  intros (Hnum & Hnd & Hcnt & Hlist & Hwin & Hcase) Hb Ht.
  unfold Game.consistent, Game.reject.
  cbn [Game.enter Game.num Game.prevGuesses Game.guessCount Game.guessList
       Game.submitBtn Game.resultText].
  split; [exact Hnum|]. split; [exact Hnd|]. split; [exact Hcnt|].
  split; [exact Hlist|]. split; [|exact Hcase].
  rewrite Hb. split; [intros H; contradiction | intros H; discriminate].
Qed.

Lemma submit_consistent (random : R) (value : string) (page : Game.Page) :
  (0 <= random < 1)%R -> Game.consistent page ->
  Game.consistent (Game.submit parseInt random (Game.enter value page)).
Proof.
  intros Hr Hcons.
  pose proof Hcons
    as (Hnum & Hnd & Hcnt & Hlist & Hwin & [[Hb Hall]|[Hb Hlast]]).
  2:{ unfold Game.submit. cbn [Game.enter Game.submitBtn]. rewrite Hb.
      cbn [String.eqb Ascii.eqb Bool.eqb Game.playAgain].
      now apply init_consistent. }
  destruct (submit_while_playing random value page
              (Submit_is_not_playAgain page Hb))
    as (Hn & _ & [[Hin E]|[(Hni & Hout & E)|(Hni & Hok & Hp & Hc & Hl & Hh)]]).
  - rewrite E. apply reject_consistent; [exact Hcons | exact Hb |].
    discriminate.
  - rewrite E. apply reject_consistent; [exact Hcons | exact Hb |].
    discriminate.
  - set (guess := parseInt value) in *.
    set (page' := Game.submit parseInt random (Game.enter value page)) in *.
    unfold Game.consistent. rewrite Hn, Hp, Hc, Hl.
    split; [exact Hnum|]. split; [now apply NoDup_snoc|].
    split; [reflexivity|]. split; [now rewrite snoc_not_nil|].
    destruct Hh as [(El & Ht & Hb')|[(El & Eg & Ht & Hb')|(El & Eg & Ht & Hb')]];
      rewrite Ht, Hb', ?Hb.
    + split; [split; intros H; discriminate|].
      left. split; [reflexivity|]. apply Forall_app. split; [exact Hall|].
      constructor; [|constructor].
      destruct Hok as [Hok|Hok]; [|rewrite Hok in El; discriminate].
      split; [exact Hok|]. intros E. rewrite E in El. simpl in El.
      rewrite Z.ltb_irrefl in El. discriminate.
    + split; [split; intros H; discriminate|].
      left. split; [reflexivity|]. apply Forall_app. split; [exact Hall|].
      constructor; [|constructor].
      destruct Hok as [Hok|Hok];
        [|rewrite Hok in Eg; discriminate].
      split; [exact Hok|]. intros E. rewrite E in Eg.
      unfold Game.gt in Eg. simpl in Eg.
      rewrite Z.ltb_irrefl in Eg. discriminate.
    + split; [split; reflexivity|].
      right. split; [reflexivity|].
      exists (Game.prevGuesses page), guess.
      split; [reflexivity|]. split; [exact Hall|].
      destruct Hok as [(z & Ez & _)|Hok]; [left | now right].
      rewrite Ez in *. unfold Game.gt in Eg. simpl in El, Eg.
      apply Z.ltb_ge in El, Eg. f_equal. lia.
Qed.

Lemma reachable_consistent (page : Game.Page) :
  Game.reachable parseInt page -> Game.consistent page.
Proof.
  induction 1 as [random page Hr|random value page Hr _ IH].
  - now apply init_consistent.
  - now apply submit_consistent.
Qed.

End Session.

(** X15.  Every page of a session is consistent: the number to guess is
    from 1 to 100; no guess is listed twice; the counter shows 10 minus
    the number of guesses listed and the list shows them in order,
    separated by commas, or "(None)"; "You win!" is shown exactly when
    the button reads "Play Again"; while a game is on every listed guess
    is an integer from 1 to 100 other than the number, and once it is
    won the last guess is the number or NaN. *)
Theorem pages_of_a_session_are_consistent :
  forall (parseInt : string -> Game.number) (page : Game.Page),
    Game.reachable parseInt page ->
    (1 <= Game.num page <= 100)%Z /\
    NoDup (Game.prevGuesses page) /\
    Game.guessCount page =
      ("(" ++ Game.string_of_Z
                (10 - Z.of_nat (length (Game.prevGuesses page)))
       ++ " left)")%string /\
    Game.guessList page =
      match Game.prevGuesses page with
      | [] => "(None)"%string
      | _ => Game.join (Game.prevGuesses page) ", "
      end /\
    (Game.resultText page = "You win!"%string <->
     Game.submitBtn page = "Play Again"%string) /\
    (Game.submitBtn page = "Submit"%string \/
     Game.submitBtn page = "Play Again"%string) /\
    (Game.submitBtn page = "Submit"%string ->
     Forall (fun guess =>
               exists z : Z,
                 guess = Game.Num z /\ (1 <= z <= 100)%Z /\
                 z <> Game.num page)
            (Game.prevGuesses page)) /\
    (Game.submitBtn page = "Play Again"%string ->
     exists (earlier : list Game.number) (guess : Game.number),
       Game.prevGuesses page = earlier ++ [guess] /\
       (guess = Game.Num (Game.num page) \/ guess = Game.NaN)).
Proof.
  intros parseInt page H.
  destruct (reachable_consistent parseInt page H)
    as (Hnum & Hnd & Hcnt & Hlist & Hwin & Hcase).
  split; [exact Hnum|]. split; [exact Hnd|]. split; [exact Hcnt|].
  split; [exact Hlist|]. split; [exact Hwin|].
  destruct Hcase as [[Hb Hall]|[Hb (earlier & guess & Hp & _ & Hlast)]].
  - split; [now left|]. split.
    + intros _. eapply Forall_impl; [|exact Hall].
      intros guess [(z & -> & Hz) Hne]. exists z.
      split; [reflexivity|]. split; [exact Hz|].
      intros E. apply Hne. now rewrite E.
    + rewrite Hb. intros E. discriminate.
  - split; [now right|]. split.
    + rewrite Hb. intros E. discriminate.
    + intros _. exists earlier, guess. split; assumption.
Qed.

(** The page after the guesses 50 and 50 again. *)
Lemma pages_of_a_session_are_consistent_witness :
  NoDup
    (Game.prevGuesses
       (Game.submit Game.parse_decimal 0
          (Game.enter "50"
             (Game.submit Game.parse_decimal 0
                (Game.enter "50"
                   (Game.init 0 (Game.mkPage 0 [] "" "" "" "" ""))))))).
Proof.
  apply (pages_of_a_session_are_consistent Game.parse_decimal).
  apply Game.reach_submit; [lra|].
  apply Game.reach_submit; [lra|].
  apply Game.reach_init. lra.
Defined.

Lemma playing_page (parseInt : string -> Game.number) (page : Game.Page) :
  Game.reachable parseInt page -> Game.submitBtn page <> Game.playAgain ->
  Game.submitBtn page = "Submit"%string /\
  (Game.min <= Game.num page <= Game.max)%Z /\
  Forall (fun guess => Game.in_bounds guess /\
                       guess <> Game.Num (Game.num page))
         (Game.prevGuesses page).
Proof.
  intros Hr Hb.
  destruct (reachable_consistent parseInt page Hr)
    as (Hnum & _ & _ & _ & _ & [[Hs Hall]|[Hs _]]); [|contradiction].
  auto.
Qed.

Lemma NaN_not_in_bounds : ~ Game.in_bounds Game.NaN.
Proof. intros (z & H & _). discriminate. Qed.

(** X16.  An entry that [parseInt] cannot read as a number, the empty
    one for instance, wins the game on the spot: NaN is below no bound,
    above none, and neither below nor above the number to guess, so the
    last branch of [submit] is taken. The page shows "You win!", the
    button reads "Play Again", and NaN is added to the guesses. *)
Theorem guess_that_is_no_number_wins :
  forall (parseInt : string -> Game.number) (random : R) (value : string)
         (page : Game.Page),
    Game.reachable parseInt page ->
    Game.submitBtn page <> Game.playAgain ->
    parseInt value = Game.NaN ->
    let page' := Game.submit parseInt random (Game.enter value page) in
    Game.resultText page' = "You win!"%string /\
    Game.submitBtn page' = Game.playAgain /\
    Game.prevGuesses page' = Game.prevGuesses page ++ [Game.NaN] /\
    Game.guessList page' =
      Game.join (Game.prevGuesses page ++ [Game.NaN]) ", ".
Proof.
  intros parseInt random value page Hr Hb Hnan page'.
  destruct (playing_page parseInt page Hr Hb) as (_ & _ & Hall).
  assert (Hni : ~ In Game.NaN (Game.prevGuesses page)).
  { intros Hin. rewrite Forall_forall in Hall.
    destruct (Hall _ Hin) as [H _]. now apply NaN_not_in_bounds. }
  destruct (submit_while_playing parseInt random value page Hb)
    as (_ & _ & [[Hin _]|[(_ & Hout & _)|(_ & _ & Hp & _ & Hl & Hh)]]);
    rewrite Hnan in *.
  - contradiction.
  - exfalso. apply Hout. now right.
  - fold page' in Hp, Hl, Hh.
    destruct Hh as [(El & _)|[(_ & Eg & _)|(_ & _ & Ht & Hb')]];
      try discriminate.
    auto.
Qed.

(** The first press of the button, with nothing entered. *)
Lemma guess_that_is_no_number_wins_witness :
  Game.resultText
    (Game.submit Game.parse_decimal 0
       (Game.enter "" (Game.init 0 (Game.mkPage 0 [] "" "" "" "" ""))))
  = "You win!"%string.
Proof.
  apply (guess_that_is_no_number_wins Game.parse_decimal 0 ""
           (Game.init 0 (Game.mkPage 0 [] "" "" "" "" ""))).
  - apply Game.reach_init. lra.
  - discriminate.
  - reflexivity.
Defined.

(** X17.  A guess counts exactly when it is an integer from 1 to 100,
    both included, that was not guessed before: then it is added to the
    list and the counter goes down by one. Any other integer costs
    nothing: the number, the guesses, the counter, the list and the
    button stay as they are, and the message says that the number was
    guessed already or that the guess must be "more than 1 and less than
    100". Either way the input box is emptied. *)
Theorem guess_counts_iff_new_and_within_bounds :
  forall (parseInt : string -> Game.number) (random : R) (value : string)
         (page : Game.Page) (z : Z),
    Game.submitBtn page <> Game.playAgain ->
    parseInt value = Game.Num z ->
    let page' := Game.submit parseInt random (Game.enter value page) in
    Game.numInput page' = ""%string /\
    ((1 <= z <= 100)%Z /\ ~ In (Game.Num z) (Game.prevGuesses page) ->
     Game.prevGuesses page' = Game.prevGuesses page ++ [Game.Num z] /\
     Game.guessCount page' =
       ("(" ++ Game.string_of_Z
                 (10 - Z.of_nat (length (Game.prevGuesses page)) - 1)
        ++ " left)")%string) /\
    (~ ((1 <= z <= 100)%Z /\ ~ In (Game.Num z) (Game.prevGuesses page)) ->
     Game.num page' = Game.num page /\
     Game.prevGuesses page' = Game.prevGuesses page /\
     Game.guessCount page' = Game.guessCount page /\
     Game.guessList page' = Game.guessList page /\
     Game.submitBtn page' = Game.submitBtn page /\
     Game.resultText page' =
       if Game.includes (Game.prevGuesses page) (Game.Num z)
       then "You've already guessed that number!"%string
       else "Your guess must be more than 1 and less than 100."%string).
Proof.
  intros parseInt random value page z Hb Hz. cbv zeta.
  assert (Hbounds : Game.in_bounds (Game.Num z) \/ Game.Num z = Game.NaN
                    <-> (1 <= z <= 100)%Z).
  { split.
    - intros [(z' & [= <-] & H)|H]; [exact H | discriminate].
    - intros H. left. exists z. split; [reflexivity | exact H]. }
  destruct (submit_while_playing parseInt random value page Hb)
    as (Hn & Hi & [[Hin E]|[(Hni & Hout & E)|(Hni & Hok & Hp & Hc & Hl & Hh)]]);
    rewrite Hz in *.
  - split; [exact Hi|]. split; [intros [_ H]; contradiction|].
    intros _. rewrite E.
    rewrite (proj2 (includes_In _ _) Hin). repeat split.
  - split; [exact Hi|]. rewrite Hbounds in Hout.
    split; [intros [H _]; contradiction|].
    intros _. rewrite E.
    rewrite (proj2 (includes_not_In _ _) Hni). repeat split.
  - split; [exact Hi|]. rewrite Hbounds in Hok. split.
    + intros _. split; [exact Hp|]. rewrite Hc. do 3 f_equal.
      rewrite length_app. unfold Game.allowedNumGuesses. simpl length. lia.
    + intros H. exfalso. apply H. split; assumption.
Qed.

(** The bounds themselves are accepted: 100 as the first guess. *)
Lemma guess_counts_iff_new_and_within_bounds_witness :
  Game.prevGuesses
    (Game.submit Game.parse_decimal 0
       (Game.enter "100" (Game.init 0 (Game.mkPage 0 [] "" "" "" "" ""))))
  = [Game.Num 100] /\
  Game.guessCount
    (Game.submit Game.parse_decimal 0
       (Game.enter "100" (Game.init 0 (Game.mkPage 0 [] "" "" "" "" ""))))
  = "(9 left)"%string.
Proof.
  destruct (guess_counts_iff_new_and_within_bounds Game.parse_decimal 0
              "100" (Game.init 0 (Game.mkPage 0 [] "" "" "" "" "")) 100
              ltac:(discriminate) eq_refl)
    as (_ & H & _).
  apply H. split; [lia | intros []].
Defined.

(** X18.  Winning and starting over: the guess that equals the number
    shows "You win!" and turns the button into "Play Again"; the next
    press then reads no guess, whatever is in the input box, and leaves
    the box as it is: it draws a new number from 1 to 100 and shows the
    page of a new game. *)
Theorem winning_and_playing_again :
  forall (parseInt : string -> Game.number) (random random' : R)
         (value value' : string) (page : Game.Page),
    Game.reachable parseInt page ->
    Game.submitBtn page <> Game.playAgain ->
    parseInt value = Game.Num (Game.num page) ->
    (0 <= random' < 1)%R ->
    let won := Game.submit parseInt random (Game.enter value page) in
    let again := Game.submit parseInt random' (Game.enter value' won) in
    Game.resultText won = "You win!"%string /\
    Game.submitBtn won = Game.playAgain /\
    Game.prevGuesses won =
      Game.prevGuesses page ++ [Game.Num (Game.num page)] /\
    (1 <= Game.num again <= 100)%Z /\
    Game.prevGuesses again = [] /\
    Game.resultText again = "(Result will appear here)"%string /\
    Game.numInput again = value' /\
    Game.submitBtn again = "Submit"%string /\
    Game.guessCount again = "(10 left)"%string /\
    Game.guessList again = "(None)"%string.
Proof.
  intros parseInt random random' value value' page Hr Hb Hz Hr'.
  cbv zeta.
  set (won := Game.submit parseInt random (Game.enter value page)).
  set (again := Game.submit parseInt random' (Game.enter value' won)).
  destruct (playing_page parseInt page Hr Hb) as (_ & Hnum & Hall).
  assert (Hni : ~ In (Game.Num (Game.num page)) (Game.prevGuesses page)).
  { intros Hin. rewrite Forall_forall in Hall.
    destruct (Hall _ Hin) as [_ H]. now apply H. }
  assert (Hwon : Game.resultText won = "You win!"%string /\
                 Game.submitBtn won = Game.playAgain /\
                 Game.prevGuesses won =
                   Game.prevGuesses page ++ [Game.Num (Game.num page)]).
  { destruct (submit_while_playing parseInt random value page Hb)
      as (_ & _ & [[Hin _]|[(_ & Hout & _)|(_ & _ & Hp & _ & _ & Hh)]]);
      rewrite Hz in *.
    - contradiction.
    - exfalso. apply Hout. left. exists (Game.num page). auto.
    - fold won in Hp, Hh. unfold Game.gt in Hh. simpl in Hh. rewrite Z.ltb_irrefl in Hh.
      destruct Hh as [(El & _)|[(_ & Eg & _)|(_ & _ & Ht & Hb')]];
        try discriminate.
      auto. }
  destruct Hwon as (Ht & Hbw & Hp).
  split; [exact Ht|]. split; [exact Hbw|]. split; [exact Hp|].
  assert (E : again = Game.init random' (Game.enter value' won)).
  { unfold again, Game.submit. cbn [Game.enter Game.submitBtn].
    now rewrite Hbw. }
  rewrite E. unfold Game.init.
  cbn [Game.num Game.prevGuesses Game.resultText Game.numInput
       Game.submitBtn Game.guessCount Game.guessList Game.enter].
  split; [apply (getRandomInteger_bounds random' 1 100 Hr'); lia|].
  repeat split.
Qed.

Lemma getRandomInteger_0 : Game.getRandomInteger 0 1 100 = 1%Z.
Proof.
  destruct (getRandomInteger_reaches 1 100 1 ltac:(lia)) as [_ H].
  replace (IZR (1 - 1) / IZR (100 - 1 + 1))%R with 0%R in H;
    [exact H | simpl; lra].
Qed.

(** The number drawn is 1; the guess 1 wins, and the next press starts
    over with "seven" in the box. *)
Lemma winning_and_playing_again_witness :
  let won :=
    Game.submit Game.parse_decimal 0
      (Game.enter "1" (Game.init 0 (Game.mkPage 0 [] "" "" "" "" ""))) in
  Game.resultText won = "You win!"%string /\
  Game.numInput
    (Game.submit Game.parse_decimal 0 (Game.enter "seven" won))
  = "seven"%string.
Proof.
  intros won.
  destruct (winning_and_playing_again Game.parse_decimal 0 0 "1" "seven"
              (Game.init 0 (Game.mkPage 0 [] "" "" "" "" "")))
    as (H1 & _ & _ & _ & _ & _ & H2 & _).
  - apply Game.reach_init. lra.
  - discriminate.
  - cbn [Game.init Game.num]. unfold Game.min, Game.max.
    rewrite getRandomInteger_0. reflexivity.
  - lra.
  - split; [exact H1 | exact H2].
Defined.

(** ** The allowance of ten guesses *)

Lemma not_in_map_Num (z : Z) (k : nat) :
  (Z.of_nat k < z)%Z ->
  ~ In (Game.Num z) (map (fun i => Game.Num (Z.of_nat i)) (seq 1 k)).
Proof.
  intros Hz Hin. apply in_map_iff in Hin.
  destruct Hin as (i & [= Hi] & Hs). apply in_seq in Hs. lia.
Qed.

(** Pages on which the number is 100 and the guesses 1, 2, ..., k have
    been made. *)
Lemma page_after_low_guesses (parseInt : string -> Game.number) (k : nat) :
  (forall z : Z, (1 <= z <= 100)%Z ->
                 parseInt (Game.string_of_Z z) = Game.Num z) ->
  k <= 99 ->
  exists page : Game.Page,
    Game.reachable parseInt page /\
    Game.num page = 100%Z /\
    Game.submitBtn page = "Submit"%string /\
    Game.prevGuesses page = map (fun i => Game.Num (Z.of_nat i)) (seq 1 k) /\
    Game.guessCount page =
      ("(" ++ Game.string_of_Z (10 - Z.of_nat k) ++ " left)")%string.
Proof.
  intros Hparse. induction k as [|k IH]; intros Hk.
  - destruct (getRandomInteger_reaches 1 100 100 ltac:(lia)) as [Hr Hn].
    eexists (Game.init _ (Game.mkPage 0 [] "" "" "" "" "")).
    split; [apply Game.reach_init; exact Hr|].
    split; [exact Hn|]. repeat split.
  - destruct (IH ltac:(lia)) as (page & Hreach & Hnum & Hb & Hp & _).
    set (z := Z.of_nat (S k)).
    assert (Hz : (1 <= z <= 100)%Z) by (unfold z; lia).
    exists (Game.submit parseInt 0 (Game.enter (Game.string_of_Z z) page)).
    split; [apply Game.reach_submit; [lra | exact Hreach]|].
    destruct (submit_while_playing parseInt 0 (Game.string_of_Z z) page
                (Submit_is_not_playAgain page Hb))
      as (Hn & _ & [[Hin _]|[(_ & Hout & _)|(_ & _ & Hp' & Hc & _ & Hh)]]);
      rewrite (Hparse z Hz) in *.
    + exfalso. rewrite Hp in Hin. revert Hin. apply not_in_map_Num.
      unfold z. lia.
    + exfalso. apply Hout. left. exists z. auto.
    + rewrite Hnum in Hh. simpl in Hh.
      assert (El : (z <? 100)%Z = true) by (apply Z.ltb_lt; unfold z; lia).
      rewrite El in Hh.
      destruct Hh as [(_ & _ & Hb')|[(E & _)|(E & _)]]; try discriminate.
      split; [congruence|]. split; [congruence|].
      split.
      * rewrite Hp', Hp. rewrite seq_S, map_app. reflexivity.
      * rewrite Hc, length_app, Hp, length_map, length_seq.
        unfold Game.allowedNumGuesses. do 3 f_equal. simpl length. lia.
Qed.

(** X19.  The allowance is shown and never enforced: the counter is only
    a label. For every k up to 99 there is a page of a session on which
    k guesses have been made, the game is still on, and the counter
    reads 10 - k, below zero from the eleventh guess on. *)
Theorem guesses_are_not_limited :
  forall (parseInt : string -> Game.number) (k : nat),
    (forall z : Z, (1 <= z <= 100)%Z ->
                   parseInt (Game.string_of_Z z) = Game.Num z) ->
    k <= 99 ->
    exists page : Game.Page,
      Game.reachable parseInt page /\
      Game.submitBtn page = "Submit"%string /\
      length (Game.prevGuesses page) = k /\
      Game.guessCount page =
        ("(" ++ Game.string_of_Z (10 - Z.of_nat k) ++ " left)")%string.
Proof.
  intros parseInt k Hparse Hk.
  destruct (page_after_low_guesses parseInt k Hparse Hk)
    as (page & Hr & _ & Hb & Hp & Hc).
  exists page. split; [exact Hr|]. split; [exact Hb|].
  split; [|exact Hc]. now rewrite Hp, length_map, length_seq.
Qed.

(** Twelve guesses: the counter reads "(-2 left)". *)
Lemma guesses_are_not_limited_witness :
  exists page : Game.Page,
    Game.reachable Game.parse_decimal page /\
    Game.submitBtn page = "Submit"%string /\
    length (Game.prevGuesses page) = 12 /\
    Game.guessCount page = "(-2 left)"%string.
Proof.
  exact (guesses_are_not_limited Game.parse_decimal 12
           (fun z _ => string_of_Z_parse z) ltac:(lia)).
Defined.

(** ** The hints *)

Lemma reachable_button (parseInt : string -> Game.number)
    (page : Game.Page) :
  Game.reachable parseInt page ->
  Game.submitBtn page = "Submit"%string \/
  Game.submitBtn page = Game.playAgain.
Proof.
  intros Hr.
  destruct (reachable_consistent parseInt page Hr)
    as (_ & _ & _ & _ & _ & [[Hs _]|[Hs _]]); auto.
Qed.

(** X20.  The hint on the page is true of the last guess listed, on
    every page of a session: when the page says "Your number is too
    low." the last guess is an integer below the number to guess, and
    when it says "Your number is too high." the last guess is an integer
    above it. *)
Theorem hints_are_true :
  forall (parseInt : string -> Game.number) (page : Game.Page),
    Game.reachable parseInt page ->
    (Game.resultText page = "Your number is too low."%string ->
     exists (earlier : list Game.number) (z : Z),
       Game.prevGuesses page = earlier ++ [Game.Num z] /\
       (z < Game.num page)%Z) /\
    (Game.resultText page = "Your number is too high."%string ->
     exists (earlier : list Game.number) (z : Z),
       Game.prevGuesses page = earlier ++ [Game.Num z] /\
       (Game.num page < z)%Z).
Proof.
  intros parseInt page Hpage.
  induction Hpage as [random page Hr|random value page Hr Hreach IH].
  - split; intros H; discriminate.
  - destruct (reachable_button parseInt page Hreach) as [Hb|Hb].
    2:{ unfold Game.submit. cbn [Game.enter Game.submitBtn]. rewrite Hb.
        split; intros H; discriminate. }
    destruct (submit_while_playing parseInt random value page
                (Submit_is_not_playAgain page Hb))
      as (Hn & _ & [[_ E]|[(_ & _ & E)|(_ & Hok & Hp & _ & _ & Hh)]]).
    + rewrite E. split; intros H; discriminate.
    + rewrite E. split; intros H; discriminate.
    + rewrite Hn, Hp.
      destruct Hok as [(z & Ez & _)|Ez]; rewrite Ez in *.
      * unfold Game.gt in Hh. simpl in Hh.
        destruct Hh as [(El & Ht & _)|[(_ & Eg & Ht & _)|(_ & _ & Ht & _)]];
          rewrite Ht; split; intros H; try discriminate.
        -- apply Z.ltb_lt in El. eauto.
        -- apply Z.ltb_lt in Eg. eauto.
      * destruct Hh as [(El & _)|[(_ & Eg & _)|(_ & _ & Ht & _)]];
          try discriminate.
        rewrite Ht. split; intros H; discriminate.
Qed.

(** The number drawn is 1 and the guess is 50. *)
Lemma hints_are_true_witness :
  exists (earlier : list Game.number) (z : Z),
    Game.prevGuesses
      (Game.submit Game.parse_decimal 0
         (Game.enter "50" (Game.init 0 (Game.mkPage 0 [] "" "" "" "" ""))))
    = earlier ++ [Game.Num z] /\
    (1 < z)%Z.
Proof.
  destruct (hints_are_true Game.parse_decimal
              (Game.submit Game.parse_decimal 0
                 (Game.enter "50"
                    (Game.init 0 (Game.mkPage 0 [] "" "" "" "" "")))))
    as [_ H].
  - apply Game.reach_submit; [lra|]. apply Game.reach_init. lra.
  - destruct H as (earlier & z & Hp & Hz).
    + unfold Game.submit.
      cbn [Game.enter Game.init Game.submitBtn Game.numInput
           Game.prevGuesses Game.num String.eqb Ascii.eqb Bool.eqb
           Game.playAgain Game.includes existsb].
      unfold Game.min, Game.max. rewrite getRandomInteger_0. reflexivity.
    + exists earlier, z. split; [exact Hp|].
      cbn [Game.submit] in Hz.
      replace (Game.num _) with 1%Z in Hz; [exact Hz|].
      unfold Game.submit.
      cbn [Game.enter Game.init Game.submitBtn Game.numInput
           Game.prevGuesses Game.num String.eqb Ascii.eqb Bool.eqb
           Game.playAgain Game.includes existsb].
      unfold Game.min, Game.max. rewrite getRandomInteger_0. reflexivity.
Defined.
